(** * economical-roar: a shallow embedding of the metric wrapper, the toy
      model, the dataset split metadata and the result-export scripts.

    Each module of the first part embeds one source file, or one routine
    of a library the source calls; the second part holds the properties
    established about them. *)

From Stdlib Require Import String Ascii Bool Arith ZArith Lia List.
Import ListNotations.

Set Implicit Arguments.

(* ================================================================== *)
(** * Dense tensors

    A tensor is what the framework hands to [update_state] and [call]: a
    shape and a row-major buffer of elements.  The element type is left
    open ([float32] predictions, [int32] token ids, ...). *)
(* ================================================================== *)

Module Tensor.

Record tensor (A : Type) : Type := mk { shape : list nat; values : list A }.

Arguments mk {A} shape values.

Definition numel (s : list nat) : nat := fold_right Nat.mul 1 s.

(** The buffer holds exactly as many elements as the shape announces. *)
Definition well_formed {A} (t : tensor A) : Prop :=
  length (values t) = numel (shape t).

(** [chunks n k l]: the first [k] consecutive blocks of [n] elements. *)
Fixpoint chunks {A} (n k : nat) (l : list A) : list (list A) :=
  match k with
  | O => []
  | S k' => firstn n l :: chunks n k' (skipn n l)
  end.

(** The rows of a rank-2 tensor (no rows for any other rank). *)
Definition rows {A} (t : tensor A) : list (list A) :=
  match shape t with
  | [n; m] => chunks m n (values t)
  | _ => []
  end.

(** A static shape with unknown dimensions, as in [[None, 2]]. *)
Definition partial_shape : Type := list (option nat).

Fixpoint compatible (s : list nat) (p : partial_shape) : bool :=
  match s, p with
  | [], [] => true
  | d :: s', None :: p' => compatible s' p'
  | d :: s', Some e :: p' => (d =? e) && compatible s' p'
  | _, _ => false
  end.

(** [tf.ensure_shape x p]: [x] itself when its shape is compatible with
    [p], an error otherwise. *)
Definition ensure_shape {A} (x : tensor A) (p : partial_shape)
  : option (tensor A) :=
  if compatible (shape x) p then Some x else None.

(** [x[:, j]] on a rank-2 tensor: entry [j] of every row, the second axis
    dropped.  Indexing past the second axis' extent, or a tensor of
    another rank, is an error. *)
Definition getitem_all_index {A} (x : tensor A) (j : nat)
  : option (tensor A) :=
  match shape x with
  | [n; m] =>
      if j <? m
      then Some (mk [n] (flat_map (fun r => firstn 1 (skipn j r)) (rows x)))
      else None
  | _ => None
  end.

End Tensor.

(* ================================================================== *)
(** * ecoroar/metric/auroc.py *)
(* ================================================================== *)

Module AUROC.
Import Tensor.

(** What [update_state] can raise: the shape check of the wrapper, an
    index error of the slice, or whatever the parent class raises. *)
Inductive raised (E : Type) : Type :=
| EnsureShapeError (got : list nat)
| SliceIndexError
| FromAUC (e : E).

Arguments EnsureShapeError {E} got.
Arguments SliceIndexError {E}.
Arguments FromAUC {E} e.

(** Computations over the metric's variables: the state is threaded and
    survives an exception. *)
Definition M (St E A : Type) : Type := St -> (E + A) * St.

Definition ret {St E A} (a : A) : M St E A := fun st => (inr a, st).

Definition raise {St E A} (e : E) : M St E A := fun st => (inl e, st).

Definition bind {St E A B} (c : M St E A) (k : A -> M St E B) : M St E B :=
  fun st =>
    match c st with
    | (inl e, st') => (inl e, st')
    | (inr a, st') => k a st'
    end.

(** Running the parent's method inside the wrapper: its exceptions
    propagate unchanged. *)
Definition super {St E A} (c : M St E A) : M St (raised E) A :=
  fun st =>
    match c st with
    | (inl e, st') => (inl (FromAUC e), st')
    | (inr a, st') => (inr a, st')
    end.

Definition of_option {St E A} (e : E) (o : option A) : M St E A :=
  match o with
  | Some a => ret a
  | None => raise e
  end.

Notation "x <- c ;; k" := (bind c (fun x => k))
  (at level 61, c at next level, right associativity).

Section Wrapper.
(** Element types of labels, predictions and weights; the variables of
    [tf.keras.metrics.AUC] and what its [update_state] and [result]
    do with them.  The parent class belongs to the framework: the
    wrapper is embedded over an arbitrary one. *)
Variables (L P W St E V : Type).
Variable AUC_update_state :
  tensor L -> tensor P -> option (tensor W) -> M St E unit.
Variable AUC_result : St -> V.

(** [AUROC.update_state], lines 15-27. *)
Definition update_state (y_true : tensor L) (y_pred : tensor P)
           (sample_weight : option (tensor W)) : M St (raised E) unit :=
  y_pred1 <- of_option (EnsureShapeError (shape y_pred))
                       (ensure_shape y_pred [None; Some 2]) ;;
  y_pred2 <- of_option SliceIndexError (getitem_all_index y_pred1 1) ;;
  super (AUC_update_state y_true y_pred2 sample_weight).

(** [result] is inherited unchanged. *)
Definition result : St -> V := AUC_result.

(** Follows the specification's words: the positive-class column of an
    [[N,2]] prediction tensor is the length-[N] vector whose [i]-th
    entry is entry [(i,1)] of the tensor, i.e. element [2*i+1] of the
    row-major buffer. *)
Definition positive_class_column (y_pred : tensor P) : tensor P :=
  let n := hd 0 (shape y_pred) in
  mk [n] (flat_map (fun i => match nth_error (values y_pred) (2 * i + 1) with
                             | Some p => [p]
                             | None => []
                             end) (seq 0 n)).

(** The wrapper reached the parent's accumulator. *)
Definition delegated (y_true : tensor L) (y_pred : tensor P)
           (sample_weight : option (tensor W)) (st : St) : Prop :=
  exists col,
    update_state y_true y_pred sample_weight st
    = super (AUC_update_state y_true col sample_weight) st.

End Wrapper.

(** A small concrete accumulator in the style of the parent class, used
    to run the wrapper: per threshold, the weighted counts of true
    positives, false positives, true negatives and false negatives.
    Predictions and thresholds are integers in thousandths. *)
Record confusion : Type :=
  { tp : Z; fp : Z; tn : Z; fn : Z }.

Definition count_one (thr : Z) (c : confusion) (y : bool) (p w : Z)
  : confusion :=
  match y, (thr <? p)%Z with
  | true, true => {| tp := tp c + w; fp := fp c; tn := tn c; fn := fn c |}
  | false, true => {| tp := tp c; fp := fp c + w; tn := tn c; fn := fn c |}
  | false, false => {| tp := tp c; fp := fp c; tn := tn c + w; fn := fn c |}
  | true, false => {| tp := tp c; fp := fp c; tn := tn c; fn := fn c + w |}
  end%Z.

Fixpoint count_all (thr : Z) (c : confusion) (ys : list bool) (ps ws : list Z)
  : confusion :=
  match ys, ps, ws with
  | y :: ys', p :: ps', w :: ws' => count_all thr (count_one thr c y p w) ys' ps' ws'
  | _, _, _ => c
  end.

Inductive counting_error : Type := LengthMismatch.

Definition counting_state : Type := list (Z * confusion).

Definition counting_update (y_true : tensor bool) (y_pred : tensor Z)
           (sample_weight : option (tensor Z)) : M counting_state counting_error unit :=
  fun st =>
    let ws := match sample_weight with
              | Some w => values w
              | None => repeat 1%Z (length (values y_pred))
              end in
    if (length (values y_true) =? length (values y_pred))
       && (length ws =? length (values y_pred))
    then (inr tt,
          map (fun tc => (fst tc, count_all (fst tc) (snd tc)
                                            (values y_true) (values y_pred) ws)) st)
    else (inl LengthMismatch, st).

Definition counting_result (st : counting_state) : list (Z * Z) :=
  map (fun tc => (tp (snd tc), fp (snd tc))) st.

(** Sample data for the examples. *)
Definition thresholds0 : counting_state :=
  [ (250%Z, {| tp := 0; fp := 0; tn := 0; fn := 0 |});
    (750%Z, {| tp := 0; fp := 0; tn := 0; fn := 0 |}) ].

Definition y_true3 : tensor bool := mk [3] [true; false; true].

Definition y_pred3 : tensor Z := mk [3; 2] [100; 900; 800; 200; 400; 600]%Z.

End AUROC.

(* ================================================================== *)
(** * ecoroar/model/simple_test_model.py

    The arithmetic of the model is kept over an open carrier [num] with
    its [zero], [one], addition and multiplication ([float32] in the
    source).  Sums are taken from zero, in the order of the axis; with the
    default weights every partial sum is a small whole number, which
    [float32] holds exactly, so the order does not change a value. *)
(* ================================================================== *)

Module SimpleTestModel.
Import Tensor.

Inductive error : Type :=
| KeyError (key : string)
| InvalidIndex (id : Z)
| IncompatibleShapes (s1 s2 : list nat)
| InvalidRank (s : list nat).

Definition res (A : Type) : Type := error + A.

Definition bind {A B} (c : res A) (k : A -> res B) : res B :=
  match c with
  | inl e => inl e
  | inr a => k a
  end.

Notation "x <- c ;; k" := (bind c (fun x => k))
  (at level 61, c at next level, right associativity).

(** Python's [d[key]] on a dictionary entry that may be absent. *)
Definition getitem {A} (key : string) (entry : option A) : res A :=
  match entry with
  | Some a => inr a
  | None => inl (KeyError key)
  end.

Section Carrier.
Variable num : Type.
Variables zero one : num.
Variables add mul : num -> num -> num.

(** Lines 9-20. *)
Definition _default_embedding : list (list num) :=
  [ [zero; one];    (* BOS *)
    [zero; one];    (* EOS *)
    [zero; zero];   (* PAD *)
    [one; zero];    (* TOKEN *)
    [zero; one] ].  (* MASK *)

Definition _defalt_kernel : list (list num) :=
  [ [one; zero; one];
    [zero; one; one] ].

(** [tf.convert_to_tensor] on a rectangular nested list. *)
Definition convert_to_tensor (l : list (list num)) : tensor num :=
  mk [length l; length (hd [] l)] (concat l).

(** [SimpleOutput] and [SimpleTestConfig]. *)
Record SimpleOutput : Type := { logits : tensor num }.

Record SimpleTestConfig : Type := { vocab_size : nat }.

(** The dictionary handed to [call]: a [TokenizedDict] has [input_ids]
    and [attention_mask], an [EmbeddingDict] has [inputs_embeds] and
    [attention_mask]; any key may be absent from a Python dict. *)
Record inputs (Mask : Type) : Type :=
  { input_ids : option (tensor Z);
    attention_mask : option (tensor Mask);
    inputs_embeds : option (tensor num) }.

(** The model after [__init__]: the variable of the embedding layer
    and the kernel of the bias-free dense layer.  With [auto_initialize]
    the constructor calls the model once on a fixed input, which creates
    these variables from the constant initializers and changes nothing
    else. *)
Record model : Type :=
  { config : SimpleTestConfig;
    _embedding : tensor num;
    _dense : tensor num }.

Definition init (embeddings_initializer kernel_initializer : list (list num))
  : model :=
  let embeddings_initializer := convert_to_tensor embeddings_initializer in
  let kernel_initializer := convert_to_tensor kernel_initializer in
  {| config := {| vocab_size := hd 0 (shape embeddings_initializer) |};
     _embedding := embeddings_initializer;
     _dense := kernel_initializer |}.

Definition default_model : model := init _default_embedding _defalt_kernel.

(** Row [id] of a rank-2 table; an id outside [0, input_dim) is an
    error of the lookup. *)
Definition table_row (table : tensor num) (id : Z) : res (list num) :=
  match shape table with
  | [v; e] =>
      if (0 <=? id)%Z && (id <? Z.of_nat v)%Z
      then inr (firstn e (skipn (Z.to_nat id * e) (values table)))
      else inl (InvalidIndex id)
  | s => inl (InvalidRank s)
  end.

Fixpoint gather (table : tensor num) (ids : list Z) : res (list num) :=
  match ids with
  | [] => inr []
  | id :: ids' =>
      r <- table_row table id ;;
      rs <- gather table ids' ;;
      inr (r ++ rs)
  end.

(** The embedding layer: every id replaced by its row, which appends
    the embedding width to the shape of the ids. *)
Definition embedding_call (table : tensor num) (ids : tensor Z)
  : res (tensor num) :=
  match shape table with
  | [v; e] =>
      vals <- gather table (values ids) ;;
      inr (mk (shape ids ++ [e]) vals)
  | s => inl (InvalidRank s)
  end.

Fixpoint zip_with (f : num -> num -> num) (a b : list num) : list num :=
  match a, b with
  | x :: a', y :: b' => f x y :: zip_with f a' b'
  | _, _ => []
  end.

(** [a * b] for tensors of one shape (the only use in [call]). *)
Definition multiply (a b : tensor num) : res (tensor num) :=
  if list_eq_dec Nat.eq_dec (shape a) (shape b)
  then inr (mk (shape a) (zip_with mul (values a) (values b)))
  else inl (IncompatibleShapes (shape a) (shape b)).

(** [tf.math.reduce_sum z axis=1]: within each block of the first axis
    the slices along the second axis are added up, starting from zero. *)
Definition reduce_sum_axis1 (z : tensor num) : res (tensor num) :=
  match shape z with
  | d0 :: d1 :: rest =>
      let r := numel rest in
      inr (mk (d0 :: rest)
              (flat_map (fun block =>
                           fold_left (zip_with add) (chunks r d1 block)
                                     (repeat zero r))
                        (chunks (d1 * r) d0 (values z))))
  | s => inl (InvalidRank s)
  end.

Definition scale (c : num) (v : list num) : list num := map (mul c) v.

(** A row vector times the kernel: the kernel's rows, each scaled by
    the matching entry of the vector, added up from zero. *)
Definition vec_mat (units : nat) (v : list num) (kernel_rows : list (list num))
  : list num :=
  fold_left (fun acc vr => zip_with add acc (scale (fst vr) (snd vr)))
            (combine v kernel_rows) (repeat zero units).

(** The dense layer without bias: the last axis of the input, which has
    rank 2 at least, is contracted with the kernel. *)
Definition dense_call (kernel : tensor num) (z : tensor num)
  : res (tensor num) :=
  match shape kernel, rev (shape z) with
  | [e; u], e' :: b :: leading =>
      if e' =? e
      then inr (mk (rev (b :: leading) ++ [u])
                   (flat_map (fun row => vec_mat u row (rows kernel))
                             (chunks e' (numel (b :: leading)) (values z))))
      else inl (IncompatibleShapes (shape z) (shape kernel))
  | _, _ => inl (InvalidRank (shape z))
  end.

Section Call.
Variable Mask : Type.

(** [SimpleTestModel.inputs_embeds], lines 72-77. *)
Definition call_inputs_embeds (self : model) (x : inputs Mask)
           (training : bool) : res (inputs Mask) :=
  ids <- getitem "input_ids" (input_ids x) ;;
  z <- embedding_call (_embedding self) ids ;;
  mask <- getitem "attention_mask" (attention_mask x) ;;
  inr {| input_ids := None;
         attention_mask := Some mask;
         inputs_embeds := Some z |}.

(** [SimpleTestModel.call], lines 60-70. *)
Definition call (self : model) (x : inputs Mask) (training : bool)
  : res SimpleOutput :=
  x <- match inputs_embeds x with
       | None => call_inputs_embeds self x training
       | Some _ => inr x
       end ;;
  z <- getitem "inputs_embeds" (inputs_embeds x) ;;
  z <- multiply z z ;;
  z <- reduce_sum_axis1 z ;;
  z <- dense_call (_dense self) z ;;
  inr {| logits := z |}.
End Call.

(** Follows the specification's words: [e_t] is row [t] of the fixed
    5x2 embedding matrix; the logits of one sequence are the sum over
    its positions of [e_t] squared element-wise, multiplied by the
    fixed 2x3 kernel, with no bias. *)
Definition e (t : Z) : list num := nth (Z.to_nat t) _default_embedding [].

Definition squared (v : list num) : list num := map (fun x => mul x x) v.

Definition sum_of_squares (ts : list Z) : list num :=
  fold_left (zip_with add) (map (fun t => squared (e t)) ts) [zero; zero].

Definition kernel_entry (k j : nat) : num :=
  nth j (nth k _defalt_kernel []) zero.

Definition times_kernel (s : list num) : list num :=
  map (fun j => fold_left add
                  (map (fun k => mul (nth k s zero) (kernel_entry k j)) (seq 0 2))
                  zero)
      (seq 0 3).

Definition spec_logits (ts : list Z) : list num :=
  times_kernel (sum_of_squares ts).

End Carrier.

(** A token id of the default vocabulary. *)
Definition valid_id (t : Z) : bool := (0 <=? t)%Z && (t <? 5)%Z.

(** A sample batch for the examples: two sequences of three tokens, and
    its attention mask. *)
Definition sample_ids : tensor Z := mk [2; 3] [3; 3; 0; 2; 4; 1]%Z.

Definition sample_mask : tensor bool := mk [2; 3] [true; true; true; true; true; false].

End SimpleTestModel.

(* ================================================================== *)
(** * Split specifications of the dataset builder

    The split strings of the dataset classes are read by the dataset
    library: a split name, optionally followed by a slice
    [[from:to]] whose bounds are absolute indices or percentages.  A
    percentage is turned into an index by rounding to the closest
    integer (ties to even, as Python's [round]). *)
(* ================================================================== *)

Module Split.

Definition is_digit (c : ascii) : bool :=
  (48 <=? nat_of_ascii c) && (nat_of_ascii c <=? 57).

Definition is_word (c : ascii) : bool :=
  let n := nat_of_ascii c in
  is_digit c || ((65 <=? n) && (n <=? 90)) || ((97 <=? n) && (n <=? 122))
  || (n =? 95).

Local Open Scope string_scope.

Fixpoint take_while (p : ascii -> bool) (s : string) : string * string :=
  match s with
  | String c s' =>
      if p c then let (a, b) := take_while p s' in (String c a, b)
      else (EmptyString, s)
  | EmptyString => (EmptyString, EmptyString)
  end.

Fixpoint digits_value (acc : Z) (s : string) : Z :=
  match s with
  | String c s' => digits_value (10 * acc + Z.of_nat (nat_of_ascii c - 48)) s'
  | EmptyString => acc
  end.

Inductive unit_ : Type := Percent | Abs.

(** A relative read instruction: the split and the optional bounds. *)
Record instruction : Type :=
  { splitname : string;
    from_ : option Z;
    to : option Z;
    unit : unit_ }.

(** An optional bound [-?\d+] with an optional [%]: the bound, whether a
    percent sign followed, and the rest of the text. *)
Definition parse_bound (s : string) : option Z * bool * string :=
  let (neg, s1) := match s with
                   | String "-"%char s' => (true, s')
                   | _ => (false, s)
                   end in
  let (ds, s2) := take_while is_digit s1 in
  match ds with
  | EmptyString => (None, false, s)
  | _ =>
      let v := digits_value 0 ds in
      let v := if neg then (- v)%Z else v in
      match s2 with
      | String "%"%char s3 => (Some v, true, s3)
      | _ => (Some v, false, s2)
      end
  end.

(** One sub-specification: [name] or [name[from:to]], with nothing
    before or after it.  [None] for a string the library rejects, and for
    the forms the adapters do not use and this embedding leaves out: a
    sum of splits, a shard, a bound with a fraction, a line feed at the
    end. *)
Definition from_spec (spec : string) : option instruction :=
  let (name, s1) := take_while (fun c => is_word c || Nat.eqb (nat_of_ascii c) 45) spec in
  match name with
  | EmptyString => None
  | _ =>
      match s1 with
      | String "["%char s2 =>
          let '(f, fpct, s3) := parse_bound s2 in
          match s3 with
          | String ":"%char s4 =>
              let '(t, tpct, s5) := parse_bound s4 in
              match s5 with
              | String "]"%char EmptyString =>
                  Some {| splitname := name; from_ := f; to := t;
                          unit := if fpct || tpct then Percent else Abs |}
              | _ => None
              end
          | _ => None
          end
      | EmptyString =>
          Some {| splitname := name; from_ := None; to := None; unit := Abs |}
      | _ => None
      end
  end.

(** [int(round(boundary * num_examples / 100.))].  The product is an
    exact integer; the library divides and rounds in double precision.
    Where the product is at most [2^53] the double quotient is the
    closest one to the exact quotient and rounds to the same integer as
    the exact quotient does, ties to even, which is what is computed
    here; for larger products the library's value can differ by one. *)
Definition pct_to_abs_closest (boundary num_examples : Z) : Z :=
  let a := (boundary * num_examples)%Z in
  let q := (a / 100)%Z in
  let r := (a mod 100)%Z in
  if (2 * r <? 100)%Z then q
  else if (100 <? 2 * r)%Z then (q + 1)%Z
       else if Z.even q then q else (q + 1)%Z.

(** The sizes of the raw splits of a built dataset. *)
Definition name2len : Type := list (string * nat).

Fixpoint lookup (name : string) (sizes : name2len) : option nat :=
  match sizes with
  | (k, n) :: sizes' => if String.eqb k name then Some n else lookup name sizes'
  | [] => None
  end.

(** The absolute instruction: a split and a half-open range of indices. *)
Definition to_absolute (i : instruction) (sizes : name2len)
  : option (string * nat * nat) :=
  match lookup (splitname i) sizes with
  | None => None
  | Some n =>
      let num_examples := Z.of_nat n in
      let bound (default : Z) (b : option Z) : Z :=
        match b, unit i with
        | None, _ => default
        | Some b, Percent => pct_to_abs_closest b num_examples
        | Some b, Abs => b
        end in
      let f := bound 0%Z (from_ i) in
      let t := bound num_examples (to i) in
      if (num_examples <? Z.abs f)%Z || (num_examples <? Z.abs t)%Z then None
      else
        let f := if (f <? 0)%Z then (num_examples + f)%Z else f in
        let t := if (t <? 0)%Z then (num_examples + t)%Z else t in
        Some (splitname i, Z.to_nat f, Z.to_nat t)
  end.

(** The examples a split string selects, each named by its raw split and
    its index there. *)
Definition examples (spec : string) (sizes : name2len)
  : option (list (string * nat)) :=
  match from_spec spec with
  | None => None
  | Some i =>
      match to_absolute i sizes with
      | None => None
      | Some (name, f, t) => Some (map (pair name) (seq f (t - f)))
      end
  end.

End Split.

(* ================================================================== *)
(** * ecoroar/dataset/cola.py and ecoroar/dataset/mrpc.py *)
(* ================================================================== *)

Module Dataset.

Local Open Scope string_scope.

(** The class attributes of a dataset adapter; the split strings are
    the ones handed to the dataset builder. *)
Record descriptor : Type :=
  { _name : string;
    _metrics : list string;
    _early_stopping_metric : string;
    _split_train : string;
    _split_valid : string;
    _split_test : string;
    _builder_name : string }.

Definition CoLADataset : descriptor :=
  {| _name := "CoLA";
     _metrics := ["accuracy"; "matthew"];
     _early_stopping_metric := "matthew";
     _split_train := "train[:80%]";
     _split_valid := "train[80%:]";
     _split_test := "validation";
     _builder_name := "glue/cola" |}.

Definition MRPCDataset : descriptor :=
  {| _name := "MRPC";
     _metrics := ["accuracy"; "macro_f1"];
     _early_stopping_metric := "macro_f1";
     _split_train := "train[:80%]";
     _split_valid := "train[80%:]";
     _split_test := "validation";
     _builder_name := "glue/mrpc" |}.

(** The adapters under [src/]. *)
Definition adapters : list descriptor := [CoLADataset; MRPCDataset].

(** All examples of one raw split. *)
Definition whole (name : string) (n : nat) : list (string * nat) :=
  map (pair name) (seq 0 n).

(** Index of the first validation example in a raw train split of [n]
    examples. *)
Definition boundary (n : nat) : nat :=
  Z.to_nat (Split.pct_to_abs_closest 80 (Z.of_nat n)).

(** Sizes of the raw splits of a small dataset, for the examples. *)
Definition small_sizes : Split.name2len :=
  [("train", 13); ("validation", 4); ("test", 5)].

End Dataset.

(* ================================================================== *)
(** * The JSON decoder behind [json.load]

    The decoder of Python's standard library, over the text of a file:
    one value is scanned at the first non-blank character, and anything
    but blanks after it is an error.  The limits of the interpreter
    belong to the decoder: the scanner raises [RecursionError] when
    arrays and objects are nested deeper than the interpreter allows,
    and [ValueError] on an integer literal of more digits than it
    converts; neither is a decode error.  The recursion of the scanner
    is bounded by a fuel; [load] gives it twice the length of the text,
    which always suffices ([JSONFacts.load_never_exhausted]). *)
(* ================================================================== *)

Module JSON.

Local Open Scope string_scope.

#[warnings="-register-all"]
Inductive json : Type :=
| JNull
| JBool (b : bool)
| JInt (z : Z)
| JFloat (lexeme : string)
| JString (s : string)
| JArray (items : list json)
| JObject (members : list (string * json)).

(** What the interpreter leaves the decoder: the number of nested arrays
    and objects the scanner can still enter before the recursion limit
    is reached, and the longest integer literal [int] converts
    ([sys.get_int_max_str_digits()], [0] for no limit). *)
Record interpreter : Type :=
  { recursion_depth : nat;
    int_max_str_digits : nat }.

(** The exceptions of the decoder that are no [JSONDecodeError]. *)
Inductive exception : Type :=
| RecursionError
| ValueError.

(** The outcome of a scanning routine: a value and the text left after
    it, a [JSONDecodeError] with its message, another exception, or the
    fuel running out. *)
Inductive outcome (A : Type) : Type :=
| Ok (a : A) (rest : string)
| Error (msg : string)
| Raise (e : exception)
| OutOfFuel.

Arguments Ok {A} a rest.
Arguments Error {A} msg.
Arguments Raise {A} e.
Arguments OutOfFuel {A}.

Definition isc (c : ascii) (code : nat) : bool := Nat.eqb (nat_of_ascii c) code.

(** The decoder's blanks: space, tab, line feed, carriage return. *)
Definition is_ws (c : ascii) : bool := isc c 32 || isc c 9 || isc c 10 || isc c 13.

Fixpoint skip_ws (s : string) : string :=
  match s with
  | String c s' => if is_ws c then skip_ws s' else s
  | EmptyString => s
  end.

Fixpoint strip_prefix (p s : string) : option string :=
  match p, s with
  | EmptyString, _ => Some s
  | String a p', String b s' => if Ascii.eqb a b then strip_prefix p' s' else None
  | _, EmptyString => None
  end.

(** ** Strings *)

Definition hex_digit (c : ascii) : option N :=
  let n := nat_of_ascii c in
  if (48 <=? n)%nat && (n <=? 57)%nat then Some (N.of_nat (n - 48))
  else if (65 <=? n)%nat && (n <=? 70)%nat then Some (N.of_nat (n - 55))
  else if (97 <=? n)%nat && (n <=? 102)%nat then Some (N.of_nat (n - 87))
  else None.

Definition hex4 (a b c d : ascii) : option N :=
  match hex_digit a, hex_digit b, hex_digit c, hex_digit d with
  | Some x, Some y, Some z, Some w => Some (((x * 16 + y) * 16 + z) * 16 + w)%N
  | _, _, _, _ => None
  end.

Definition is_high_surrogate (u : N) : bool := (55296 <=? u)%N && (u <=? 56319)%N.

Definition is_low_surrogate (u : N) : bool := (56320 <=? u)%N && (u <=? 57343)%N.

Definition join_surrogates (u u2 : N) : N :=
  (65536 + N.lor (N.shiftl (u - 55296) 10) (u2 - 56320))%N.

Definition byte (n : N) : string := String (ascii_of_N n) EmptyString.

(** [chr(u)], in the UTF-8 encoding the text of a file is kept in. *)
Definition chr (u : N) : string :=
  if (u <? 128)%N then byte u
  else if (u <? 2048)%N then
    byte (192 + N.shiftr u 6) ++ byte (128 + N.land u 63)
  else if (u <? 65536)%N then
    byte (224 + N.shiftr u 12) ++ byte (128 + N.land (N.shiftr u 6) 63)
    ++ byte (128 + N.land u 63)
  else
    byte (240 + N.shiftr u 18) ++ byte (128 + N.land (N.shiftr u 12) 63)
    ++ byte (128 + N.land (N.shiftr u 6) 63) ++ byte (128 + N.land u 63).

(** The one-character escapes. *)
Definition backslash (esc : ascii) : option string :=
  if isc esc 34 then Some (byte 34)
  else if isc esc 92 then Some (byte 92)
  else if isc esc 47 then Some (byte 47)
  else if isc esc 98 then Some (byte 8)
  else if isc esc 102 then Some (byte 12)
  else if isc esc 110 then Some (byte 10)
  else if isc esc 114 then Some (byte 13)
  else if isc esc 116 then Some (byte 9)
  else None.

Definition push (pre : string) (o : outcome string) : outcome string :=
  match o with
  | Ok str rest => Ok (pre ++ str) rest
  | other => other
  end.

Definition unterminated : string := "Unterminated string starting at".

Definition invalid_uXXXX : string := "Invalid \uXXXX escape".

(** [scanstring], in strict mode, from just after the opening quote: the
    decoded string and the text after the closing quote.  The scanner
    reads the four digits of a [\u] escape only when the text goes on
    after them, and takes a second escape for the low half of a pair only
    when the text goes on after that one. *)
Fixpoint scanstring (s : string) : outcome string :=
  match s with
  | EmptyString => Error unterminated
  | String c s1 =>
      if isc c 34 then Ok EmptyString s1
      else if isc c 92 then
        match s1 with
        | EmptyString => Error unterminated
        | String esc s2 =>
            if isc esc 117 then
              match s2 with
              | String h1 (String h2 (String h3 (String h4 (String _ _ as s3)))) =>
                  match hex4 h1 h2 h3 h4 with
                  | None => Error invalid_uXXXX
                  | Some uni =>
                      if is_high_surrogate uni then
                        match s3 with
                        | String b (String u (String k1 (String k2 (String k3
                            (String k4 (String _ _ as s4)))))) =>
                            if isc b 92 && isc u 117 then
                              match hex4 k1 k2 k3 k4 with
                              | None => Error invalid_uXXXX
                              | Some uni2 =>
                                  if is_low_surrogate uni2
                                  then push (chr (join_surrogates uni uni2)) (scanstring s4)
                                  else push (chr uni) (scanstring s3)
                              end
                            else push (chr uni) (scanstring s3)
                        | _ => push (chr uni) (scanstring s3)
                        end
                      else push (chr uni) (scanstring s3)
                  end
              | _ => Error invalid_uXXXX
              end
            else
              match backslash esc with
              | Some ch => push ch (scanstring s2)
              | None => Error "Invalid \escape"
              end
        end
      else if (nat_of_ascii c <? 32)%nat then Error "Invalid control character at"
      else push (String c EmptyString) (scanstring s1)
  end.

(** ** Numbers *)

Definition is_digit (c : ascii) : bool :=
  (48 <=? nat_of_ascii c)%nat && (nat_of_ascii c <=? 57)%nat.

Fixpoint take_digits (s : string) : string * string :=
  match s with
  | String c s' =>
      if is_digit c then let (a, b) := take_digits s' in (String c a, b)
      else (EmptyString, s)
  | EmptyString => (EmptyString, EmptyString)
  end.

Fixpoint digits_value (acc : Z) (s : string) : Z :=
  match s with
  | String c s' => digits_value (10 * acc + Z.of_nat (nat_of_ascii c - 48)) s'
  | EmptyString => acc
  end.

(** The integer part, an optional minus sign followed by [0] or by a
    digit other than [0] and any digits: its sign, its digits, the rest. *)
Definition match_integer (s : string) : option (bool * string * string) :=
  let (neg, s1) := match s with
                   | String c s' => if isc c 45 then (true, s') else (false, s)
                   | EmptyString => (false, s)
                   end in
  match s1 with
  | String d s2 =>
      if isc d 48 then Some (neg, String d EmptyString, s2)
      else if is_digit d then
        let (ds, s3) := take_digits s2 in Some (neg, String d ds, s3)
      else None
  | EmptyString => None
  end.

(** The fraction [(\.\d+)?]. *)
Definition match_frac (s : string) : string * string :=
  match s with
  | String c s1 =>
      if isc c 46 then
        match take_digits s1 with
        | (EmptyString, _) => (EmptyString, s)
        | (ds, s2) => (String c ds, s2)
        end
      else (EmptyString, s)
  | EmptyString => (EmptyString, s)
  end.

(** The exponent [([eE][-+]?\d+)?]. *)
Definition match_exp (s : string) : string * string :=
  match s with
  | String c s1 =>
      if isc c 101 || isc c 69 then
        let (sign, s2) := match s1 with
                          | String g s' =>
                              if isc g 45 || isc g 43 then (String g EmptyString, s')
                              else (EmptyString, s1)
                          | EmptyString => (EmptyString, s1)
                          end in
        match take_digits s2 with
        | (EmptyString, _) => (EmptyString, s)
        | (ds, s3) => (String c (sign ++ ds), s3)
        end
      else (EmptyString, s)
  | EmptyString => (EmptyString, s)
  end.

(** [int(numstr)]: a literal of more digits than the interpreter
    converts raises [ValueError]. *)
Definition too_long (max_str_digits : nat) (digits : string) : bool :=
  (0 <? max_str_digits)%nat && (max_str_digits <? String.length digits)%nat.

(** [match_number]: an [int] when there is neither fraction nor exponent,
    a [float], kept as its lexeme, otherwise; [None] when the text does
    not begin with a number. *)
Definition match_number (max_str_digits : nat) (s : string) : option (outcome json) :=
  match match_integer s with
  | None => None
  | Some (neg, integer, s1) =>
      let (frac, s2) := match_frac s1 in
      let (exp, s3) := match_exp s2 in
      let sign := if neg then "-" else "" in
      match frac, exp with
      | EmptyString, EmptyString =>
          if too_long max_str_digits integer then Some (Raise ValueError)
          else
            let v := digits_value 0 integer in
            Some (Ok (JInt (if neg then (- v)%Z else v)) s3)
      | _, _ => Some (Ok (JFloat (sign ++ integer ++ frac ++ exp)) s3)
      end
  end.

(** ** Objects, arrays and values *)

(** [d[key] = value] on an insertion-ordered dictionary. *)
Fixpoint dict_set {A} (key : string) (value : A) (d : list (string * A))
  : list (string * A) :=
  match d with
  | [] => [(key, value)]
  | (k, v) :: d' =>
      if String.eqb k key then (k, value) :: d' else (k, v) :: dict_set key value d'
  end.

Definition dict {A} (pairs : list (string * A)) : list (string * A) :=
  fold_left (fun d kv => dict_set (fst kv) (snd kv) d) pairs [].

Definition expecting_value : string := "Expecting value".

Definition expecting_name : string :=
  "Expecting property name enclosed in double quotes".

Definition constant (lit : string) (v : json) (s : string) (otherwise : outcome json)
  : outcome json :=
  match strip_prefix lit s with
  | Some rest => Ok v rest
  | None => otherwise
  end.

(** [scan_once] at the head of [s]; [object_members] from just after the
    opening quote of a member's name, [pairs] being the members read so
    far; [array_items] from the head of an item.  The scanner enters an
    array or an object by a recursive call, which raises
    [RecursionError] when [depth], the number of calls still allowed, is
    used up. *)
Fixpoint scan_once (max_str_digits fuel depth : nat) (s : string) {struct fuel}
  : outcome json :=
  match fuel with
  | O => OutOfFuel
  | S fuel' =>
      match s with
      | EmptyString => Error expecting_value
      | String c s1 =>
          if isc c 34 then
            match scanstring s1 with
            | Ok str rest => Ok (JString str) rest
            | Error msg => Error msg
            | Raise e => Raise e
            | OutOfFuel => OutOfFuel
            end
          else if isc c 123 then
            match depth with
            | O => Raise RecursionError
            | S depth' =>
                match skip_ws s1 with
                | String c' s2 =>
                    if isc c' 125 then Ok (JObject []) s2
                    else if isc c' 34 then
                      match object_members max_str_digits fuel' depth' [] s2 with
                      | Ok pairs rest => Ok (JObject (dict pairs)) rest
                      | Error msg => Error msg
                      | Raise e => Raise e
                      | OutOfFuel => OutOfFuel
                      end
                    else Error expecting_name
                | EmptyString => Error expecting_name
                end
            end
          else if isc c 91 then
            match depth with
            | O => Raise RecursionError
            | S depth' =>
                match skip_ws s1 with
                | String c' s2 =>
                    if isc c' 93 then Ok (JArray []) s2
                    else
                      match array_items max_str_digits fuel' depth' [] (String c' s2) with
                      | Ok items rest => Ok (JArray items) rest
                      | Error msg => Error msg
                      | Raise e => Raise e
                      | OutOfFuel => OutOfFuel
                      end
                | EmptyString => Error expecting_value
                end
            end
          else
            constant "null" JNull s
              (constant "true" (JBool true) s
                 (constant "false" (JBool false) s
                    match match_number max_str_digits s with
                    | Some number => number
                    | None =>
                        constant "NaN" (JFloat "NaN") s
                          (constant "Infinity" (JFloat "Infinity") s
                             (constant "-Infinity" (JFloat "-Infinity") s
                                (Error expecting_value)))
                    end))
      end
  end

with object_members (max_str_digits fuel depth : nat) (pairs : list (string * json))
       (s : string) {struct fuel} : outcome (list (string * json)) :=
  match fuel with
  | O => OutOfFuel
  | S fuel' =>
      match scanstring s with
      | Ok key s1 =>
          match skip_ws s1 with
          | String c s2 =>
              if isc c 58 then
                match scan_once max_str_digits fuel' depth (skip_ws s2) with
                | Ok value s3 =>
                    let pairs := (pairs ++ [(key, value)])%list in
                    match skip_ws s3 with
                    | String c' s4 =>
                        if isc c' 125 then Ok pairs s4
                        else if isc c' 44 then
                          match skip_ws s4 with
                          | String c'' s5 =>
                              if isc c'' 34
                              then object_members max_str_digits fuel' depth pairs s5
                              else Error expecting_name
                          | EmptyString => Error expecting_name
                          end
                        else Error "Expecting ',' delimiter"
                    | EmptyString => Error "Expecting ',' delimiter"
                    end
                | Error msg => Error msg
                | Raise e => Raise e
                | OutOfFuel => OutOfFuel
                end
              else Error "Expecting ':' delimiter"
          | EmptyString => Error "Expecting ':' delimiter"
          end
      | Error msg => Error msg
      | Raise e => Raise e
      | OutOfFuel => OutOfFuel
      end
  end

with array_items (max_str_digits fuel depth : nat) (items : list json) (s : string)
       {struct fuel} : outcome (list json) :=
  match fuel with
  | O => OutOfFuel
  | S fuel' =>
      match scan_once max_str_digits fuel' depth s with
      | Ok value s1 =>
          let items := (items ++ [value])%list in
          match skip_ws s1 with
          | String c s2 =>
              if isc c 93 then Ok items s2
              else if isc c 44
                   then array_items max_str_digits fuel' depth items (skip_ws s2)
                   else Error "Expecting ',' delimiter"
          | EmptyString => Error "Expecting ',' delimiter"
          end
      | Error msg => Error msg
      | Raise e => Raise e
      | OutOfFuel => OutOfFuel
      end
  end.

(** What [json.load] does on a file whose text [fp.read()] returns: a
    value, a [JSONDecodeError], or another exception of the decoder.  A
    file whose bytes do not decode as text has no text and is outside
    this embedding. *)
Inductive loaded : Type :=
| Value (v : json)
| JSONDecodeError (msg : string)
| Uncaught (e : exception)
| Exhausted.

Definition has_bom (s : string) : bool :=
  match strip_prefix (byte 239 ++ byte 187 ++ byte 191) s with
  | Some _ => true
  | None => false
  end.

(** [JSONDecoder.decode]: one value, blanks allowed before and after. *)
Definition decode (py : interpreter) (fuel : nat) (s : string) : loaded :=
  match scan_once (int_max_str_digits py) fuel (recursion_depth py) (skip_ws s) with
  | Ok obj rest =>
      match skip_ws rest with
      | EmptyString => Value obj
      | _ => JSONDecodeError "Extra data"
      end
  | Error msg => JSONDecodeError msg
  | Raise e => Uncaught e
  | OutOfFuel => Exhausted
  end.

(** [json.load(fp)] on a file whose text is [s]. *)
Definition load (py : interpreter) (s : string) : loaded :=
  if has_bom s
  then JSONDecodeError "Unexpected UTF-8 BOM (decode using utf-8-sig)"
  else decode py (S (2 * String.length s)) s.

(** An interpreter with the defaults of CPython 3.11: a recursion limit
    of 1000, of which the calls from the top level of a script down to
    the scanner leave 994, and 4300 digits. *)
Definition cpython : interpreter :=
  {| recursion_depth := 994; int_max_str_digits := 4300 |}.

(** A scanning routine did not run out of fuel and, when it returned a
    value, left strictly less text than it was given. *)
Definition shorter {A} (o : outcome A) (s : string) : Prop :=
  match o with
  | Ok _ rest => String.length rest < String.length s
  | Error _ => True
  | Raise _ => True
  | OutOfFuel => False
  end.

(** [s * n]. *)
Fixpoint repeat_string (s : string) (n : nat) : string :=
  match n with
  | O => EmptyString
  | S n' => s ++ repeat_string s n'
  end.

(** Writes a JSON text with apostrophes where the double quotes go. *)
Fixpoint q (s : string) : string :=
  match s with
  | String c s' => String (if isc c 39 then ascii_of_nat 34 else c) (q s')
  | EmptyString => EmptyString
  end.

End JSON.

(* ================================================================== *)
(** * export scripts: from the loaded records to the dataframe

    The three lines after the loop call the dataframe library:
    [json_normalize], [explode], [pop], [add_prefix] and [concat], here
    as they behave from pandas 1.3 on.  A dataframe is kept as the list
    of its rows, a row as the dictionary of its cells that are not NaN,
    in column order. *)
(* ================================================================== *)

Module Frame.
Import JSON.

Local Open Scope string_scope.

Definition row : Type := list (string * json).

Definition frame : Type := list row.

(** The cell of a row in a column, [None] for NaN. *)
Fixpoint get (r : row) (column : string) : option json :=
  match r with
  | [] => None
  | (k, v) :: r' => if String.eqb k column then Some v else get r' column
  end.

Definition remove (column : string) (r : row) : row :=
  filter (fun kv => negb (String.eqb (fst kv) column)) r.

Definition has_column (df : frame) (column : string) : bool :=
  existsb (fun r => match get r column with Some _ => true | None => false end) df.

Definition is_dict (v : json) : bool :=
  match v with
  | JObject _ => true
  | _ => false
  end.

(** [_normalise_json]: the leaves of a nested dictionary under their
    dotted paths. *)
Fixpoint _normalise_json (data : json) (key_string : string)
         (normalized_dict : row) (separator : string) : row :=
  match data with
  | JObject members =>
      (fix items (ms : list (string * json)) (d : row) : row :=
         match ms with
         | [] => d
         | (key, value) :: ms' =>
             let new_key := if String.eqb key_string EmptyString then key
                            else key_string ++ separator ++ key in
             items ms' (_normalise_json value new_key d separator)
         end) members normalized_dict
  | _ => dict_set key_string data normalized_dict
  end.

(** [_normalise_json_ordered]: the top-level cells first, then the
    flattened nested dictionaries. *)
Definition _normalise_json_ordered (data : list (string * json)) (separator : string)
  : row :=
  let top_dict_ := filter (fun kv => negb (is_dict (snd kv))) data in
  let nested_dict_ :=
    _normalise_json (JObject (filter (fun kv => is_dict (snd kv)) data))
                    EmptyString [] separator in
  fold_left (fun d kv => dict_set (fst kv) (snd kv) d) nested_dict_ top_dict_.

(** [_simple_json_normalize] on one element: a dictionary is flattened,
    NaN and scalars give an empty row.  An element that is itself a list
    is outside this embedding ([None]). *)
Definition _simple_json_normalize (ds : option json) (sep : string) : option row :=
  match ds with
  | Some (JObject members) => Some (_normalise_json_ordered members sep)
  | Some (JArray _) => None
  | _ => Some []
  end.

Fixpoint traverse {A B} (f : A -> option B) (l : list A) : option (list B) :=
  match l with
  | [] => Some []
  | a :: l' =>
      match f a, traverse f l' with
      | Some b, Some bs => Some (b :: bs)
      | _, _ => None
      end
  end.

(** [pd.json_normalize(data)] with the default separator. *)
Definition json_normalize (data : list (option json)) : option frame :=
  traverse (fun ds => _simple_json_normalize ds ".") data.

(** [explode] on one row: a non-empty list gives one row per element, an
    empty list one row with NaN, anything else the row itself. *)
Definition explode_row (column : string) (r : row) : list row :=
  match get r column with
  | Some (JArray []) => [remove column r]
  | Some (JArray items) => map (fun item => dict_set column item r) items
  | _ => [r]
  end.

(** [df.explode(column, ignore_index=True)]; a missing column is a
    [KeyError] ([None]). *)
Definition explode (column : string) (df : frame) : option frame :=
  if has_column df column then Some (flat_map (explode_row column) df)
  else None.

(** [df.pop(column)]: the column, and the frame without it. *)
Definition pop (column : string) (df : frame) : list (option json) * frame :=
  (map (fun r => get r column) df, map (remove column) df).

Definition add_prefix (prefix : string) (df : frame) : frame :=
  map (map (fun kv => (prefix ++ fst kv, snd kv))) df.

(** [pd.concat([a, b], axis=1)] of two frames over one index. *)
Fixpoint concat_axis1 (a b : frame) : frame :=
  match a, b with
  | r :: a', r' :: b' => (r ++ r')%list :: concat_axis1 a' b'
  | _, _ => []
  end.

(** Lines 78-80 of faithfulness_plot.py (92-94 for the masking files,
    69-71 of unmasked_performance_plot.py). *)
Definition normalize_and_explode (results : list json) : option frame :=
  match json_normalize (map Some results) with
  | None => None
  | Some df =>
      match explode "results" df with
      | None => None
      | Some df =>
          let (column, df) := pop "results" df in
          match json_normalize column with
          | None => None
          | Some results => Some (concat_axis1 df (add_prefix "results." results))
          end
      end
  end.

(** A result record as the specification describes it: the run
    configuration under [args] and the readings, one per masking ratio,
    under [results]. *)
Record result_record : Type :=
  { args : list (string * json);
    readings : list (list (string * json)) }.

Definition to_json (r : result_record) : json :=
  JObject [("args", JObject (args r));
           ("results", JArray (map JObject (readings r)))].

Definition prefixed (prefix : string) (fields : list (string * json)) : row :=
  map (fun kv => (prefix ++ fst kv, snd kv)) fields.

(** Follows the specification's words: one row per masking-ratio element
    present in the record's results list, each with the record's [args.*]
    fields and the element's fields prefixed with [results.]. *)
Definition spec_rows (r : result_record) : list row :=
  map (fun reading => (prefixed "args." (args r) ++ prefixed "results." reading)%list)
      (readings r).

Definition one_row_per_reading (records : list result_record) : Prop :=
  normalize_and_explode (map to_json records) = Some (flat_map spec_rows records).

(** The fields of a record are cells, not dictionaries, under distinct
    names. *)
Definition flat_fields (fields : list (string * json)) : Prop :=
  NoDup (map fst fields) /\ Forall (fun kv => is_dict (snd kv) = false) fields.

Definition well_formed (r : result_record) : Prop :=
  flat_fields (args r) /\ Forall flat_fields (readings r).

(** What the code makes of one record. *)
Definition record_rows (r : result_record) : list row :=
  match readings r with
  | [] => [prefixed "args." (args r)]
  | _ => spec_rows r
  end.

(** The cell a popped [results] entry normalises to. *)
Definition reading_row (cell : option json) : row :=
  match cell with
  | Some (JObject fields) => fields
  | _ => []
  end.

(** The row [json_normalize] makes of a well-formed record. *)
Definition record_row (r : result_record) : row :=
  ("results", JArray (map JObject (readings r))) :: prefixed "args." (args r).

(** Sample records for the examples. *)
Definition two_readings : result_record :=
  {| args := [("model", JString "roberta-sb"); ("seed", JInt 0)];
     readings := [ [("masking_ratio", JInt 0); ("loss", JFloat "0.25")];
                   [("masking_ratio", JInt 10); ("loss", JFloat "0.5")] ] |}.

Definition no_reading : result_record :=
  {| args := [("model", JString "roberta-sl"); ("seed", JInt 1)];
     readings := [] |}.

End Frame.

(* ================================================================== *)
(** * export/faithfulness_plot.py and export/unmasked_performance_plot.py:
      reading the result files *)
(* ================================================================== *)

Module Reader.
Import JSON.

Local Open Scope string_scope.

(** A result file as the loop meets it: its path and its text. *)
Definition file : Type := (string * string)%type.

(** What the loop changes: the list [results] and the standard output. *)
Record state : Type :=
  { results : list json;
    stdout : list string }.

Definition initial : state := {| results := []; stdout := [] |}.

(** The line [print] writes for a file that does not decode. *)
Definition format_error (f : file) : string := fst f ++ " has a format error".

Section Interpreter.
Variable py : interpreter.

(** The body of the loop: [results.append(json.load(fp))], the decode
    error caught and reported.  [None] stands for an exception the
    [except] clause does not catch, which ends the script. *)
Definition read_file (st : state) (f : file) : option state :=
  match load py (snd f) with
  | Value v =>
      Some {| results := results st ++ [v]; stdout := stdout st |}
  | JSONDecodeError _ =>
      Some {| results := results st;
              stdout := stdout st ++ [format_error f] |}
  | Uncaught _ => None
  | Exhausted => None
  end.

(** [for file in files: ...], lines 71-76 (62-67 in the other script). *)
Fixpoint read_files (files : list file) (st : state) : option state :=
  match files with
  | [] => Some st
  | f :: files' =>
      match read_file st f with
      | Some st' => read_files files' st'
      | None => None
      end
  end.

(** The loop and the three lines after it: the dataframe of the result
    files, [None] when an exception ends the script before it is built. *)
Definition dataframe (files : list file) : option Frame.frame :=
  match read_files files initial with
  | Some st => Frame.normalize_and_explode (results st)
  | None => None
  end.

(** Follows the specification's words: a result file read as
    newline-delimited JSON holds one record per line, and every record is
    loaded. *)
Fixpoint lines_of (cur : string) (s : string) : list string :=
  match s with
  | String c s' =>
      if isc c 10 then cur :: lines_of EmptyString s'
      else lines_of (cur ++ String c EmptyString) s'
  | EmptyString => [cur]
  end.

Definition ndjson_records (text : string) : list json :=
  flat_map (fun line => match load py line with
                        | Value v => [v]
                        | _ => []
                        end) (lines_of EmptyString text).

Definition loads_every_line (files : list file) : Prop :=
  option_map results (read_files files initial)
  = Some (flat_map (fun f => ndjson_records (snd f)) files).

(** The record a file contributes when read as one JSON document. *)
Definition document (f : file) : list json :=
  match load py (snd f) with
  | Value v => [v]
  | _ => []
  end.

(** The line a file adds to the standard output. *)
Definition warning (f : file) : list string :=
  match load py (snd f) with
  | JSONDecodeError _ => [format_error f]
  | _ => []
  end.

(** The file ends the script: [json.load] raises an exception that is no
    [JSONDecodeError]. *)
Definition ends_the_script (f : file) : bool :=
  match load py (snd f) with
  | Value _ | JSONDecodeError _ => false
  | _ => true
  end.

(** Follows the specification's words: when the contents of the file
    fail to parse as JSON, the script prints a warning naming the file,
    skips it and goes on with the files after it. *)
Definition skipped_with_a_warning (f : file) : Prop :=
  (forall v, load py (snd f) <> Value v) ->
  forall (after : list file) (st : state),
    read_files (f :: after) st
    = read_files after {| results := results st;
                          stdout := stdout st ++ [format_error f] |}.

End Interpreter.

(** Sample files for the examples. *)
Definition two_records : file :=
  ("results/masking_0.json",
   q "{'args': {'model': 'roberta-sb', 'seed': 0}, 'results': [{'masking_ratio': 0}]}
{'args': {'model': 'roberta-sb', 'seed': 1}, 'results': [{'masking_ratio': 0}]}
").

Definition one_record : file :=
  ("results/masking_1.json",
   q "{'args': {'model': 'roberta-sl', 'seed': 2},
 'results': [{'masking_ratio': 0, 'loss': 0.25}, {'masking_ratio': 10, 'loss': 0.5}]}
").

Definition truncated : file :=
  ("results/masking_2.json", q "{'args': {'model': 'roberta-sb', 'se").

(** A text that is no JSON document, nested deeper than the sample
    interpreter allows: 1200 opening brackets. *)
Definition deeply_nested : file :=
  ("results/masking_3.json", repeat_string "[" 1200).

(** A JSON document with an integer of 5000 digits. *)
Definition long_integer : file :=
  ("results/masking_4.json", repeat_string "7" 5000).

(** The record of the sample file [one_record]. *)
Definition sample_record : Frame.result_record :=
  {| Frame.args := [("model", JString "roberta-sl"); ("seed", JInt 2)];
     Frame.readings := [ [("masking_ratio", JInt 0); ("loss", JFloat "0.25")];
                         [("masking_ratio", JInt 10); ("loss", JFloat "0.5")] ] |}.

End Reader.

(* ================================================================== *)
(** * The command-line parser of the export scripts

    [argparse.ArgumentParser] with the arguments the scripts add and the
    help option every parser has, run through [parse_known_args]: long
    options may be abbreviated and may carry their value after [=], a
    value outside an argument's choices is an error, and what the parser
    does not know is returned apart. *)
(* ================================================================== *)

Module Argparse.

Local Open Scope string_scope.

Inductive kind : Type := Store | Help.

(** An action of the parser. *)
Record argument : Type :=
  { option_strings : list string;
    dest : string;
    action : kind;
    choices : option (list string);
    default : option string }.

Definition parser : Type := list argument.

Definition namespace : Type := list (string * string).

(** The result of parsing: the namespace and the strings left over, or
    the exit of the process with its status (2 for a usage error, 0
    after printing the help); [Outside] for a command line this embedding
    does not cover. *)
Inductive parsed : Type :=
| Parsed (args : namespace) (unknown : list string)
| Exit (status : nat) (message : string)
| Outside.

Definition isc (c : ascii) (code : nat) : bool := Nat.eqb (nat_of_ascii c) code.

Fixpoint startswith (s p : string) : bool :=
  match p, s with
  | EmptyString, _ => true
  | String a p', String b s' => Ascii.eqb a b && startswith s' p'
  | _, EmptyString => false
  end.

(** [s.split('=', 1)] when [s] holds an [=]. *)
Fixpoint split_eq (s : string) : option (string * string) :=
  match s with
  | EmptyString => None
  | String c s' =>
      if isc c 61 then Some (EmptyString, s')
      else match split_eq s' with
           | Some (a, b) => Some (String c a, b)
           | None => None
           end
  end.

Fixpoint contains (code : nat) (s : string) : bool :=
  match s with
  | EmptyString => false
  | String c s' => isc c code || contains code s'
  end.

Fixpoint all_digits (s : string) : bool :=
  match s with
  | EmptyString => true
  | String c s' =>
      (48 <=? nat_of_ascii c)%nat && (nat_of_ascii c <=? 57)%nat && all_digits s'
  end.

Fixpoint drop_digits (s : string) : string :=
  match s with
  | String c s' =>
      if (48 <=? nat_of_ascii c)%nat && (nat_of_ascii c <=? 57)%nat
      then drop_digits s' else s
  | EmptyString => s
  end.

(** The parser's pattern for a negative number: a minus sign and digits,
    or a minus sign, optional digits, a point and digits. *)
Definition negative_number (s : string) : bool :=
  match s with
  | String c s' =>
      isc c 45
      && ((negb (String.eqb s' EmptyString) && all_digits s')
          || match drop_digits s' with
             | String p f => isc p 46 && negb (String.eqb f EmptyString) && all_digits f
             | EmptyString => false
             end)
  | EmptyString => false
  end.

(** The destination of a long option: the name without its dashes, the
    inner dashes turned into underscores. *)
Fixpoint underscores (s : string) : string :=
  match s with
  | String c s' => String (if isc c 45 then "_"%char else c) (underscores s')
  | EmptyString => EmptyString
  end.

Fixpoint lstrip_dashes (s : string) : string :=
  match s with
  | String c s' => if isc c 45 then lstrip_dashes s' else s
  | EmptyString => s
  end.

(** [parser.add_argument(name, action='store', default=..., type=...,
    choices=...)]; the types the scripts use, [str] and [pathlib.Path],
    convert every string. *)
Definition add_argument (name : string) (default : string)
           (choices : option (list string)) : argument :=
  {| option_strings := [name];
     dest := underscores (lstrip_dashes name);
     action := Store;
     choices := choices;
     default := Some default |}.

Definition help : argument :=
  {| option_strings := ["-h"; "--help"];
     dest := "help";
     action := Help;
     choices := None;
     default := None |}.

(** The option strings of a parser with their actions, in the order of
    registration. *)
Definition option_string_actions (p : parser) : list (string * argument) :=
  flat_map (fun a => map (fun o => (o, a)) (option_strings a)) p.

Fixpoint find_option (table : list (string * argument)) (s : string)
  : option argument :=
  match table with
  | [] => None
  | (o, a) :: table' => if String.eqb o s then Some a else find_option table' s
  end.

(** How an argument string is read: a positional, the [--] separator, or
    an option string with the action it names ([None] when the parser has
    no such option) and the value attached to it, if any. *)
Inductive reading : Type :=
| A
| Dash
| O (a : option argument) (option_string : string) (explicit_arg : option string).

(** [_get_option_tuples]: the options an abbreviated string may stand for. *)
Definition get_option_tuples (p : parser) (arg_string : string)
  : list (argument * string * option string) :=
  match arg_string with
  | String c0 (String c1 tail) =>
      if isc c1 45 then
        let (option_prefix, explicit_arg) :=
          match split_eq arg_string with
          | Some (a, b) => (a, Some b)
          | None => (arg_string, None)
          end in
        flat_map (fun oa => if startswith (fst oa) option_prefix
                            then [(snd oa, fst oa, explicit_arg)] else [])
                 (option_string_actions p)
      else
        let short_option_prefix := String c0 (String c1 EmptyString) in
        flat_map (fun oa => if String.eqb (fst oa) short_option_prefix
                            then [(snd oa, fst oa, Some tail)]
                            else if startswith (fst oa) arg_string
                                 then [(snd oa, fst oa, None)] else [])
                 (option_string_actions p)
  | _ => []
  end.

(** [_parse_optional]; [None] is the error of an ambiguous abbreviation. *)
Definition parse_optional (p : parser) (arg_string : string) : option reading :=
  match arg_string with
  | EmptyString => Some A
  | String c0 rest =>
      if negb (isc c0 45) then Some A
      else
        match find_option (option_string_actions p) arg_string with
        | Some a => Some (O (Some a) arg_string None)
        | None =>
            match rest with
            | EmptyString => Some A
            | _ =>
                let by_eq :=
                  match split_eq arg_string with
                  | Some (option_string, explicit_arg) =>
                      match find_option (option_string_actions p) option_string with
                      | Some a => Some (O (Some a) option_string (Some explicit_arg))
                      | None => None
                      end
                  | None => None
                  end in
                match by_eq with
                | Some r => Some r
                | None =>
                    match get_option_tuples p arg_string with
                    | _ :: _ :: _ => None
                    | [(a, option_string, explicit_arg)] =>
                        Some (O (Some a) option_string explicit_arg)
                    | [] =>
                        if negative_number arg_string then Some A
                        else if contains 32 arg_string then Some A
                        else Some (O None arg_string None)
                    end
                end
            end
        end
  end.

(** The first pass over the command line: everything after [--] is a
    positional. *)
Fixpoint classify (p : parser) (arg_strings : list string)
  : option (list (string * reading)) :=
  match arg_strings with
  | [] => Some []
  | s :: rest =>
      if String.eqb s "--" then Some ((s, Dash) :: map (fun s' => (s', A)) rest)
      else
        match parse_optional p s, classify p rest with
        | Some r, Some rs => Some ((s, r) :: rs)
        | _, _ => None
        end
  end.

Fixpoint mem (v : string) (l : list string) : bool :=
  match l with
  | [] => false
  | x :: l' => String.eqb x v || mem v l'
  end.

Fixpoint all_h (s : string) : bool :=
  match s with
  | EmptyString => true
  | String c s' => isc c 104 && all_h s'
  end.

(** The second pass: options are consumed from left to right, a [store]
    option with the one argument string it needs, which is the string
    after [=] or else the next string, a positional and not [--]; its
    value is checked against the choices before it is stored.  A lone
    [--] after [=] is not covered: what the library makes of it depends
    on its version (until Python 3.12 an empty list is stored and the
    choices are not looked at). *)
Fixpoint consume (items : list (string * reading)) (ns : namespace)
         (extras : list string) : parsed :=
  match items with
  | [] => Parsed ns extras
  | (s, A) :: rest => consume rest ns (extras ++ [s])%list
  | (s, Dash) :: rest => consume rest ns (extras ++ [s])%list
  | (s, O None _ _) :: rest => consume rest ns (extras ++ [s])%list
  | (s, O (Some a) option_string explicit_arg) :: rest =>
      let store (value : string) (continue : namespace -> parsed) : parsed :=
        match choices a with
        | Some cs =>
            if mem value cs then continue (JSON.dict_set (dest a) value ns)
            else Exit 2 ("argument " ++ option_string ++ ": invalid choice")
        | None => continue (JSON.dict_set (dest a) value ns)
        end in
      match action a with
      | Help =>
          match explicit_arg with
          | None => Exit 0 "help"
          | Some e =>
              if String.eqb option_string "-h" && all_h e then Exit 0 "help"
              else Exit 2 ("argument " ++ option_string ++ ": ignored explicit argument")
          end
      | Store =>
          match explicit_arg with
          | Some e =>
              if String.eqb e "--" then Outside
              else store e (fun ns' => consume rest ns' extras)
          | None =>
              match rest with
              | (v, A) :: rest' =>
                  store v (fun ns' => consume rest' ns' extras)
              | _ => Exit 2 ("argument " ++ option_string ++ ": expected one argument")
              end
          end
      end
  end.

(** A parse with one more string set aside in front of the unknown
    ones. *)
Definition set_aside (arg_string : string) (r : parsed) : parsed :=
  match r with
  | Parsed args unknown => Parsed args (arg_string :: unknown)
  | other => other
  end.

(** The namespace before any argument is read: the defaults. *)
Definition defaults (p : parser) : namespace :=
  fold_left (fun ns a => match default a with
                         | Some d => JSON.dict_set (dest a) d ns
                         | None => ns
                         end) p [].

Definition parse_known_args (p : parser) (arg_strings : list string) : parsed :=
  match classify p arg_strings with
  | None => Exit 2 "ambiguous option"
  | Some items => consume items (defaults p) []
  end.

(** [args.name]. *)
Fixpoint getattr (ns : namespace) (name : string) : option string :=
  match ns with
  | [] => None
  | (k, v) :: ns' => if String.eqb k name then Some v else getattr ns' name
  end.

(** ** The two parsers, lines 22-41 of faithfulness_plot.py and 24-37 of
       unmasked_performance_plot.py.  The default of [--persistent-dir]
       is the grandparent directory of the script, [home] here. *)

Definition stage_choices : list string := ["preprocess"; "plot"; "both"].

Definition performance_metric_choices : list string := ["primary"; "loss"; "accuracy"].

Definition faithfulness_plot (home : string) : parser :=
  [ help;
    add_argument "--persistent-dir" home None;
    add_argument "--stage" "both" (Some stage_choices);
    add_argument "--performance-metric" "primary" (Some performance_metric_choices) ].

Definition unmasked_performance_plot (home : string) : parser :=
  [ help;
    add_argument "--persistent-dir" home None;
    add_argument "--stage" "both" (Some stage_choices) ].

Definition export_scripts (home : string) : list parser :=
  [faithfulness_plot home; unmasked_performance_plot home].

(** Follows the specification's words: a choice flag of a script accepts
    the listed values and rejects any other value at argument parsing. *)
Definition choice_flag (p : parser) (flag name : string) (allowed : list string)
  : Prop :=
  forall value,
    if mem value allowed
    then exists unknown ns,
        parse_known_args p [flag; value] = Parsed ns unknown
        /\ getattr ns name = Some value
    else exists message, parse_known_args p [flag; value] = Exit 2 message.

(** An item of the first pass names an action of the parser. *)
Definition from_parser (p : parser) (item : string * reading) : Prop :=
  match snd item with
  | O (Some a) _ _ => In a p
  | _ => True
  end.

(** Every value stored for an argument with choices is one of them. *)
Definition respects (p : parser) (ns : namespace) : Prop :=
  Forall (fun a => match choices a with
                   | Some cs => exists v, getattr ns (dest a) = Some v /\ mem v cs = true
                   | None => True
                   end) p.

(** A value that does not begin with a dash. *)
Definition plain (value : string) : bool :=
  match value with
  | String c _ => negb (isc c 45)
  | EmptyString => true
  end.

Definition path_flag (p : parser) (flag name : string) : Prop :=
  forall value,
    plain value = true ->
    exists unknown ns,
      parse_known_args p [flag; value] = Parsed ns unknown
      /\ getattr ns name = Some value.

Definition has_the_three_flags (p : parser) : Prop :=
  (exists ns unknown, parse_known_args p [] = Parsed ns unknown
                      /\ getattr ns "stage" = Some "both"
                      /\ getattr ns "performance_metric" = Some "primary")
  /\ path_flag p "--persistent-dir" "persistent_dir"
  /\ choice_flag p "--stage" "stage" stage_choices
  /\ choice_flag p "--performance-metric" "performance_metric"
                 performance_metric_choices.

End Argparse.

(* ================================================================== *)
(** * export scripts: the plot stage

    The loop over the model categories, lines 118-160 of
    faithfulness_plot.py and 89-128 of unmasked_performance_plot.py.
    What the loop does to the outside is kept as a trace of events; the
    bootstrap and the plotting library are outside the files embedded
    here, so of a category with observations only the order of the calls
    and whether they raised is kept. *)
(* ================================================================== *)

Module PlotStage.

Local Open Scope string_scope.

Inductive script : Type := faithfulness_plot | unmasked_performance_plot.

Inductive event : Type :=
| Print (line : string)
| BootstrapConfint (model_category : string) (column : string)
| Makedirs (path : string)
| Save (path : string).

(** The text [print] writes for a category without observations. *)
Definition skip_message (model_category : string) : string :=
  JSON.q "Skipping model category '" ++ model_category ++ JSON.q "', no observations.".

Definition plot_name (s : script) : string :=
  match s with
  | faithfulness_plot => "faithfulness"
  | unmasked_performance_plot => "unmasked_performance"
  end.

Definition plot_path (s : script) (persistent_dir model_category ext : string)
  : string :=
  persistent_dir ++ "/plots/" ++ plot_name s ++ "_m-" ++ model_category ++ ext.

Definition model_categories : list string := ["masking-ratio"; "size"].

Section Dataframe.
(** The rows of the dataframe and the two conditions the queries test on
    a row: its [model_category] cell equals a given name, and its
    [results.masking_ratio] cell equals 0. *)
Variable Row : Type.
Variable in_category : Row -> string -> bool.
Variable masking_ratio_is_zero : Row -> bool.
(** Whether the bootstrap and the rendering of a category with
    observations return, rather than raise. *)
Variable renders : string -> list Row -> bool.

(** [df.query(...)], lines 122 and 93. *)
Definition query (s : script) (df : list Row) (model_category : string) : list Row :=
  match s with
  | faithfulness_plot =>
      filter (fun r => in_category r model_category) df
  | unmasked_performance_plot =>
      filter (fun r => masking_ratio_is_zero r && in_category r model_category) df
  end.

(** The calls made for a category with observations. *)
Definition plot_events (s : script) (persistent_dir model_category : string)
  : list event :=
  (match s with
   | faithfulness_plot =>
       [BootstrapConfint model_category "metric";
        BootstrapConfint model_category "baseline"]
   | unmasked_performance_plot =>
       [BootstrapConfint model_category "metric"]
   end
   ++ [Makedirs (persistent_dir ++ "/plots");
       Save (plot_path s persistent_dir model_category ".pdf");
       Save (plot_path s persistent_dir model_category ".png")])%list.

(** One iteration of the loop: its events and whether the loop goes on
    ([false] when an exception leaves the script). *)
Definition plot_category (s : script) (persistent_dir : string) (df : list Row)
           (model_category : string) : list event * bool :=
  let df_model_category := query s df model_category in
  if (length df_model_category =? 0)%nat
  then ([Print (skip_message model_category)], true)
  else if renders model_category df_model_category
       then (plot_events s persistent_dir model_category, true)
       else ([BootstrapConfint model_category "metric"], false).

Fixpoint plot_loop (s : script) (persistent_dir : string) (df : list Row)
         (categories : list string) : list event * bool :=
  match categories with
  | [] => ([], true)
  | model_category :: categories' =>
      let (events, continue) := plot_category s persistent_dir df model_category in
      if continue
      then let (events', completed) := plot_loop s persistent_dir df categories' in
           ((events ++ events')%list, completed)
      else (events, false)
  end.

(** [if args.stage in ['both', 'plot']: ...]. *)
Definition plot_stage (s : script) (stage persistent_dir : string) (df : list Row)
  : list event * bool :=
  if Argparse.mem stage ["both"; "plot"]
  then plot_loop s persistent_dir df model_categories
  else ([], true).

End Dataframe.

(** An event that computes an interval or writes a plot for a category. *)
Definition works_on (model_category : string) (e : event) : Prop :=
  match e with
  | Print _ => False
  | BootstrapConfint c _ => c = model_category
  | Makedirs _ => True
  | Save _ => True
  end.

(** A sample dataframe for the examples: the model category and the
    masking ratio of each row. *)
Definition sample_df : list (string * nat) :=
  [("masking-ratio", 0); ("masking-ratio", 10); ("masking-ratio", 0)].

Definition sample_in_category (r : string * nat) (c : string) : bool :=
  String.eqb (fst r) c.

Definition sample_ratio_is_zero (r : string * nat) : bool := (snd r =? 0)%nat.

End PlotStage.

(* ================================================================== *)
(** * ecoroar/model/simple_test_model.py: the model with any weights *)
(* ================================================================== *)

Module SimpleTestModelWeights.
Import Tensor SimpleTestModel.

Section Carrier.
Variable num : Type.
Variables zero one : num.
Variables add mul : num -> num -> num.

(** The property [embedding_matrix], lines 79-81. *)
Definition embedding_matrix (self : model num) : tensor num := _embedding self.

(** A token id below [config.vocab_size]. *)
Definition in_vocabulary (self : model num) (t : Z) : bool :=
  (0 <=? t)%Z && (t <? Z.of_nat (vocab_size (config self)))%Z.

(** The logits of one sequence of tokens for the weights given to
    [__init__]: the rows of the embedding table picked by the tokens,
    squared entry by entry, added up from zero and multiplied by the
    kernel. *)
Definition sequence_logits (embeddings kernel : list (list num)) (ts : list Z)
  : list num :=
  vec_mat zero add mul (length (hd [] kernel))
          (fold_left (zip_with add)
                     (map (fun t => squared mul (nth (Z.to_nat t) embeddings [])) ts)
                     (repeat zero (length (hd [] embeddings))))
          kernel.

(** A nested list with rows of one width. *)
Definition rectangular (width : nat) (l : list (list num)) : Prop :=
  l <> [] /\ Forall (fun r => length r = width) l.

End Carrier.

(** Two tokens the default embedding table maps to one row: BOS, EOS and
    MASK share the row [[0, 1]]. *)
Definition same_embedding (t t' : Z) : Prop :=
  t = t' \/ ((t = 0 \/ t = 1 \/ t = 4) /\ (t' = 0 \/ t' = 1 \/ t' = 4))%Z.

(** The id of the PAD token, and a sequence without its PAD tokens. *)
Definition PAD : Z := 2%Z.

Definition unpadded (ts : list Z) : list Z := filter (fun t => negb (t =? PAD)%Z) ts.

(** One sequence as a batch of one. *)
Definition single (ts : list Z) : tensor Z := mk [1; length ts] ts.

End SimpleTestModelWeights.

(* ================================================================== *)
(** * ecoroar/dataset/cola.py and ecoroar/dataset/mrpc.py:
      [_as_supervised] *)
(* ================================================================== *)

Module Supervised.

Local Open Scope string_scope.

Section Items.
(** The values of a raw record (texts and labels), kept abstract. *)
Variable V : Type.

(** A raw record of the dataset builder: a Python dictionary. *)
Definition item : Type := list (string * V).

Inductive error : Type := KeyError (key : string).

Fixpoint getitem (d : item) (key : string) : error + V :=
  match d with
  | [] => inl (KeyError key)
  | (k, v) :: d' => if String.eqb k key then inr v else getitem d' key
  end.

Definition bind {A B} (c : error + A) (k : A -> error + B) : error + B :=
  match c with
  | inl e => inl e
  | inr a => k a
  end.

(** [CoLADataset._as_supervised], lines 18-20: the features are a
    one-element tuple. *)
Definition CoLA_as_supervised (it : item) : error + (list V * V) :=
  bind (getitem it "sentence") (fun sentence =>
  let x := [sentence] in
  bind (getitem it "label") (fun label =>
  inr (x, label))).

(** [MRPCDataset._as_supervised], lines 19-21: the features are a pair. *)
Definition MRPC_as_supervised (it : item) : error + (list V * V) :=
  bind (getitem it "sentence1") (fun sentence1 =>
  bind (getitem it "sentence2") (fun sentence2 =>
  let x := [sentence1; sentence2] in
  bind (getitem it "label") (fun label =>
  inr (x, label)))).

End Items.

End Supervised.

(* ================================================================== *)
(** * export scripts: the tables after the explode

    A dataframe with its column labels: the rows as before (a row holds
    its cells that are not NaN), and the list of the labels, which an
    empty dataframe keeps.  The operations are those of the dataframe
    library the scripts call after the explode; [Outside] marks an input
    this embedding does not cover (column labels that are not distinct,
    a key cell that is not a string). *)
(* ================================================================== *)

Module Table.
Import JSON Frame.

Local Open Scope string_scope.

Record table : Type := { columns : list string; rows : list row }.

Inductive exn : Type :=
| KeyError (key : string)
| IndexError
| ValueError (message : string).

Inductive result (A : Type) : Type :=
| Return (a : A)
| Raise (e : exn)
| Outside.

Arguments Return {A} a.
Arguments Raise {A} e.
Arguments Outside {A}.

Fixpoint mem (c : string) (l : list string) : bool :=
  match l with
  | [] => false
  | x :: l' => String.eqb x c || mem c l'
  end.

Fixpoint distinct (l : list string) : bool :=
  match l with
  | [] => true
  | x :: l' => negb (mem x l') && distinct l'
  end.

(** The cell of a row under a label of the table, NaN under any other. *)
Definition cell (df : table) (r : row) (c : string) : option json :=
  if mem c (columns df) then get r c else None.

(** Writing a cell; NaN leaves the row without the key. *)
Definition set_cell (r : row) (c : string) (v : option json) : row :=
  match v with
  | Some x => dict_set c x r
  | None => remove c r
  end.

Fixpoint zip_with {A B C} (f : A -> B -> C) (a : list A) (b : list B) : list C :=
  match a, b with
  | x :: a', y :: b' => f x y :: zip_with f a' b'
  | _, _ => []
  end.

(** [df.assign] with one keyword, [name] for [values]: the column is
    replaced where it stands or added last. *)
Definition assign (name : string) (values : list (option json)) (df : table)
  : table :=
  {| columns := if mem name (columns df) then columns df
                else (columns df ++ [name])%list;
     rows := zip_with (fun r v => set_cell r name v) (rows df) values |}.

(** ** [pd.factorize] on strings: the codes and the distinct values in
       the order of their first appearance. *)

Fixpoint index_of (x : string) (l : list string) : option nat :=
  match l with
  | [] => None
  | y :: l' =>
      if String.eqb y x then Some 0
      else match index_of x l' with
           | Some i => Some (S i)
           | None => None
           end
  end.

Fixpoint factorize_from (uniques : list string) (values : list string)
  : list nat * list string :=
  match values with
  | [] => ([], uniques)
  | v :: values' =>
      match index_of v uniques with
      | Some i =>
          let (codes, u) := factorize_from uniques values' in (i :: codes, u)
      | None =>
          let (codes, u) := factorize_from (uniques ++ [v])%list values' in
          (length uniques :: codes, u)
      end
  end.

Definition factorize (values : list string) : list nat * list string :=
  factorize_from [] values.

(** The name in a [target_metric] cell. *)
Definition target_metric (r : row) : option string :=
  match get r "target_metric" with
  | Some (JString s) => Some s
  | _ => None
  end.

(** ** faithfulness_plot.py, lines 15-19.

    [df.reindex(cols, axis=1).to_numpy()] is the array of the cells of
    every row under the labels [cols], NaN under a label the table does
    not have; indexing it with [np.arange(len(df)), idx] picks in row
    [i] the entry [idx[i]]. *)
Definition select_target_metric (df : table) : result table :=
  if negb (mem "target_metric" (columns df)) then Raise (KeyError "target_metric")
  else if negb (distinct (columns df)) then Outside
  else
    match traverse target_metric (rows df) with
    | None => Outside
    | Some names =>
        let (idx, cols) := factorize (map (String.append "results.") names) in
        let array := map (fun r => map (cell df r) cols) (rows df) in
        Return (assign "metric" (zip_with (fun line i => nth i line None) array idx) df)
    end.

(** A row before and after [select_target_metric]: the value under the
    row's own target metric is copied into [metric]. *)
Definition selected (df : table) (r r' : row) : Prop :=
  exists tm, target_metric r = Some tm
             /\ r' = set_cell r "metric" (cell df r ("results." ++ tm)).

(** ** unmasked_performance_plot.py, lines 17-21, on one group of the
       [groupby]: the series [{'metric': value}] is kept as a row. *)
Definition select_target_metric_of_group (partial_df : table) : result row :=
  if negb (mem "target_metric" (columns partial_df))
  then Raise (KeyError "target_metric")
  else if negb (distinct (columns partial_df)) then Outside
  else
    match rows partial_df with
    | [] => Raise IndexError
    | r :: _ =>
        match target_metric r with
        | None => Outside
        | Some column_name =>
            let c := "results." ++ column_name in
            if mem c (columns partial_df)
            then Return (set_cell [] "metric" (get r c))
            else Raise (KeyError c)
        end
    end.

(** ** [left.merge(right, on=key)] with a mapping table on the right

    The inner join of the scripts: every left row is joined with the
    right rows of the same key, the key column kept once.  Only key
    columns of strings are covered, on both sides.  The rows are given
    in the order of the left table (as the library documents; versions
    before 2.2 group them by key), and nothing stated about [merge]
    depends on that order. *)

Definition key_is (key : string) (v : option json) : bool :=
  match v with
  | Some (JString s) => String.eqb s key
  | _ => false
  end.

Definition string_key (on : string) (r : row) : option string :=
  match get r on with
  | Some (JString s) => Some s
  | _ => None
  end.

Definition others (on : string) (l : list string) : list string :=
  filter (fun c => negb (String.eqb c on)) l.

Definition merge (left right : table) (on : string) : result table :=
  if negb (mem on (columns left) && mem on (columns right)) then Raise (KeyError on)
  else if negb (distinct (columns left) && distinct (columns right)) then Outside
  else if existsb (fun c => mem c (columns left)) (others on (columns right))
       then Outside
  else
    match traverse (string_key on) (rows left), traverse (string_key on) (rows right) with
    | Some _, Some keys =>
        Return
          {| columns := (columns left ++ others on (columns right))%list;
             rows :=
               flat_map (fun l =>
                           flat_map (fun kr =>
                                       if key_is (fst kr) (get l on)
                                       then [(l ++ remove on (snd kr))%list]
                                       else [])
                                    (combine keys (rows right)))
                        (rows left) |}
    | _, _ => Outside
    end.

(** [model_mapping], lines 57-65 (48-56 in the other script). *)
Definition model_mapping : table :=
  {| columns := ["args.model"; "model_category"];
     rows :=
       [ [("args.model", JString "roberta-m15"); ("model_category", JString "masking-ratio")];
         [("args.model", JString "roberta-m20"); ("model_category", JString "masking-ratio")];
         [("args.model", JString "roberta-m30"); ("model_category", JString "masking-ratio")];
         [("args.model", JString "roberta-m40"); ("model_category", JString "masking-ratio")];
         [("args.model", JString "roberta-m50"); ("model_category", JString "masking-ratio")];
         [("args.model", JString "roberta-sb"); ("model_category", JString "size")];
         [("args.model", JString "roberta-sl"); ("model_category", JString "size")] ] |}.

(** The category [model_mapping] gives a model, if it lists it. *)
Definition category_of (model : string) : option string :=
  if mem model ["roberta-m15"; "roberta-m20"; "roberta-m30"; "roberta-m40"; "roberta-m50"]
  then Some "masking-ratio"
  else if mem model ["roberta-sb"; "roberta-sl"] then Some "size"
  else None.

(** The rows a merge with [model_mapping] makes of one row. *)
Definition with_category (l : row) : list row :=
  match string_key "args.model" l with
  | Some m =>
      match category_of m with
      | Some c => [(l ++ [("model_category", JString c)])%list]
      | None => []
      end
  | None => []
  end.

(** The condition [`model_category` == @model_category] of the plot
    stage's queries, on a row. *)
Definition in_category (r : row) (model_category : string) : bool :=
  key_is model_category (get r "model_category").

(** ** [df_goal], lines 100-103 of faithfulness_plot.py

    [Series.unique] on a column of strings and NaN: the distinct values
    in the order of their first appearance. *)

Definition explainer (r : row) : option (option string) :=
  match get r "args.explainer" with
  | Some (JString s) => Some (Some s)
  | None => Some None
  | _ => None
  end.

Definition same (a b : option string) : bool :=
  match a, b with
  | Some x, Some y => String.eqb x y
  | None, None => true
  | _, _ => false
  end.

Fixpoint unique_from (seen : list (option string)) (l : list (option string))
  : list (option string) :=
  match l with
  | [] => seen
  | x :: l' =>
      if existsb (same x) seen then unique_from seen l'
      else unique_from (seen ++ [x])%list l'
  end.

Definition unique (l : list (option string)) : list (option string) :=
  unique_from [] l.

Definition df_goal (df_masking df_faithfulness : table) : result table :=
  if negb (mem "args.explainer" (columns df_faithfulness))
  then Raise (KeyError "args.explainer")
  else if negb (distinct (columns df_faithfulness) && distinct (columns df_masking))
       then Outside
  else
    match traverse explainer (rows df_faithfulness) with
    | None => Outside
    | Some cells =>
        match unique cells with
        | [] => Raise (ValueError "No objects to concatenate")
        | explainers =>
            Return
              {| columns := if mem "args.explainer" (columns df_masking)
                            then columns df_masking
                            else (columns df_masking ++ ["args.explainer"])%list;
                 rows :=
                   flat_map (fun e =>
                               map (fun r => set_cell r "args.explainer"
                                                      (option_map JString e))
                                   (rows df_masking))
                            explainers |}
        end
    end.

(** Sample tables for the examples. *)
Definition sample_table : table :=
  {| columns := ["args.model"; "args.explainer"; "target_metric";
                 "results.loss"; "results.accuracy"];
     rows :=
       [ [("args.model", JString "roberta-sb"); ("args.explainer", JString "grad");
          ("target_metric", JString "accuracy");
          ("results.loss", JFloat "0.5"); ("results.accuracy", JFloat "0.75")];
         [("args.model", JString "roberta-m20"); ("args.explainer", JString "rand");
          ("target_metric", JString "loss");
          ("results.loss", JFloat "0.25"); ("results.accuracy", JFloat "0.9")];
         [("args.model", JString "bert"); ("args.explainer", JString "grad");
          ("target_metric", JString "matthew");
          ("results.loss", JFloat "0.1")] ] |}.

End Table.

(* ================================================================== *)
(** * export scripts: the stages of the main block

    The control flow of lines 67-118 of faithfulness_plot.py (58-89 of
    unmasked_performance_plot.py).  The variable [df] is unbound until a
    stage assigns it; the pickle file holds what [to_pickle] last wrote,
    and [read_pickle] gives that back. *)
(* ================================================================== *)

Module Main.
Import PlotStage.

Local Open Scope string_scope.

Inductive step : Type :=
| ReadResultFiles
| ToCsv (path : string)
| MakedirsPandas (path : string)
| ToPickle (path : string)
| ReadPickle (path : string)
| Plot (e : event).

Inductive outcome : Type :=
| Completed
| Raised (exception : string).

Definition pickle_path (s : script) (persistent_dir : string) : string :=
  persistent_dir ++ "/pandas/" ++ plot_name s ++ ".pd.pkl.xz".

(** [df.to_csv('test.csv')], line 110: only faithfulness_plot.py. *)
Definition csv (s : script) : list step :=
  match s with
  | faithfulness_plot => [ToCsv "test.csv"]
  | unmasked_performance_plot => []
  end.

Section Script.
Variable Row : Type.
Variable in_category : Row -> string -> bool.
Variable masking_ratio_is_zero : Row -> bool.
Variable renders : string -> list Row -> bool.
(** The dataframe the preprocess block builds from the result files,
    [None] when the block raises. *)
Variable preprocess : option (list Row).

Record run : Type :=
  { steps : list step;
    pickle : option (list Row);
    result : outcome }.

Definition main (s : script) (stage persistent_dir : string)
           (pickle0 : option (list Row)) : run :=
  let raise steps exception :=
    {| steps := steps; pickle := pickle0; result := Raised exception |} in
  (* if args.stage in ['both', 'preprocess'] *)
  match (if Argparse.mem stage ["both"; "preprocess"]
         then match preprocess with
              | Some df => inr ((ReadResultFiles :: csv s)%list, Some df)
              | None => inl [ReadResultFiles]
              end
         else inr ([], None)) with
  | inl steps1 => raise steps1 "preprocess"
  | inr (steps1, df1) =>
      (* if args.stage in ['preprocess'] ... elif args.stage in ['plot'] *)
      match (if Argparse.mem stage ["preprocess"]
             then match df1 with
                  | Some df =>
                      inr ((steps1 ++ [MakedirsPandas (persistent_dir ++ "/pandas");
                                       ToPickle (pickle_path s persistent_dir)])%list,
                           df1, Some df)
                  | None => inl (steps1, "NameError")
                  end
             else if Argparse.mem stage ["plot"]
                  then match pickle0 with
                       | Some df =>
                           inr ((steps1 ++ [ReadPickle (pickle_path s persistent_dir)])%list,
                                Some df, pickle0)
                       | None =>
                           inl ((steps1 ++ [ReadPickle (pickle_path s persistent_dir)])%list,
                                "FileNotFoundError")
                       end
                  else inr (steps1, df1, pickle0)) with
      | inl (steps2, exception) => raise steps2 exception
      | inr (steps2, df2, pickle2) =>
          (* if args.stage in ['both', 'plot'] *)
          if Argparse.mem stage ["both"; "plot"]
          then match df2 with
               | Some df =>
                   let (events, completed) :=
                     plot_loop in_category masking_ratio_is_zero renders
                               s persistent_dir df model_categories in
                   {| steps := (steps2 ++ map Plot events)%list;
                      pickle := pickle2;
                      result := if completed then Completed else Raised "plot" |}
               | None => raise steps2 "NameError"
               end
          else {| steps := steps2; pickle := pickle2; result := Completed |}
      end
  end.

End Script.

(** The events of the plot stage among the steps of a run. *)
Definition plotted (steps : list step) : list event :=
  flat_map (fun st => match st with Plot e => [e] | _ => [] end) steps.

(** The paths [p.save] has written to among the events of a plot loop. *)
Definition saved (events : list event) : list string :=
  flat_map (fun e => match e with Save path => [path] | _ => [] end) events.

End Main.

(* ================================================================== *)
(** * export scripts: the target metric of a dataset, lines 47-56 of
      faithfulness_plot.py and 44-47 of unmasked_performance_plot.py *)
(* ================================================================== *)

Module Mapping.
Import Dataset.

Local Open Scope string_scope.

(** [dataset._early_stopping_metric if args.performance_metric ==
    'primary' else args.performance_metric]. *)
Definition target_metric (dataset : descriptor) (performance_metric : string) : string :=
  if String.eqb performance_metric "primary"
  then _early_stopping_metric dataset
  else performance_metric.

(** The [target_metric] entry of unmasked_performance_plot.py. *)
Definition primary_metric (dataset : descriptor) : string :=
  _early_stopping_metric dataset.

End Mapping.

(* ================================================================== *)
(** * export scripts: the result files of a loop

    [sorted((args.persistent_dir / 'results').glob(pattern))], lines 70
    and 84 of faithfulness_plot.py and 61 of unmasked_performance_plot.py.
    The directory is the list of its entries, name and text, in the order
    the system lists them; the entries are regular files.  The patterns
    of the scripts have one star: a prefix, anything, a suffix. *)
(* ================================================================== *)

Module Glob.

Local Open Scope string_scope.

(** What is left of [s] after the prefix [p], [None] when [s] does not
    start with it. *)
Fixpoint after_prefix (p s : string) : option string :=
  match p with
  | EmptyString => Some s
  | String c p' =>
      match s with
      | String d s' => if Ascii.eqb c d then after_prefix p' s' else None
      | EmptyString => None
      end
  end.

Fixpoint endswith (s suffix : string) : bool :=
  String.eqb s suffix
  || match s with
     | String _ s' => endswith s' suffix
     | EmptyString => false
     end.

(** The name matches the pattern [prefix*suffix]. *)
Definition fnmatch (prefix suffix name : string) : bool :=
  match after_prefix prefix name with
  | Some rest => endswith rest suffix
  | None => false
  end.

Definition glob (prefix suffix : string) (directory : list Reader.file)
  : list Reader.file :=
  filter (fun f => fnmatch prefix suffix (fst f)) directory.

(** [sorted]: paths of one directory compare as their names do. *)
Fixpoint insert (f : Reader.file) (l : list Reader.file) : list Reader.file :=
  match l with
  | [] => [f]
  | g :: l' =>
      if String.leb (fst f) (fst g) then f :: g :: l' else g :: insert f l'
  end.

Definition sorted (l : list Reader.file) : list Reader.file :=
  fold_right insert [] l.

(** The files a loop iterates over, each under its path. *)
Definition files (persistent_dir prefix suffix : string)
           (directory : list Reader.file) : list Reader.file :=
  map (fun f => (persistent_dir ++ "/results/" ++ fst f, snd f))
      (sorted (glob prefix suffix directory)).

Definition sample_directory : list Reader.file :=
  [("masking_1.json", snd Reader.one_record);
   ("faithfulness_0.json", snd Reader.one_record);
   ("masking_0.json", snd Reader.two_records);
   ("notes.txt", EmptyString)].

End Glob.

(* ================================================================== *)
(** * unmasked_performance_plot.py: [df_goal], lines 104-108

    [df_plot.query('`args.max_masking_ratio` == 0')], then the
    concatenation over [0, 100] of
    [df_goal.eval('`args.max_masking_ratio` == @max_masking_ratio')]:
    an expression that is no assignment, so [eval] returns the column of
    its truth values. *)
(* ================================================================== *)

Module UnmaskedGoal.

Section Dataframe.
Variable Row : Type.
(** The [args.max_masking_ratio] cell of the row equals the number. *)
Variable max_masking_ratio_is : Row -> Z -> bool.

Definition query (df : list Row) : list Row :=
  filter (fun r => max_masking_ratio_is r 0) df.

Definition eval (df : list Row) (max_masking_ratio : Z) : list bool :=
  map (fun r => max_masking_ratio_is r max_masking_ratio) df.

Definition df_goal (df_plot : list Row) : list bool :=
  let df_goal := query df_plot in
  concat (map (fun max_masking_ratio => eval df_goal max_masking_ratio)
              [0%Z; 100%Z]).

End Dataframe.

End UnmaskedGoal.

(* ================================================================== *)
(** * experiments/preprocess.py: the command line, lines 9-17

    One flag, and [parse_args] instead of [parse_known_args]: strings the
    parser does not know end the script. *)
(* ================================================================== *)

Module Preprocess.
Import Argparse.

Local Open Scope string_scope.

Definition parser (home : string) : Argparse.parser :=
  [ help;
    add_argument "--persistent-dir" home None ].

(** [ArgumentParser.parse_args]. *)
Definition parse_args (p : Argparse.parser) (arg_strings : list string) : parsed :=
  match parse_known_args p arg_strings with
  | Parsed args [] => Parsed args []
  | Parsed _ argv =>
      Exit 2 ("unrecognized arguments: " ++ String.concat " " argv)
  | other => other
  end.

End Preprocess.

(* ================================================================== *)
(** * Properties *)
(* ================================================================== *)

Unset Implicit Arguments.

Module ListFacts.

Lemma nth_error_skipn {A} (l : list A) (k i : nat) :
  nth_error (skipn k l) i = nth_error l (k + i).
Proof.
  revert l; induction k as [|k IH]; intros l; simpl; [reflexivity|].
  destruct l as [|x l]; simpl; [now destruct i | apply IH].
Qed.

Lemma flat_map_map {A B C} (f : B -> list C) (g : A -> B) (l : list A) :
  flat_map f (map g l) = flat_map (fun a => f (g a)) l.
Proof.
  induction l as [|a l IH]; simpl; [reflexivity | now rewrite IH].
Qed.

Lemma flat_map_ext_in {A B} (f g : A -> list B) (l : list A) :
  (forall a, In a l -> f a = g a) -> flat_map f l = flat_map g l.
Proof.
  induction l as [|a l IH]; intros H; simpl; [reflexivity|].
  rewrite (H a) by now left. rewrite IH; [reflexivity|].
  intros b Hb. apply H. now right.
Qed.

Lemma map_flat_map {A B C} (g : B -> C) (f : A -> list B) (l : list A) :
  map g (flat_map f l) = flat_map (fun a => map g (f a)) l.
Proof.
  induction l as [|a l IH]; simpl; [reflexivity | now rewrite map_app, IH].
Qed.

Lemma Forall_flat_map {A B} (P : B -> Prop) (f : A -> list B) (l : list A) :
  Forall (fun a => Forall P (f a)) l -> Forall P (flat_map f l).
Proof.
  induction 1 as [|a l Ha Hl IH]; [constructor|].
  cbn [flat_map]. apply Forall_app. now split.
Qed.

Lemma Forall_firstn {A} (P : A -> Prop) (k : nat) (l : list A) :
  Forall P l -> Forall P (firstn k l).
Proof.
  intros Hl; revert k; induction Hl as [|a l Ha Hl IH]; intros [|k]; simpl; auto.
Qed.

Lemma Forall_skipn {A} (P : A -> Prop) (k : nat) (l : list A) :
  Forall P l -> Forall P (skipn k l).
Proof.
  intros Hl; revert k; induction Hl as [|a l Ha Hl IH]; intros [|k]; simpl; auto.
Qed.

Lemma filter_all {A} (p : A -> bool) (l : list A) :
  Forall (fun a => p a = true) l -> filter p l = l.
Proof.
  induction 1 as [|a l Ha Hl IH]; simpl; [reflexivity|]. now rewrite Ha, IH.
Qed.

Lemma filter_none {A} (p : A -> bool) (l : list A) :
  Forall (fun a => p a = false) l -> filter p l = [].
Proof.
  induction 1 as [|a l Ha Hl IH]; simpl; [reflexivity|]. now rewrite Ha, IH.
Qed.

Lemma firstn_flat_map {A B} (f : A -> list B) (n k : nat) (l : list A) :
  Forall (fun a => length (f a) = n) l ->
  firstn (k * n) (flat_map f l) = flat_map f (firstn k l).
Proof.
  intros Hl; revert k; induction Hl as [|a l Ha Hl IH]; intros k.
  - now rewrite !firstn_nil.
  - destruct k as [|k]; [reflexivity|].
    cbn [flat_map firstn Nat.mul].
    rewrite firstn_app, Ha.
    rewrite firstn_all2 by lia.
    replace (n + k * n - n) with (k * n) by lia.
    now rewrite IH.
Qed.

Lemma skipn_flat_map {A B} (f : A -> list B) (n k : nat) (l : list A) :
  Forall (fun a => length (f a) = n) l ->
  skipn (k * n) (flat_map f l) = flat_map f (skipn k l).
Proof.
  intros Hl; revert k; induction Hl as [|a l Ha Hl IH]; intros k.
  - now rewrite !skipn_nil.
  - destruct k as [|k]; [reflexivity|].
    cbn [flat_map skipn Nat.mul].
    rewrite skipn_app, Ha.
    rewrite skipn_all2 by lia.
    replace (n + k * n - n) with (k * n) by lia.
    now rewrite IH.
Qed.

End ListFacts.

Module TensorFacts.
Import Tensor ListFacts.

Lemma chunks_length {A} (n k : nat) (l : list A) :
  length (chunks n k l) = k.
Proof.
  revert l; induction k as [|k IH]; intros l; simpl; [reflexivity|].
  now rewrite IH.
Qed.

(** Cutting a concatenation of [n]-element blocks gives the blocks back. *)
Lemma chunks_flat_map {A B} (f : A -> list B) (n : nat) (l : list A) :
  Forall (fun a => length (f a) = n) l ->
  chunks n (length l) (flat_map f l) = map f l.
Proof.
  induction 1 as [|a l Ha Hl IH]; [reflexivity|].
  cbn [length chunks flat_map map].
  rewrite firstn_app, skipn_app, Ha, Nat.sub_diag.
  rewrite firstn_all2 by lia.
  rewrite skipn_all2 by lia.
  cbn [firstn skipn app]. now rewrite app_nil_r, IH.
Qed.

Lemma firstn1_skipn_nth_error {A} (l : list A) (j : nat) :
  firstn 1 (skipn j l) = match nth_error l j with Some x => [x] | None => [] end.
Proof.
  rewrite <- (Nat.add_0_r j) at 2.
  rewrite <- nth_error_skipn.
  now destruct (skipn j l).
Qed.

(** Entry [j] of every row, read off the row-major buffer. *)
Lemma column_of_chunks {A} (m j k : nat) (l : list A) :
  j < m ->
  flat_map (fun r => firstn 1 (skipn j r)) (chunks m k l)
  = flat_map (fun i => match nth_error l (m * i + j) with
                       | Some x => [x]
                       | None => []
                       end) (seq 0 k).
Proof.
  intros Hj; revert l; induction k as [|k IH]; intros l; [reflexivity|].
  cbn [chunks flat_map seq]. f_equal.
  - rewrite firstn1_skipn_nth_error, Nat.mul_0_r, Nat.add_0_l.
    rewrite nth_error_firstn.
    destruct (Nat.ltb_spec j m); [reflexivity | lia].
  - rewrite IH, <- seq_shift, flat_map_map.
    apply flat_map_ext; intros i.
    rewrite nth_error_skipn.
    now replace (m + (m * i + j)) with (m * S i + j) by lia.
Qed.

(** Cutting a buffer of [n]-element items into blocks of [t] items. *)
Lemma chunks_of_blocks {A B} (f : A -> list B) (n t b : nat) (l : list A) :
  Forall (fun a => length (f a) = n) l ->
  chunks (t * n) b (flat_map f l) = map (flat_map f) (chunks t b l).
Proof.
  revert l; induction b as [|b IH]; intros l Hl; [reflexivity|].
  cbn [chunks map].
  rewrite firstn_flat_map, skipn_flat_map by assumption.
  now rewrite IH by now apply Forall_skipn.
Qed.

Lemma chunks_all_length {A} (n k : nat) (l : list A) :
  length l = k * n -> Forall (fun r => length r = n) (chunks n k l).
Proof.
  revert l; induction k as [|k IH]; intros l Hl; cbn [chunks]; constructor.
  - rewrite length_firstn. simpl in Hl. lia.
  - apply IH. rewrite length_skipn. simpl in Hl. lia.
Qed.

Lemma chunks_Forall {A} (P : A -> Prop) (n k : nat) (l : list A) :
  Forall P l -> Forall (Forall P) (chunks n k l).
Proof.
  revert l; induction k as [|k IH]; intros l Hl; cbn [chunks]; constructor.
  - now apply Forall_firstn.
  - now apply IH, Forall_skipn.
Qed.

End TensorFacts.

Module AUROCFacts.
Import Tensor AUROC TensorFacts.

Section Wrapper.
Variables (L P W St E V : Type).
Variable AUC_update_state :
  tensor L -> tensor P -> option (tensor W) -> M St E unit.
Variable AUC_result : St -> V.

Lemma compatible_None_2 (s : list nat) :
  compatible s [None; Some 2] = true <-> exists n, s = [n; 2].
Proof.
  split.
  - destruct s as [|n [|m [|? ?]]]; simpl; try discriminate.
    + rewrite andb_true_r, Nat.eqb_eq; intros ->; now exists n.
    + now rewrite andb_false_r.
  - intros [n ->]; reflexivity.
Qed.

Lemma slice_is_positive_class_column (y_pred : tensor P) (n : nat) :
  shape y_pred = [n; 2] ->
  getitem_all_index y_pred 1 = Some (positive_class_column y_pred).
Proof.
  intros Hs. unfold getitem_all_index, positive_class_column, rows.
  rewrite Hs; simpl hd; cbn [Nat.ltb Nat.leb].
  now rewrite column_of_chunks by lia.
Qed.

Lemma update_state_on_None_2 (y_true : tensor L) (y_pred : tensor P)
      (sample_weight : option (tensor W)) (n : nat) :
  shape y_pred = [n; 2] ->
  update_state AUC_update_state y_true y_pred sample_weight
  = super (AUC_update_state y_true (positive_class_column y_pred) sample_weight).
Proof.
  intros Hs. unfold update_state, ensure_shape.
  rewrite Hs at 2. cbn [compatible Nat.eqb andb of_option].
  unfold bind at 1, ret.
  now rewrite (slice_is_positive_class_column _ _ Hs).
Qed.

Lemma update_state_shape_error (y_true : tensor L) (y_pred : tensor P)
      (sample_weight : option (tensor W)) (st : St) :
  compatible (shape y_pred) [None; Some 2] = false ->
  update_state AUC_update_state y_true y_pred sample_weight st
  = (inl (EnsureShapeError (shape y_pred)), st).
Proof.
  intros Hs. unfold update_state, ensure_shape. now rewrite Hs.
Qed.

Lemma super_not_shape_error {A} (c : M St E A) (st st' : St) (s : list nat) :
  super c st <> (inl (EnsureShapeError s), st').
Proof.
  unfold super. destruct (c st) as [[e|a] st'']; intros H; inversion H.
Qed.

(** C1. On a prediction tensor of shape [[N,2]], [AUROC.update_state]
    does to the metric's variables exactly what the parent's
    [update_state] does when given the positive-class column (same
    labels, same optional weights, same outcome and same state), so the
    value [result] then reports is the one the parent computes from that
    column. *)
Theorem C1_update_state_is_AUC_on_positive_column
        (y_true : tensor L) (y_pred : tensor P)
        (sample_weight : option (tensor W)) (st : St) (n : nat) :
  shape y_pred = [n; 2] ->
  update_state AUC_update_state y_true y_pred sample_weight st
  = super (AUC_update_state y_true (positive_class_column y_pred) sample_weight) st
  /\ snd (update_state AUC_update_state y_true y_pred sample_weight st)
     = snd (AUC_update_state y_true (positive_class_column y_pred) sample_weight st)
  /\ result AUC_result
            (snd (update_state AUC_update_state y_true y_pred sample_weight st))
     = AUC_result
         (snd (AUC_update_state y_true (positive_class_column y_pred)
                                sample_weight st)).
Proof.
  intros Hs. rewrite (update_state_on_None_2 _ _ _ _ Hs).
  unfold result, super.
  destruct (AUC_update_state _ _ _ st) as [[e|[]] st']; auto.
Qed.


End Wrapper.

Example update_state_runs :
  counting_result
    (snd (update_state counting_update y_true3 y_pred3 None thresholds0))
  = [(2, 0); (1, 0)]%Z.
Proof. reflexivity. Qed.

Example update_state_rejects_three_columns :
  update_state counting_update y_true3 (mk [2; 3] [1; 2; 3; 4; 5; 6]%Z) None
               thresholds0
  = (inl (EnsureShapeError [2; 3]), thresholds0).
Proof. reflexivity. Qed.

Lemma C1_witness :
  shape y_pred3 = [3; 2]
  /\ update_state counting_update y_true3 y_pred3 None thresholds0
     = super (counting_update y_true3 (positive_class_column y_pred3) None)
             thresholds0.
Proof.
  split; [reflexivity|].
  apply (C1_update_state_is_AUC_on_positive_column
           _ _ _ _ _ _ counting_update counting_result
           y_true3 y_pred3 None thresholds0 3).
  reflexivity.
Defined.


End AUROCFacts.

Module SimpleTestModelFacts.
Import Tensor ListFacts TensorFacts SimpleTestModel.

Section Carrier.
Variable num : Type.
Variables zero one : num.
Variables add mul : num -> num -> num.

#[local] Abbreviation e := (e zero one).
#[local] Abbreviation squared := (squared mul).
#[local] Abbreviation sum_of_squares := (sum_of_squares zero one add mul).
#[local] Abbreviation spec_logits := (spec_logits zero one add mul).
#[local] Abbreviation default_model := (default_model zero one).

Lemma valid_id_cases (t : Z) :
  valid_id t = true -> (t = 0 \/ t = 1 \/ t = 2 \/ t = 3 \/ t = 4)%Z.
Proof.
  unfold valid_id. rewrite andb_true_iff, Z.leb_le, Z.ltb_lt. lia.
Qed.

Lemma e_length (t : Z) : valid_id t = true -> length (e t) = 2.
Proof.
  intros H; destruct (valid_id_cases _ H) as [->|[->|[->|[->| ->]]]]; reflexivity.
Qed.

Lemma table_row_default (t : Z) :
  valid_id t = true ->
  table_row (_embedding default_model) t = inr (e t).
Proof.
  intros H; destruct (valid_id_cases _ H) as [->|[->|[->|[->| ->]]]]; reflexivity.
Qed.

Lemma gather_default (ts : list Z) :
  forallb valid_id ts = true ->
  gather (_embedding default_model) ts = inr (flat_map e ts).
Proof.
  induction ts as [|t ts IH]; [reflexivity|].
  cbn [forallb]. rewrite andb_true_iff. intros [Ht Hts].
  cbn [gather flat_map]. rewrite (table_row_default _ Ht), (IH Hts). reflexivity.
Qed.

Lemma zip_with_diag (f : num -> num -> num) (l : list num) :
  zip_with f l l = map (fun x => f x x) l.
Proof.
  induction l as [|x l IH]; simpl; [reflexivity | now rewrite IH].
Qed.

Lemma zip_with_length (f : num -> num -> num) (a b : list num) :
  length (zip_with f a b) = Nat.min (length a) (length b).
Proof.
  revert b; induction a as [|x a IH]; intros [|y b]; simpl; auto.
Qed.

Lemma fold_zip_with_length (f : num -> num -> num) (n : nat)
      (vs : list (list num)) (acc : list num) :
  length acc = n -> Forall (fun v => length v = n) vs ->
  length (fold_left (zip_with f) vs acc) = n.
Proof.
  intros Hacc Hvs; revert acc Hacc; induction Hvs as [|v vs Hv Hvs IH];
    intros acc Hacc; simpl; [assumption|].
  apply IH. rewrite zip_with_length. lia.
Qed.

Lemma sum_of_squares_length (ts : list Z) :
  Forall (fun t => valid_id t = true) ts -> length (sum_of_squares ts) = 2.
Proof.
  intros H. unfold sum_of_squares, SimpleTestModel.sum_of_squares.
  apply fold_zip_with_length; [reflexivity|].
  rewrite Forall_map. eapply Forall_impl; [|exact H].
  intros t Ht. unfold squared, SimpleTestModel.squared.
  now rewrite length_map, e_length.
Qed.

(** The dense layer applied to one two-entry vector. *)
Lemma vec_mat_default (s : list num) :
  length s = 2 ->
  vec_mat zero add mul 3 s (rows (_dense default_model))
  = times_kernel zero one add mul s.
Proof.
  destruct s as [|a [|b [|c s]]]; try discriminate. reflexivity.
Qed.

(** The dense layer on a rank-2 input: every row times the kernel. *)
Lemma dense_call_rank2 (kernel z : tensor num) (b e u : nat) :
  shape kernel = [e; u] ->
  shape z = [b; e] ->
  dense_call zero add mul kernel z
  = inr (mk [b; u]
            (flat_map (fun row => vec_mat zero add mul u row (rows kernel))
                      (rows z))).
Proof.
  intros Hk Hz. unfold dense_call, rows. rewrite Hk, Hz.
  cbn [rev app numel fold_right]. now rewrite Nat.eqb_refl, Nat.mul_1_r.
Qed.

(** C8. With the default initializers, [call] on a batch of [B]
    sequences of [T] valid token ids returns a [[B,3]] tensor of logits
    holding, for each sequence, the sum over its positions of the
    element-wise square of the embedding row of the token, multiplied by
    the fixed 2x3 kernel without bias. *)
Theorem C8_call_is_sum_of_squares_times_kernel
        (Mask : Type) (ids : tensor Z) (mask : tensor Mask)
        (training : bool) (B T : nat) :
  shape ids = [B; T] ->
  well_formed ids ->
  forallb valid_id (values ids) = true ->
  call zero add mul default_model
       {| input_ids := Some ids; attention_mask := Some mask;
          inputs_embeds := None |} training
  = inr {| logits := mk [B; 3] (flat_map spec_logits (rows ids)) |}
  /\ length (rows ids) = B
  /\ Forall (fun ts => length (spec_logits ts) = 3) (rows ids).
Proof.
  intros Hs Hwf Hvalid.
  assert (Hlen : length (values ids) = B * T).
  { unfold well_formed in Hwf. rewrite Hs in Hwf. simpl in Hwf. lia. }
  assert (Hv : Forall (fun t => valid_id t = true) (values ids))
    by (apply Forall_forall; now apply forallb_forall).
  assert (He : Forall (fun t => length (squared (e t)) = 2) (values ids)).
  { eapply Forall_impl; [|exact Hv]. intros t Ht.
    unfold squared, SimpleTestModel.squared. now rewrite length_map, e_length. }
  assert (Hrows : rows ids = chunks T B (values ids))
    by (unfold rows; now rewrite Hs).
  split; [|split].
  - unfold call, call_inputs_embeds, embedding_call.
    cbn [inputs_embeds input_ids attention_mask getitem bind].
    change (shape (_embedding default_model)) with [5; 2].
    rewrite (gather_default _ Hvalid). cbn [bind inputs_embeds getitem].
    unfold multiply; cbn [shape values].
    destruct (list_eq_dec Nat.eq_dec (shape ids ++ [2]) (shape ids ++ [2]))
      as [_|Hne]; [|now destruct Hne].
    cbn [bind]. rewrite zip_with_diag, map_flat_map.
    unfold reduce_sum_axis1; cbn [shape values]. rewrite Hs.
    cbn [app numel fold_right bind]. rewrite Nat.mul_1_r.
    rewrite (chunks_of_blocks _ 2) by exact He.
    rewrite (dense_call_rank2 _ _ B 2 3) by reflexivity.
    cbn [bind]. do 2 f_equal. f_equal.
    unfold rows at 2; cbn [shape values].
    rewrite <- Hrows, flat_map_map.
    assert (Hsum : forall ts, In ts (rows ids) ->
              fold_left (zip_with add) (chunks 2 T (flat_map (fun t => squared (e t)) ts))
                        (repeat zero 2)
              = sum_of_squares ts).
    { intros ts Hin.
      assert (Hts : length ts = T /\ Forall (fun t => valid_id t = true) ts).
      { rewrite Hrows in Hin. split.
        - pose proof (chunks_all_length T B (values ids)) as Hall.
          rewrite Forall_forall in Hall. apply Hall; [lia | assumption].
        - pose proof (chunks_Forall _ T B _ Hv) as Hall.
          rewrite Forall_forall in Hall. now apply Hall. }
      destruct Hts as [<- Hts].
      rewrite chunks_flat_map; [reflexivity|].
      eapply Forall_impl; [|exact Hts]. intros t Ht.
      unfold squared, SimpleTestModel.squared. now rewrite length_map, e_length. }
    erewrite (flat_map_ext_in _ sum_of_squares (rows ids));
      [|intros ts Hin; exact (Hsum ts Hin)].
    rewrite <- (chunks_length T B (values ids)) at 1. rewrite <- Hrows.
    rewrite chunks_flat_map.
    + rewrite flat_map_map. apply flat_map_ext_in. intros ts Hin.
      apply vec_mat_default, sum_of_squares_length.
      rewrite Hrows in Hin.
      pose proof (chunks_Forall _ T B _ Hv) as Hall.
      rewrite Forall_forall in Hall. now apply Hall.
    + rewrite Hrows. apply Forall_forall. intros ts Hin.
      apply sum_of_squares_length.
      pose proof (chunks_Forall _ T B _ Hv) as Hall.
      rewrite Forall_forall in Hall. now apply Hall.
  - rewrite Hrows. apply chunks_length.
  - apply Forall_forall. intros ts _. reflexivity.
Qed.

(** C10. [call] returns the same result whatever the attention mask
    holds: for one [input_ids] (or one [inputs_embeds], when given) two
    inputs that differ only in [attention_mask] give identical logits,
    and with [inputs_embeds] given neither the mask nor [input_ids] is
    read at all. *)
Theorem C10_call_ignores_attention_mask
        (Mask : Type) (self : model num)
        (ids ids' : option (tensor Z)) (embeds : option (tensor num))
        (z : tensor num) (mask1 mask2 : tensor Mask)
        (omask1 omask2 : option (tensor Mask)) (training : bool) :
  call zero add mul self
       {| input_ids := ids; attention_mask := Some mask1;
          inputs_embeds := embeds |} training
  = call zero add mul self
         {| input_ids := ids; attention_mask := Some mask2;
            inputs_embeds := embeds |} training
  /\ call zero add mul self
          {| input_ids := ids; attention_mask := omask1;
             inputs_embeds := Some z |} training
     = call zero add mul self
            {| input_ids := ids'; attention_mask := omask2;
               inputs_embeds := Some z |} training.
Proof.
  split; [|reflexivity].
  unfold call, call_inputs_embeds. cbn [inputs_embeds input_ids attention_mask].
  destruct embeds as [z0|]; [reflexivity|].
  destruct ids as [t|]; [|reflexivity].
  cbn [getitem bind].
  destruct (embedding_call (_embedding self) t) as [err|z1]; reflexivity.
Qed.

End Carrier.

Example call_sample_batch :
  call 0%Z Z.add Z.mul (default_model 0%Z 1%Z)
       {| input_ids := Some sample_ids; attention_mask := Some sample_mask;
          inputs_embeds := None |} false
  = inr {| logits := mk [2; 3] [2; 1; 3; 0; 2; 2]%Z |}.
Proof. reflexivity. Qed.

Example call_sample_embeds :
  call 0%Z Z.add Z.mul (default_model 0%Z 1%Z)
       {| input_ids := None; attention_mask := @None (tensor bool);
          inputs_embeds := Some (mk [1; 2; 2] [2; 0; 1; 3]%Z) |} false
  = inr {| logits := mk [1; 3] [5; 9; 14]%Z |}.
Proof. reflexivity. Qed.

Example call_rejects_unknown_token :
  call 0%Z Z.add Z.mul (default_model 0%Z 1%Z)
       {| input_ids := Some (mk [1; 2] [3; 7]%Z); attention_mask := Some sample_mask;
          inputs_embeds := None |} false
  = inl (InvalidIndex 7).
Proof. reflexivity. Qed.

Lemma C8_witness :
  shape sample_ids = [2; 3]
  /\ well_formed sample_ids
  /\ forallb valid_id (values sample_ids) = true
  /\ call 0%Z Z.add Z.mul (default_model 0%Z 1%Z)
          {| input_ids := Some sample_ids; attention_mask := Some sample_mask;
             inputs_embeds := None |} false
     = inr {| logits := mk [2; 3]
                           (flat_map (spec_logits 0%Z 1%Z Z.add Z.mul)
                                     (rows sample_ids)) |}.
Proof.
  split; [reflexivity|]. split; [reflexivity|]. split; [reflexivity|].
  apply (C8_call_is_sum_of_squares_times_kernel
           Z 0%Z 1%Z Z.add Z.mul bool sample_ids sample_mask false 2 3);
    reflexivity.
Defined.

End SimpleTestModelFacts.

Module SplitFacts.
Import Split Dataset.

Local Open Scope string_scope.

Example from_spec_train :
  from_spec "train[:80%]"
  = Some {| splitname := "train"; from_ := None; to := Some 80%Z; unit := Percent |}.
Proof. reflexivity. Qed.

Example from_spec_valid :
  from_spec "train[80%:]"
  = Some {| splitname := "train"; from_ := Some 80%Z; to := None; unit := Percent |}.
Proof. reflexivity. Qed.

Example from_spec_test :
  from_spec "validation"
  = Some {| splitname := "validation"; from_ := None; to := None; unit := Abs |}.
Proof. reflexivity. Qed.

Example from_spec_absolute :
  from_spec "test[-10:25]"
  = Some {| splitname := "test"; from_ := Some (-10)%Z; to := Some 25%Z; unit := Abs |}.
Proof. reflexivity. Qed.

Example from_spec_rejects :
  map from_spec ["train[80%"; " train[:80%]"; "train[:80%] "; "train [:80%]"]
  = [None; None; None; None].
Proof. reflexivity. Qed.

Example pct_to_abs_closest_ties :
  map (pct_to_abs_closest 50) [1; 3; 5; 7]%Z = [0; 2; 2; 4]%Z.
Proof. reflexivity. Qed.

(** The 80% boundary lies inside the split. *)
Lemma boundary_80_in_range (n : Z) :
  (0 <= n)%Z ->
  (0 <= pct_to_abs_closest 80 n <= n)%Z.
Proof.
  intros Hn. unfold pct_to_abs_closest.
  pose proof (Z.div_mod (80 * n) 100 ltac:(lia)) as Hdm.
  pose proof (Z.mod_pos_bound (80 * n) 100 ltac:(lia)) as Hr.
  destruct (Z.ltb_spec (2 * ((80 * n) mod 100)) 100);
    [|destruct (Z.ltb_spec 100 (2 * ((80 * n) mod 100)));
      [|destruct (Z.even ((80 * n) / 100))]]; lia.
Qed.

Section Sizes.
Variable sizes : name2len.
Variables n m : nat.
Hypothesis train_size : lookup "train" sizes = Some n.
Hypothesis validation_size : lookup "validation" sizes = Some m.

#[local] Abbreviation boundary := (boundary n).

Lemma boundary_le : boundary <= n.
Proof.
  unfold Dataset.boundary.
  pose proof (boundary_80_in_range (Z.of_nat n)). lia.
Qed.

Lemma examples_train :
  examples "train[:80%]" sizes = Some (map (pair "train") (seq 0 boundary)).
Proof.
  unfold examples. rewrite from_spec_train. unfold to_absolute.
  cbn [splitname from_ to unit]. rewrite train_size.
  pose proof (boundary_80_in_range (Z.of_nat n) ltac:(lia)) as Hb.
  change (Z.abs 0) with 0%Z.
  destruct (Z.ltb_spec (Z.of_nat n) 0); [lia|].
  destruct (Z.ltb_spec (Z.of_nat n) (Z.abs (pct_to_abs_closest 80 (Z.of_nat n))));
    [lia|].
  cbn [orb]. change (0 <? 0)%Z with false.
  destruct (Z.ltb_spec (pct_to_abs_closest 80 (Z.of_nat n)) 0); [lia|].
  unfold Dataset.boundary. now rewrite Nat.sub_0_r.
Qed.

Lemma examples_valid :
  examples "train[80%:]" sizes
  = Some (map (pair "train") (seq boundary (n - boundary))).
Proof.
  unfold examples. rewrite from_spec_valid. unfold to_absolute.
  cbn [splitname from_ to unit]. rewrite train_size.
  pose proof (boundary_80_in_range (Z.of_nat n) ltac:(lia)) as Hb.
  destruct (Z.ltb_spec (Z.of_nat n) (Z.abs (pct_to_abs_closest 80 (Z.of_nat n))));
    [lia|].
  destruct (Z.ltb_spec (Z.of_nat n) (Z.abs (Z.of_nat n))); [lia|].
  cbn [orb].
  destruct (Z.ltb_spec (pct_to_abs_closest 80 (Z.of_nat n)) 0); [lia|].
  destruct (Z.ltb_spec (Z.of_nat n) 0); [lia|].
  unfold Dataset.boundary. now rewrite Nat2Z.id.
Qed.

Lemma examples_test :
  examples "validation" sizes = Some (whole "validation" m).
Proof.
  unfold examples. rewrite from_spec_test. unfold to_absolute.
  cbn [splitname from_ to unit]. rewrite validation_size.
  change (Z.abs 0) with 0%Z.
  destruct (Z.ltb_spec (Z.of_nat m) 0); [lia|].
  destruct (Z.ltb_spec (Z.of_nat m) (Z.abs (Z.of_nat m))); [lia|].
  cbn [orb]. change (0 <? 0)%Z with false.
  destruct (Z.ltb_spec (Z.of_nat m) 0); [lia|].
  unfold whole. now rewrite Nat2Z.id, Nat.sub_0_r.
Qed.

Lemma train_valid_cover :
  (map (pair "train") (seq 0 boundary)
   ++ map (pair "train") (seq boundary (n - boundary)))%list
  = whole "train" n.
Proof.
  unfold whole. rewrite <- map_app, <- seq_app. f_equal. f_equal.
  pose proof boundary_le. lia.
Qed.

Lemma train_valid_disjoint (x : string * nat) :
  In x (map (pair "train") (seq 0 boundary)) ->
  In x (map (pair "train") (seq boundary (n - boundary))) -> False.
Proof.
  rewrite !in_map_iff. intros [i [<- Hi]] [j [Hj Hj']].
  inversion Hj; subst j. rewrite in_seq in Hi, Hj'. lia.
Qed.

(** C7. Each adapter (CoLA, MRPC) carries the three split strings
    ['train[:80%]'], ['train[80%:]'] and ['validation']; whatever the
    sizes of the raw splits, the first two select disjoint sets of
    examples of the raw train split that together are all of it, in
    order, and the third selects the whole raw validation split. *)
Theorem C7_train_and_valid_partition_raw_train (d : descriptor) :
  In d adapters ->
  _split_train d = "train[:80%]"
  /\ _split_valid d = "train[80%:]"
  /\ _split_test d = "validation"
  /\ exists train valid,
      examples (_split_train d) sizes = Some train
      /\ examples (_split_valid d) sizes = Some valid
      /\ (train ++ valid)%list = whole "train" n
      /\ (forall x, In x train -> In x valid -> False)
      /\ examples (_split_test d) sizes = Some (whole "validation" m).
Proof.
  intros [<-|[<-|[]]]; cbn [_split_train _split_valid _split_test CoLADataset MRPCDataset];
    (repeat split;
     eexists; eexists;
     repeat split;
     [apply examples_train | apply examples_valid | apply train_valid_cover
     | apply train_valid_disjoint | apply examples_test]).
Qed.

End Sizes.

Example cola_train_size :
  option_map (@length _) (examples (_split_train CoLADataset) small_sizes) = Some 10.
Proof. vm_compute. reflexivity. Qed.

Example cola_valid_size :
  option_map (@length _) (examples (_split_valid CoLADataset) small_sizes) = Some 3.
Proof. vm_compute. reflexivity. Qed.

Lemma C7_witness :
  In CoLADataset adapters
  /\ lookup "train" small_sizes = Some 13
  /\ lookup "validation" small_sizes = Some 4
  /\ _split_test CoLADataset = "validation".
Proof.
  split; [now left|]. split; [reflexivity|]. split; [reflexivity|].
  apply (@C7_train_and_valid_partition_raw_train small_sizes 13 4
           eq_refl eq_refl CoLADataset).
  now left.
Defined.

End SplitFacts.

Module JSONFacts.
Import JSON.

Local Open Scope string_scope.

#[local] Abbreviation len := String.length.

Lemma skip_ws_le (s : string) : len (skip_ws s) <= len s.
Proof.
  induction s as [|c s IH]; simpl; [lia|].
  destruct (is_ws c); simpl; lia.
Qed.

Lemma skip_ws_cons (s : string) (c : ascii) (s' : string) :
  skip_ws s = String c s' -> len s' < len s.
Proof.
  intros H. pose proof (skip_ws_le s) as Hle. rewrite H in Hle. simpl in Hle. lia.
Qed.

Lemma strip_prefix_length (p s rest : string) :
  strip_prefix p s = Some rest -> len rest + len p = len s.
Proof.
  revert s; induction p as [|a p IH]; intros [|b s]; simpl; try discriminate.
  - intros [= <-]; simpl; lia.
  - intros [= <-]; simpl; lia.
  - destruct (Ascii.eqb a b); [|discriminate]. intros H. apply IH in H. lia.
Qed.

Lemma push_shorter (pre : string) (o : outcome string) (s' s : string) :
  shorter o s' -> len s' <= len s -> shorter (push pre o) s.
Proof.
  destruct o; simpl; auto; lia.
Qed.

Lemma scanstring_shorter_upto (n : nat) (s : string) :
  len s <= n -> shorter (scanstring s) s.
Proof.
  revert s; induction n as [|n IH]; intros s Hn.
  - destruct s; [exact I | simpl in Hn; lia].
  - destruct s as [|c s1]; [exact I|].
    assert (Hrec : forall s', len s' <= len s1 ->
                              shorter (push (String c EmptyString) (scanstring s'))
                                      (String c s1)
                              /\ forall pre, shorter (push pre (scanstring s'))
                                                     (String c s1)).
    { intros s' Hs'.
      assert (shorter (scanstring s') s') by (apply IH; simpl in Hn; lia).
      split; [|intros pre]; (eapply push_shorter; [eassumption | simpl; lia]). }
    simpl scanstring.
    destruct (isc c 34); [simpl; lia|].
    destruct (isc c 92).
    + destruct s1 as [|esc s2]; [exact I|].
      destruct (isc esc 117).
      * destruct s2 as [|h1 [|h2 [|h3 [|h4 [|b s3]]]]]; try exact I.
        destruct (hex4 h1 h2 h3 h4) as [uni|]; [|exact I].
        destruct (is_high_surrogate uni); [|apply Hrec; simpl; lia].
        destruct s3 as [|u [|k1 [|k2 [|k3 [|k4 [|c7 s4]]]]]];
          try (apply Hrec; simpl; lia).
        destruct (isc b 92 && isc u 117); [|apply Hrec; simpl; lia].
        destruct (hex4 k1 k2 k3 k4) as [uni2|]; [|exact I].
        destruct (is_low_surrogate uni2); apply Hrec; simpl; lia.
      * destruct (backslash esc); [|exact I]. apply Hrec; simpl; lia.
    + destruct (nat_of_ascii c <? 32)%nat; [exact I|]. apply Hrec; lia.
Qed.

Lemma scanstring_shorter (s : string) : shorter (scanstring s) s.
Proof. now apply (scanstring_shorter_upto (len s)). Qed.

Lemma take_digits_le (s a b : string) :
  take_digits s = (a, b) -> len b <= len s.
Proof.
  revert a b; induction s as [|c s IH]; simpl; intros a b.
  - intros [= <- <-]; simpl; lia.
  - destruct (is_digit c).
    + destruct (take_digits s) as [a' b'] eqn:E. intros [= <- <-].
      specialize (IH _ _ eq_refl). lia.
    + intros [= <- <-]; simpl; lia.
Qed.

Lemma match_integer_shorter (s : string) (neg : bool) (i rest : string) :
  match_integer s = Some (neg, i, rest) -> len rest < len s.
Proof.
  unfold match_integer.
  assert (H : forall s1, len s1 <= len s ->
              match s1 with
              | String d s2 =>
                  if isc d 48 then Some (neg, String d EmptyString, s2)
                  else if is_digit d
                       then let (ds, s3) := take_digits s2 in Some (neg, String d ds, s3)
                       else None
              | EmptyString => None
              end = Some (neg, i, rest) -> len rest < len s).
  { intros [|d s2] Hle; [discriminate|]. simpl in Hle.
    destruct (isc d 48); [intros [= <- <-]; lia|].
    destruct (is_digit d); [|discriminate].
    destruct (take_digits s2) as [ds s3] eqn:E. intros [= <- <-].
    apply take_digits_le in E. lia. }
  destruct s as [|c s']; [discriminate|].
  destruct (isc c 45).
  - intros Hm. destruct s' as [|d s2]; [discriminate|].
    destruct (isc d 48); [injection Hm as _ _ <-; simpl; lia|].
    destruct (is_digit d); [|discriminate].
    destruct (take_digits s2) as [ds s3] eqn:E. injection Hm as _ _ <-.
    apply take_digits_le in E. simpl; lia.
  - intros Hm. destruct (isc c 48); [injection Hm as _ _ <-; simpl; lia|].
    destruct (is_digit c); [|discriminate].
    destruct (take_digits s') as [ds s3] eqn:E. injection Hm as _ _ <-.
    apply take_digits_le in E. simpl; lia.
Qed.

Lemma match_frac_le (s f rest : string) :
  match_frac s = (f, rest) -> len rest <= len s.
Proof.
  unfold match_frac. destruct s as [|c s1]; [intros [= <- <-]; lia|].
  destruct (isc c 46); [|intros [= <- <-]; lia].
  destruct (take_digits s1) as [[|d ds] s2] eqn:E; intros [= <- <-]; [lia|].
  apply take_digits_le in E. simpl; lia.
Qed.

Lemma match_exp_le (s e rest : string) :
  match_exp s = (e, rest) -> len rest <= len s.
Proof.
  unfold match_exp. destruct s as [|c s1]; [intros [= <- <-]; lia|].
  destruct (isc c 101 || isc c 69); [|intros [= <- <-]; lia].
  destruct s1 as [|g s'].
  - simpl. intros [= <- <-]; simpl; lia.
  - destruct (isc g 45 || isc g 43).
    + destruct (take_digits s') as [[|d ds] s3] eqn:E; intros [= <- <-]; [lia|].
      apply take_digits_le in E. simpl; lia.
    + destruct (take_digits (String g s')) as [[|d ds] s3] eqn:E;
        intros [= <- <-]; [lia|].
      apply take_digits_le in E. simpl in *; lia.
Qed.

Lemma match_number_shorter (max_str_digits : nat) (s : string) (number : outcome json) :
  match_number max_str_digits s = Some number -> shorter number s.
Proof.
  unfold match_number.
  destruct (match_integer s) as [[[neg i] s1]|] eqn:Ei; [|discriminate].
  destruct (match_frac s1) as [f s2] eqn:Ef.
  destruct (match_exp s2) as [e s3] eqn:Ee.
  apply match_integer_shorter in Ei. apply match_frac_le in Ef.
  apply match_exp_le in Ee.
  destruct f, e; try destruct (too_long max_str_digits i);
    intros [= <-]; simpl; try exact I; lia.
Qed.

Lemma constant_shorter (lit : string) (v : json) (s : string) (o : outcome json) :
  0 < len lit -> shorter o s -> shorter (constant lit v s o) s.
Proof.
  intros Hlit Ho. unfold constant.
  destruct (strip_prefix lit s) as [rest|] eqn:E; [|assumption].
  apply strip_prefix_length in E. simpl. lia.
Qed.

(** With fuel above twice the length of the text, no routine of the
    scanner exhausts it, and each consumes at least one character. *)
Lemma scanner_has_fuel (max_str_digits fuel : nat) :
  (forall depth s, 2 * len s < fuel ->
                   shorter (scan_once max_str_digits fuel depth s) s)
  /\ (forall depth pairs s, 2 * len s + 1 < fuel ->
          shorter (object_members max_str_digits fuel depth pairs s) s)
  /\ (forall depth items s, 2 * len s + 1 < fuel ->
          shorter (array_items max_str_digits fuel depth items s) s).
Proof.
  induction fuel as [|fuel (IHv & IHo & IHa)];
    [repeat split; intros; lia|].
  split; [|split].
  - intros depth [|c s1] Hf; [exact I|]. cbn [len] in Hf.
    cbn [scan_once].
    destruct (isc c 34).
    { pose proof (scanstring_shorter s1) as Hs.
      destruct (scanstring s1); simpl in *; auto; lia. }
    destruct (isc c 123).
    { destruct depth as [|depth]; [exact I|].
      destruct (skip_ws s1) as [|c' s2] eqn:Ews; [exact I|].
      apply skip_ws_cons in Ews.
      destruct (isc c' 125); [simpl; lia|].
      destruct (isc c' 34); [|exact I].
      pose proof (IHo depth [] s2 ltac:(lia)) as Ho.
      destruct (object_members max_str_digits fuel depth [] s2);
        simpl in *; auto; lia. }
    destruct (isc c 91).
    { destruct depth as [|depth]; [exact I|].
      pose proof (skip_ws_le s1) as Hle.
      destruct (skip_ws s1) as [|c' s2] eqn:Ews; [exact I|].
      destruct (isc c' 93); [simpl in *; lia|].
      pose proof (IHa depth [] (String c' s2) ltac:(lia)) as Ha.
      destruct (array_items max_str_digits fuel depth [] (String c' s2));
        simpl in *; auto; lia. }
    repeat (apply constant_shorter; [simpl; lia|]).
    destruct (match_number max_str_digits (String c s1)) as [number|] eqn:En.
    { now apply match_number_shorter in En. }
    repeat (apply constant_shorter; [simpl; lia|]). exact I.
  - intros depth pairs s Hf. cbn [object_members].
    pose proof (scanstring_shorter s) as Hs.
    destruct (scanstring s) as [key s1| | |]; simpl in Hs; auto.
    destruct (skip_ws s1) as [|c s2] eqn:E1; [exact I|].
    apply skip_ws_cons in E1.
    destruct (isc c 58); [|exact I].
    pose proof (skip_ws_le s2) as Hle2.
    pose proof (IHv depth (skip_ws s2) ltac:(lia)) as Hv.
    destruct (scan_once max_str_digits fuel depth (skip_ws s2)) as [value s3| | |];
      simpl in Hv; auto.
    destruct (skip_ws s3) as [|c' s4] eqn:E3; [exact I|].
    apply skip_ws_cons in E3.
    destruct (isc c' 125); [simpl; lia|].
    destruct (isc c' 44); [|exact I].
    destruct (skip_ws s4) as [|c'' s5] eqn:E4; [exact I|].
    apply skip_ws_cons in E4.
    destruct (isc c'' 34); [|exact I].
    pose proof (IHo depth (pairs ++ [(key, value)])%list s5 ltac:(lia)) as Ho.
    destruct (object_members max_str_digits fuel depth _ s5); simpl in *; auto; lia.
  - intros depth items s Hf. cbn [array_items].
    pose proof (IHv depth s ltac:(lia)) as Hv.
    destruct (scan_once max_str_digits fuel depth s) as [value s1| | |];
      simpl in Hv; auto.
    destruct (skip_ws s1) as [|c s2] eqn:E1; [exact I|].
    apply skip_ws_cons in E1.
    destruct (isc c 93); [simpl; lia|].
    destruct (isc c 44); [|exact I].
    pose proof (skip_ws_le s2) as Hle2.
    pose proof (IHa depth (items ++ [value])%list (skip_ws s2) ltac:(lia)) as Ha.
    destruct (array_items max_str_digits fuel depth _ (skip_ws s2));
      simpl in *; auto; lia.
Qed.

(** [json.load] always ends: with a value, a decode error or another
    exception. *)
Lemma load_never_exhausted (py : interpreter) (s : string) : load py s <> Exhausted.
Proof.
  unfold load, decode. destruct (has_bom s); [discriminate|].
  pose proof (skip_ws_le s) as Hle.
  destruct (scanner_has_fuel (int_max_str_digits py) (S (2 * len s))) as [Hv _].
  specialize (Hv (recursion_depth py) (skip_ws s) ltac:(lia)).
  destruct (scan_once _ _ _ (skip_ws s)) as [obj rest| | |]; simpl in Hv;
    [|discriminate|discriminate|contradiction].
  destruct (skip_ws rest); discriminate.
Qed.

(** A value is returned exactly when the text is one value between
    blanks; anything else after the value is the error "Extra data". *)
Lemma load_value_iff (py : interpreter) (s : string) (v : json) :
  load py s = Value v
  <-> has_bom s = false
      /\ exists rest,
          scan_once (int_max_str_digits py) (S (2 * len s)) (recursion_depth py)
                    (skip_ws s) = Ok v rest
          /\ skip_ws rest = EmptyString.
Proof.
  unfold load, decode. destruct (has_bom s); [split; [discriminate|intros [? _]; discriminate]|].
  destruct (scan_once _ _ _ (skip_ws s)) as [obj rest| | |].
  - destruct (skip_ws rest) eqn:E; split.
    + intros [= ->]. split; [reflexivity|]. now exists rest.
    + intros [_ [rest' [[= -> <-] _]]]. reflexivity.
    + discriminate.
    + intros [_ [rest' [[= -> <-] H]]]. rewrite E in H. discriminate.
  - split; [discriminate|]. intros [_ [rest' [H _]]]. discriminate.
  - split; [discriminate|]. intros [_ [rest' [H _]]]. discriminate.
  - split; [discriminate|]. intros [_ [rest' [H _]]]. discriminate.
Qed.

Lemma load_extra_data (py : interpreter) (s : string) (v : json) (rest : string) :
  has_bom s = false ->
  scan_once (int_max_str_digits py) (S (2 * len s)) (recursion_depth py)
            (skip_ws s) = Ok v rest ->
  skip_ws rest <> EmptyString ->
  load py s = JSONDecodeError "Extra data".
Proof.
  intros Hb Hs Hr. unfold load, decode. rewrite Hb, Hs.
  destruct (skip_ws rest); [now destruct Hr | reflexivity].
Qed.

(** The scanner raises [RecursionError] on a text that begins with more
    opening brackets than the calls it is allowed. *)
Lemma scan_once_deep (max_str_digits depth : nat) :
  forall fuel,
    2 * depth < fuel ->
    scan_once max_str_digits fuel depth (repeat_string "[" (S depth))
    = Raise RecursionError.
Proof.
  induction depth as [|depth IH]; intros fuel Hf.
  - destruct fuel as [|fuel]; [lia|]. reflexivity.
  - destruct fuel as [|fuel]; [lia|].
    change (repeat_string "[" (S (S depth)))
      with (String "["%char (repeat_string "[" (S depth))).
    cbn [scan_once]. change (isc "["%char 34) with false.
    change (isc "["%char 123) with false. change (isc "["%char 91) with true.
    cbv iota.
    change (skip_ws (repeat_string "[" (S depth)))
      with (String "["%char (repeat_string "[" depth)).
    change (isc "["%char 93) with false. cbv iota.
    destruct fuel as [|fuel]; [lia|]. cbn [array_items].
    change (String "["%char (repeat_string "[" depth))
      with (repeat_string "[" (S depth)).
    rewrite IH by lia. reflexivity.
Qed.

Lemma repeat_string_length (n : nat) : len (repeat_string "[" n) = n.
Proof.
  induction n as [|n IH]; [reflexivity|].
  change (repeat_string "[" (S n)) with (String "["%char (repeat_string "[" n)).
  cbn [len]. now rewrite IH.
Qed.

(** Whatever the recursion limit, a text nested one level deeper is no
    decode error: [json.load] raises [RecursionError] on it. *)
Lemma load_deep (py : interpreter) :
  load py (repeat_string "[" (S (recursion_depth py))) = Uncaught RecursionError.
Proof.
  unfold load.
  change (has_bom (repeat_string "[" (S (recursion_depth py)))) with false.
  cbv iota. unfold decode.
  change (skip_ws (repeat_string "[" (S (recursion_depth py))))
    with (repeat_string "[" (S (recursion_depth py))).
  rewrite scan_once_deep; [reflexivity|].
  rewrite repeat_string_length. lia.
Qed.

End JSONFacts.

Module FrameFacts.
Import JSON Frame ListFacts.

Local Open Scope string_scope.

Lemma dict_set_fresh {A} (key : string) (value : A) (d : list (string * A)) :
  ~ In key (map fst d) -> dict_set key value d = (d ++ [(key, value)])%list.
Proof.
  induction d as [|[k v] d IH]; intros Hn; [reflexivity|].
  cbn [dict_set]. destruct (String.eqb_spec k key) as [->|Hk].
  - destruct Hn. now left.
  - cbn [app]. rewrite IH; [reflexivity|]. intros Hin. apply Hn. now right.
Qed.

(** Assigning fresh, distinct keys one after the other appends them. *)
Lemma fold_dict_set_fresh {A} (kvs d : list (string * A)) :
  NoDup (map fst kvs) ->
  (forall k, In k (map fst kvs) -> ~ In k (map fst d)) ->
  fold_left (fun d kv => dict_set (fst kv) (snd kv) d) kvs d = (d ++ kvs)%list.
Proof.
  revert d; induction kvs as [|[k v] kvs IH]; intros d Hnd Hfresh.
  - now rewrite app_nil_r.
  - cbn [fold_left fst snd]. cbn [map fst] in Hnd. inversion Hnd as [|? ? Hk Hnd']; subst.
    rewrite dict_set_fresh by (apply Hfresh; now left).
    rewrite IH; [now rewrite <- app_assoc| assumption |].
    intros k' Hk' Hin. rewrite map_app, in_app_iff in Hin.
    destruct Hin as [Hin|[<-|[]]].
    + apply (Hfresh k'); [now right | assumption].
    + now apply Hk.
Qed.

Lemma normalise_cell (v : json) (key : string) (d : row) (sep : string) :
  is_dict v = false -> _normalise_json v key d sep = dict_set key v d.
Proof. destruct v; (discriminate || reflexivity). Qed.

Lemma prefixed_keys (prefix : string) (fields : list (string * json)) :
  map fst (prefixed prefix fields) = map (String.append prefix) (map fst fields).
Proof.
  unfold prefixed. rewrite !map_map. reflexivity.
Qed.

Lemma append_injective (p a b : string) :
  String.append p a = String.append p b -> a = b.
Proof.
  induction p as [|c p IH]; simpl; [auto|]. intros [= H]. auto.
Qed.

Lemma NoDup_prefixed (prefix : string) (fields : list (string * json)) :
  NoDup (map fst fields) -> NoDup (map fst (prefixed prefix fields)).
Proof.
  rewrite prefixed_keys. generalize (map fst fields) as ks.
  induction 1 as [|k ks Hk Hnd IH]; simpl; constructor; [|assumption].
  rewrite in_map_iff. intros [k' [He Hin]].
  apply append_injective in He. now subst.
Qed.

(** The cells of a flat dictionary under a non-empty path. *)
Lemma normalise_flat_fields (fields : list (string * json)) (d : row) :
  Forall (fun kv => is_dict (snd kv) = false) fields ->
  _normalise_json (JObject fields) "args" d "."
  = fold_left (fun d kv => dict_set (fst kv) (snd kv) d) (prefixed "args." fields) d.
Proof.
  cbn [_normalise_json]. intros Hf; revert d.
  induction Hf as [|[k v] fields Hv Hf IH]; intros d; [reflexivity|].
  cbn [prefixed map fold_left fst snd]. cbn [snd] in Hv.
  change (String.eqb "args" EmptyString) with false. cbv iota.
  rewrite (normalise_cell _ _ _ _ Hv).
  apply IH.
Qed.

Lemma get_prefixed_args (fields : list (string * json)) :
  get (prefixed "args." fields) "results" = None.
Proof.
  induction fields as [|[k v] fields IH]; [reflexivity|]. exact IH.
Qed.

Lemma remove_prefixed_args (fields : list (string * json)) :
  remove "results" (prefixed "args." fields) = prefixed "args." fields.
Proof.
  induction fields as [|[k v] fields IH]; [reflexivity|].
  unfold remove, prefixed in *. simpl. f_equal. exact IH.
Qed.

(** The row [json_normalize] makes of one record. *)
Lemma normalise_record (r : result_record) :
  flat_fields (args r) ->
  _normalise_json_ordered
    [("args", JObject (args r)); ("results", JArray (map JObject (readings r)))] "."
  = ("results"%string, JArray (map JObject (readings r))) :: prefixed "args." (args r).
Proof.
  intros [Hnd Hflat]. unfold _normalise_json_ordered.
  cbn [filter is_dict snd negb].
  change (_normalise_json (JObject [("args"%string, JObject (args r))]) EmptyString [] ".")
    with (_normalise_json (JObject (args r)) "args" [] ".").
  rewrite (normalise_flat_fields _ _ Hflat).
  rewrite (fold_dict_set_fresh (prefixed "args." (args r)) []);
    [|now apply NoDup_prefixed | intros k _ []].
  cbn [app].
  rewrite (fold_dict_set_fresh (prefixed "args." (args r)));
    [reflexivity | now apply NoDup_prefixed |].
  intros k Hk [Heq|[]]. cbn [fst] in Heq. subst k.
  rewrite prefixed_keys, in_map_iff in Hk. destruct Hk as [k [Hk _]]. discriminate.
Qed.

(** The row [json_normalize] makes of one reading. *)
Lemma normalise_reading (fields : list (string * json)) :
  flat_fields fields -> _normalise_json_ordered fields "." = fields.
Proof.
  intros [_ Hflat]. unfold _normalise_json_ordered.
  rewrite filter_none by exact Hflat.
  rewrite filter_all; [reflexivity|].
  eapply Forall_impl; [|exact Hflat]. intros kv Hkv. cbv beta. now rewrite Hkv.
Qed.

Lemma concat_axis1_map {A} (f g : A -> row) (l : list A) :
  concat_axis1 (map f l) (map g l) = map (fun a => (f a ++ g a)%list) l.
Proof.
  induction l as [|a l IH]; [reflexivity|]. cbn [map concat_axis1]. now rewrite IH.
Qed.

Lemma explode_record_row (r : result_record) :
  explode_row "results" (record_row r)
  = match readings r with
    | [] => [prefixed "args." (args r)]
    | _ => map (fun fields => ("results"%string, JObject fields) :: prefixed "args." (args r))
               (readings r)
    end.
Proof.
  unfold explode_row, record_row. cbn [get String.eqb Ascii.eqb Bool.eqb].
  destruct (readings r) as [|fields rest]; cbn [map].
  - cbn [remove filter fst String.eqb Ascii.eqb Bool.eqb negb].
    change (filter _ (prefixed "args." (args r)))
      with (remove "results" (prefixed "args." (args r))).
    now rewrite remove_prefixed_args.
  - cbn [dict_set String.eqb Ascii.eqb Bool.eqb]. f_equal.
    now rewrite map_map.
Qed.

Lemma final_rows_of_record (r : result_record) :
  Forall flat_fields (readings r) ->
  map (fun row => (remove "results" row
                   ++ prefixed "results." (reading_row (get row "results")))%list)
      (explode_row "results" (record_row r))
  = record_rows r
  /\ Forall (fun row => _simple_json_normalize (get row "results") "."
                        = Some (reading_row (get row "results")))
            (explode_row "results" (record_row r)).
Proof.
  intros Hr. rewrite explode_record_row. unfold record_rows, spec_rows.
  destruct (readings r) as [|fields rest] eqn:E.
  - cbn [map]. rewrite remove_prefixed_args, get_prefixed_args.
    cbn [reading_row prefixed map]. rewrite app_nil_r. split; [reflexivity|].
    constructor; [|constructor]. now rewrite get_prefixed_args.
  - rewrite <- E in *. clear E. split.
    + rewrite map_map. apply map_ext. intros f.
      cbn [remove filter fst String.eqb Ascii.eqb Bool.eqb negb get reading_row].
      change (filter _ (prefixed "args." (args r)))
        with (remove "results" (prefixed "args." (args r))).
      now rewrite remove_prefixed_args.
    + rewrite Forall_map. eapply Forall_impl; [|exact Hr].
      intros f Hf. cbn [get String.eqb Ascii.eqb Bool.eqb _simple_json_normalize reading_row].
      now rewrite normalise_reading.
Qed.

Lemma traverse_map_map {A B C} (f : B -> option C) (h : A -> B) (g : A -> C)
      (l : list A) :
  Forall (fun a => f (h a) = Some (g a)) l ->
  traverse f (map h l) = Some (map g l).
Proof.
  induction 1 as [|a l Ha Hl IH]; [reflexivity|].
  cbn [traverse map]. now rewrite Ha, IH.
Qed.

(** The frame the three lines make of a list of well-formed records. *)
Lemma normalize_and_explode_records (records : list result_record) :
  records <> [] ->
  Forall well_formed records ->
  normalize_and_explode (map to_json records)
  = Some (flat_map record_rows records).
Proof.
  intros Hne Hwf. unfold normalize_and_explode, json_normalize.
  rewrite map_map.
  rewrite (traverse_map_map _ _ record_row).
  2:{ eapply Forall_impl; [|exact Hwf]. intros r [Ha _].
      cbn [to_json _simple_json_normalize]. now rewrite normalise_record. }
  unfold explode.
  assert (Hcol : has_column (map record_row records) "results" = true).
  { destruct records as [|r records]; [now destruct Hne | reflexivity]. }
  rewrite Hcol. unfold pop.
  rewrite (traverse_map_map _ _ (fun row => reading_row (get row "results"))).
  2:{ apply Forall_flat_map. rewrite Forall_map.
      eapply Forall_impl; [|exact Hwf]. intros r [_ Hr].
      now apply final_rows_of_record. }
  unfold add_prefix. rewrite map_map.
  change (fun x : row => map (fun kv => ("results." ++ fst kv, snd kv))
                             (reading_row (get x "results")))
    with (fun x : row => prefixed "results." (reading_row (get x "results"))).
  rewrite concat_axis1_map, map_flat_map, flat_map_map.
  f_equal. apply flat_map_ext_in. intros r Hin.
  rewrite Forall_forall in Hwf. destruct (Hwf r Hin) as [_ Hr].
  now apply final_rows_of_record.
Qed.

Example normalize_sample_records :
  normalize_and_explode [to_json two_readings; to_json no_reading]
  = Some [ [("args.model", JString "roberta-sb"); ("args.seed", JInt 0);
            ("results.masking_ratio", JInt 0); ("results.loss", JFloat "0.25")];
           [("args.model", JString "roberta-sb"); ("args.seed", JInt 0);
            ("results.masking_ratio", JInt 10); ("results.loss", JFloat "0.5")];
           [("args.model", JString "roberta-sl"); ("args.seed", JInt 1)] ].
Proof. reflexivity. Qed.

(** C2, as stated, fails: a record whose results list is empty has no
    masking-ratio element, yet it leaves one row in the dataframe. *)
Lemma C2_counterexample : ~ one_row_per_reading [no_reading].
Proof.
  unfold one_row_per_reading. vm_compute. discriminate.
Qed.

(** C2, amended. For well-formed result records, normalizing and
    exploding gives, for every record whose results list is not empty,
    exactly one row per masking-ratio element of that list, in order,
    each made of the record's [args.*] fields followed by the element's
    fields prefixed with [results.]; a record whose results list is empty
    gives one row with its [args.*] fields alone. *)
Theorem C2_rows_of_normalized_records (records : list result_record) :
  records <> [] ->
  Forall well_formed records ->
  normalize_and_explode (map to_json records)
  = Some (flat_map record_rows records)
  /\ (forall r, In r records -> readings r <> [] ->
        record_rows r = spec_rows r
        /\ length (record_rows r) = length (readings r))
  /\ (forall r, In r records -> readings r = [] ->
        record_rows r = [prefixed "args." (args r)])
  /\ (Forall (fun r => readings r <> []) records -> one_row_per_reading records).
Proof.
  intros Hne Hwf.
  assert (Hsome : forall r, readings r <> [] -> record_rows r = spec_rows r).
  { intros r Hr. unfold record_rows. destruct (readings r); [now destruct Hr | reflexivity]. }
  split; [now apply normalize_and_explode_records|]. split; [|split].
  - intros r _ Hr. rewrite (Hsome r Hr). split; [reflexivity|].
    unfold spec_rows. apply length_map.
  - intros r _ Hr. unfold record_rows. now rewrite Hr.
  - intros Hall. unfold one_row_per_reading.
    rewrite normalize_and_explode_records by assumption. f_equal.
    apply flat_map_ext_in. intros r Hin.
    rewrite Forall_forall in Hall. now apply Hsome, Hall.
Qed.

Lemma C2_witness :
  [two_readings; no_reading] <> []
  /\ Forall well_formed [two_readings; no_reading]
  /\ normalize_and_explode (map to_json [two_readings; no_reading])
     = Some (flat_map record_rows [two_readings; no_reading]).
Proof.
  assert (Hne : [two_readings; no_reading] <> []) by discriminate.
  assert (Hwf : Forall well_formed [two_readings; no_reading]).
  { repeat constructor; cbn; try (intros [H|H]; try discriminate H; try exact H);
      try (intros []). }
  split; [exact Hne|]. split; [exact Hwf|].
  apply (C2_rows_of_normalized_records [two_readings; no_reading] Hne Hwf).
Defined.

End FrameFacts.

Module ReaderFacts.
Import JSON Reader JSONFacts.

Section Interpreter.
Variable py : interpreter.

Lemma read_file_cases (st : state) (f : file) :
  read_file py st f
  = if ends_the_script py f then None
    else Some {| results := results st ++ document py f;
                 stdout := stdout st ++ warning py f |}.
Proof.
  unfold read_file, ends_the_script, document, warning.
  destruct (load py (snd f)); rewrite ?app_nil_r; reflexivity.
Qed.

Lemma read_file_ends (st : state) (f : file) :
  read_file py st f = None <-> ends_the_script py f = true.
Proof.
  rewrite read_file_cases. destruct (ends_the_script py f); split; congruence.
Qed.

Lemma ends_the_script_iff (f : file) :
  ends_the_script py f = true <-> exists e, load py (snd f) = Uncaught e.
Proof.
  unfold ends_the_script.
  pose proof (load_never_exhausted py (snd f)) as Hl.
  destruct (load py (snd f)) as [v|msg|e|]; split;
    try discriminate; try reflexivity; try (intros [e' H]; discriminate H).
  - intros _. now exists e.
  - now destruct Hl.
Qed.

Lemma read_files_returns (files : list file) (st : state) :
  Forall (fun f => ends_the_script py f = false) files ->
  read_files py files st
  = Some {| results := results st ++ flat_map (document py) files;
            stdout := stdout st ++ flat_map (warning py) files |}.
Proof.
  intros Hall. revert st.
  induction Hall as [|f files Hf _ IH]; intros st; cbn [read_files flat_map].
  - rewrite !app_nil_r. now destruct st.
  - rewrite read_file_cases, Hf, IH. cbn [results stdout].
    now rewrite <- !app_assoc.
Qed.

Lemma read_files_ends (files : list file) (st : state) :
  Exists (fun f => ends_the_script py f = true) files ->
  read_files py files st = None.
Proof.
  intros Hex. revert st.
  induction Hex as [f files Hf|f files _ IH]; intros st; cbn [read_files].
  - now rewrite read_file_cases, Hf.
  - destruct (read_file py st f); [apply IH | reflexivity].
Qed.

Lemma read_files_app (before after : list file) (st : state) :
  read_files py (before ++ after) st
  = match read_files py before st with
    | Some st1 => read_files py after st1
    | None => None
    end.
Proof.
  revert st; induction before as [|f before IH]; intros st; [reflexivity|].
  cbn [app read_files]. destruct (read_file py st f); [apply IH | reflexivity].
Qed.

Lemma document_at_most_one (f : file) : length (document py f) <= 1.
Proof.
  unfold document. destruct (load py (snd f)); simpl; lia.
Qed.

Lemma documents_at_most_one_each (files : list file) :
  length (flat_map (document py) files) <= length files.
Proof.
  induction files as [|f files IH]; [simpl; lia|].
  cbn [flat_map]. rewrite length_app. pose proof (document_at_most_one f).
  simpl; lia.
Qed.

(** A decode error adds the line naming the file and nothing else. *)
Lemma read_file_decode_error (st : state) (f : file) (msg : string) :
  load py (snd f) = JSONDecodeError msg ->
  ends_the_script py f = false
  /\ document py f = []
  /\ warning py f = [format_error f]
  /\ read_file py st f
     = Some {| results := results st; stdout := stdout st ++ [format_error f] |}.
Proof.
  intros Hl. unfold ends_the_script, document, warning, read_file.
  rewrite Hl. repeat split.
Qed.

(** The dataframe of files that do not end the script is the one the
    three lines build from their documents. *)
Lemma dataframe_of_documents (files : list file) :
  Forall (fun f => ends_the_script py f = false) files ->
  dataframe py files = Frame.normalize_and_explode (flat_map (document py) files).
Proof.
  intros Hall. unfold dataframe. now rewrite (read_files_returns files initial Hall).
Qed.

Lemma dataframe_of_records (files : list file) (records : list Frame.result_record) :
  Forall (fun f => ends_the_script py f = false) files ->
  records <> [] ->
  Forall Frame.well_formed records ->
  flat_map (document py) files = map Frame.to_json records ->
  dataframe py files = Some (flat_map Frame.record_rows records).
Proof.
  intros Hall Hne Hwf Hdocs.
  rewrite (dataframe_of_documents files Hall), Hdocs.
  now apply FrameFacts.normalize_and_explode_records.
Qed.



(** When every file raises the decode error, nothing is loaded. *)
Lemma read_files_no_document (files : list file) :
  Forall (fun f => exists msg, load py (snd f) = JSONDecodeError msg) files ->
  read_files py files initial
  = Some {| results := []; stdout := map format_error files |}.
Proof.
  intros Hall.
  assert (Hok : Forall (fun f => ends_the_script py f = false) files).
  { eapply Forall_impl; [|exact Hall]. intros f [msg Hf].
    now destruct (read_file_decode_error initial f msg Hf). }
  rewrite (read_files_returns files initial Hok). cbn [results stdout initial app].
  f_equal. induction Hall as [|f files [msg Hf] _ IH]; [reflexivity|].
  inversion Hok as [|? ? _ Hok']; subst.
  destruct (read_file_decode_error initial f msg Hf) as [_ [Hd [Hw _]]].
  specialize (IH Hok'). injection IH as IHr IHs.
  cbn [flat_map map]. now rewrite Hd, Hw, IHr, IHs.
Qed.

End Interpreter.

Example read_sample_files :
  read_files cpython [two_records; one_record; truncated] initial
  = Some {| results := document cpython one_record;
            stdout := ["results/masking_0.json has a format error"%string;
                       "results/masking_2.json has a format error"%string] |}.
Proof. vm_compute. reflexivity. Qed.

Example two_records_hold_two_lines :
  length (ndjson_records cpython (snd two_records)) = 2.
Proof. vm_compute. reflexivity. Qed.

Example one_record_is_the_sample_record :
  document cpython one_record = [Frame.to_json sample_record].
Proof. vm_compute. reflexivity. Qed.

Example sample_record_well_formed : Frame.well_formed sample_record.
Proof.
  repeat constructor; cbn; try (intros [H|H]; try discriminate H; try exact H);
    try (intros []).
Qed.

Example deeply_nested_ends_the_script :
  load cpython (snd deeply_nested) = Uncaught RecursionError
  /\ load cpython (snd long_integer) = Uncaught ValueError
  /\ read_files cpython [one_record; deeply_nested; one_record] initial = None.
Proof. vm_compute. repeat split. Qed.





End ReaderFacts.

Module ArgparseFacts.
Import Argparse.

Local Open Scope string_scope.

Lemma find_option_In (table : list (string * argument)) (s : string) (a : argument) :
  find_option table s = Some a -> In a (map snd table).
Proof.
  induction table as [|[o b] table IH]; simpl; [discriminate|].
  destruct (String.eqb o s); [intros [= ->]; now left | intros H; right; auto].
Qed.

Lemma option_string_actions_In (p : parser) (a : argument) :
  In a (map snd (option_string_actions p)) -> In a p.
Proof.
  unfold option_string_actions. rewrite in_map_iff.
  intros [[o b] [<- Hin]]. rewrite in_flat_map in Hin.
  destruct Hin as [c [Hc Hin]]. rewrite in_map_iff in Hin.
  destruct Hin as [o' [[= _ ->] _]]. exact Hc.
Qed.

Lemma get_option_tuples_In (p : parser) (arg : string)
      (a : argument) (o : string) (e : option string) :
  In (a, o, e) (get_option_tuples p arg) -> In a p.
Proof.
  unfold get_option_tuples.
  destruct arg as [|c0 [|c1 tail]]; try (intros []).
  destruct (isc c1 45).
  - destruct (split_eq (String c0 (String c1 tail))) as [[x y]|];
      rewrite in_flat_map; intros [[o' b] [Hin Hx]]; cbn [fst snd] in Hx;
      (destruct (startswith o' _); [|destruct Hx]);
      destruct Hx as [[= <- _ _]|[]];
      apply option_string_actions_In, in_map_iff; now exists (o', b).
  - rewrite in_flat_map; intros [[o' b] [Hin Hx]]; cbn [fst snd] in Hx.
    assert (Hb : In b p)
      by (apply option_string_actions_In, in_map_iff; now exists (o', b)).
    destruct (String.eqb o' _); [destruct Hx as [[= <- _ _]|[]]; exact Hb|].
    destruct (startswith o' _); [destruct Hx as [[= <- _ _]|[]]; exact Hb|destruct Hx].
Qed.

Lemma parse_optional_from_parser (p : parser) (s : string) (r : reading) :
  parse_optional p s = Some r -> from_parser p (s, r).
Proof.
  unfold parse_optional, from_parser. cbn [snd].
  destruct s as [|c0 rest]; [intros [= <-]; exact I|].
  destruct (negb (isc c0 45)); [intros [= <-]; exact I|].
  destruct (find_option _ (String c0 rest)) as [a|] eqn:Ef.
  { intros [= <-]. now apply option_string_actions_In, find_option_In with (s := String c0 rest). }
  destruct rest as [|c1 tail]; [intros [= <-]; exact I|].
  destruct (split_eq (String c0 (String c1 tail))) as [[os ea]|].
  - destruct (find_option _ os) as [a|] eqn:Eo.
    { intros [= <-]. now apply option_string_actions_In, find_option_In with (s := os). }
    destruct (get_option_tuples p _) as [|[[a o] e] [|? ?]] eqn:Et; try discriminate.
    + destruct (negative_number _); [intros [= <-]; exact I|].
      destruct (contains 32 _); intros [= <-]; exact I.
    + intros [= <-]. apply (get_option_tuples_In p (String c0 (String c1 tail)) a o e).
      rewrite Et. now left.
  - destruct (get_option_tuples p _) as [|[[a o] e] [|? ?]] eqn:Et; try discriminate.
    + destruct (negative_number _); [intros [= <-]; exact I|].
      destruct (contains 32 _); intros [= <-]; exact I.
    + intros [= <-]. apply (get_option_tuples_In p (String c0 (String c1 tail)) a o e).
      rewrite Et. now left.
Qed.

Lemma classify_from_parser (p : parser) (argv : list string)
      (items : list (string * reading)) :
  classify p argv = Some items -> Forall (from_parser p) items.
Proof.
  revert items; induction argv as [|s argv IH]; intros items; cbn [classify].
  - intros [= <-]. constructor.
  - destruct (String.eqb s "--").
    + intros [= <-]. constructor; [exact I|].
      rewrite Forall_map. apply Forall_forall. intros ? _. exact I.
    + destruct (parse_optional p s) as [r|] eqn:Er; [|discriminate].
      destruct (classify p argv) as [rs|]; [|discriminate].
      intros [= <-]. constructor; [now apply parse_optional_from_parser | now apply IH].
Qed.

Lemma getattr_dict_set_same (ns : namespace) (k v : string) :
  getattr (JSON.dict_set k v ns) k = Some v.
Proof.
  induction ns as [|[k' v'] ns IH]; cbn [JSON.dict_set getattr].
  - now rewrite String.eqb_refl.
  - destruct (String.eqb_spec k' k) as [->|Hk]; cbn [getattr].
    + now rewrite String.eqb_refl.
    + destruct (String.eqb_spec k' k); [contradiction | exact IH].
Qed.

Lemma getattr_dict_set_other (ns : namespace) (k k' v : string) :
  k' <> k -> getattr (JSON.dict_set k v ns) k' = getattr ns k'.
Proof.
  intros Hk. induction ns as [|[k0 v0] ns IH]; cbn [JSON.dict_set getattr].
  - destruct (String.eqb_spec k k'); [now subst | reflexivity].
  - destruct (String.eqb_spec k0 k) as [->|Hk0]; cbn [getattr].
    + destruct (String.eqb_spec k k'); [now subst | reflexivity].
    + destruct (String.eqb_spec k0 k'); [reflexivity | exact IH].
Qed.

(** A string set aside before the second pass stays in front of the
    unknown strings and changes nothing else. *)
Lemma consume_set_aside_upto (n : nat) :
  forall items ns x extras,
    length items <= n ->
    consume items ns (x :: extras) = set_aside x (consume items ns extras).
Proof.
  induction n as [|n IH]; intros items ns x extras Hn.
  - destruct items; [reflexivity | simpl in Hn; lia].
  - destruct items as [|[s r] rest]; [reflexivity|].
    cbn [length] in Hn. cbn [consume].
    destruct r as [| |[a|] os ea];
      try (change ((x :: extras) ++ [s])%list with (x :: (extras ++ [s]))%list;
           apply IH; lia).
    destruct (action a).
    + destruct ea as [e|].
      * destruct (String.eqb e "--"); [reflexivity|].
        destruct (choices a) as [cs|];
          [destruct (mem e cs); [apply IH; lia | reflexivity] | apply IH; lia].
      * destruct rest as [|[v [| |? ? ?]] rest']; try reflexivity.
        cbn [length] in Hn.
        destruct (choices a) as [cs|];
          [destruct (mem v cs); [apply IH; lia | reflexivity] | apply IH; lia].
    + destruct ea as [e|]; [|reflexivity].
      destruct (String.eqb os "-h" && all_h e); reflexivity.
Qed.

Section Parser.
Variable p : parser.
Hypothesis distinct_dests : NoDup (map dest p).

Lemma same_dest (a b : argument) :
  In a p -> In b p -> dest a = dest b -> a = b.
Proof.
  clear -distinct_dests. induction p as [|c q IH]; [intros []|].
  cbn [map] in distinct_dests. inversion distinct_dests as [|? ? Hc Hq]; subst.
  intros [->|Ha] [->|Hb] Hd; auto.
  - destruct Hc. rewrite Hd. now apply in_map.
  - destruct Hc. rewrite <- Hd. now apply in_map.
Qed.

(** Storing a checked value keeps every stored value among its choices. *)
Lemma respects_store (a : argument) (value : string) (ns : namespace) :
  In a p ->
  match choices a with Some cs => mem value cs = true | None => True end ->
  respects p ns ->
  respects p (JSON.dict_set (dest a) value ns).
Proof.
  intros Ha Hv Hns. unfold respects in *. rewrite Forall_forall in *.
  intros b Hb. specialize (Hns b Hb).
  destruct (string_dec (dest b) (dest a)) as [Hd|Hd].
  - assert (b = a) by now apply same_dest. subst b.
    destruct (choices a); [|exact I].
    exists value. now rewrite getattr_dict_set_same.
  - destruct (choices b); [|exact I]. destruct Hns as [v [Hg Hm]].
    exists v. now rewrite getattr_dict_set_other.
Qed.

(** An invariant of the namespace that storing a checked value of an
    action of the parser keeps is kept by the second pass. *)
Lemma consume_invariant_upto (I : namespace -> Prop) (n : nat)
      (items : list (string * reading))
      (ns ns' : namespace) (extras unknown : list string) :
  (forall a value ns0,
      In a p ->
      match choices a with Some cs => mem value cs = true | None => True end ->
      I ns0 -> I (JSON.dict_set (dest a) value ns0)) ->
  length items <= n ->
  Forall (from_parser p) items ->
  I ns ->
  consume items ns extras = Parsed ns' unknown ->
  I ns'.
Proof.
  intros Hkeep.
  revert items ns extras; induction n as [|n IH]; intros items ns extras Hn Hp Hns.
  - destruct items; [|simpl in Hn; lia]. intros [= <- _]. exact Hns.
  - destruct items as [|[s r] rest]; [intros [= <- _]; exact Hns|].
    cbn [length] in Hn. inversion Hp as [|? ? Hr Hrest]; subst.
    assert (Hgo : forall items' ns0 ex,
               length items' <= length rest -> Forall (from_parser p) items' ->
               I ns0 -> consume items' ns0 ex = Parsed ns' unknown -> I ns').
    { intros items' ns0 ex Hl. apply IH. lia. }
    cbn [consume].
    destruct r as [| |[a|] os ea]; try (apply Hgo; auto; fail).
    unfold from_parser in Hr; cbn [snd] in Hr.
    assert (Hstore : forall value items' ex,
               length items' <= length rest -> Forall (from_parser p) items' ->
               match choices a with
               | Some cs =>
                   if mem value cs
                   then consume items' (JSON.dict_set (dest a) value ns) ex
                   else Exit 2 ("argument " ++ os ++ ": invalid choice")
               | None => consume items' (JSON.dict_set (dest a) value ns) ex
               end = Parsed ns' unknown ->
               I ns').
    { intros value items' ex Hl Hf.
      destruct (choices a) as [cs|] eqn:Ec.
      - destruct (mem value cs) eqn:Em; [|discriminate].
        apply Hgo; auto. apply Hkeep; auto. now rewrite Ec.
      - apply Hgo; auto. apply Hkeep; auto. now rewrite Ec. }
    destruct (action a).
    + destruct ea as [e|].
      * destruct (String.eqb e "--"); [discriminate|]. now apply Hstore.
      * destruct rest as [|[v [| |? ? ?]] rest']; try discriminate.
        inversion Hrest as [|? ? _ Hrest']; subst.
        apply Hstore; [simpl; lia | assumption].
    + destruct ea as [e|]; [|discriminate].
      destruct (String.eqb os "-h" && all_h e); discriminate.
Qed.

Lemma parse_known_args_invariant (I : namespace -> Prop) (argv : list string)
      (ns : namespace) (unknown : list string) :
  (forall a value ns0,
      In a p ->
      match choices a with Some cs => mem value cs = true | None => True end ->
      I ns0 -> I (JSON.dict_set (dest a) value ns0)) ->
  I (defaults p) ->
  parse_known_args p argv = Parsed ns unknown ->
  I ns.
Proof.
  intros Hkeep Hd. unfold parse_known_args.
  destruct (classify p argv) as [items|] eqn:Ec; [|discriminate].
  apply (consume_invariant_upto I (length items) items _ _ _ _ Hkeep (le_n _));
    [|exact Hd].
  now apply classify_from_parser with (argv := argv).
Qed.

(** Whatever the command line, a namespace the parser returns holds, for
    every argument with choices, one of its choices. *)
Lemma parse_known_args_respects (argv : list string) (ns : namespace)
      (unknown : list string) :
  respects p (defaults p) ->
  parse_known_args p argv = Parsed ns unknown ->
  respects p ns.
Proof.
  apply parse_known_args_invariant.
  intros a value ns0 Ha Hv Hns. now apply respects_store.
Qed.

(** No attribute is set but the destinations of the parser's actions. *)
Lemma parse_known_args_absent (name : string) (argv : list string)
      (ns : namespace) (unknown : list string) :
  ~ In name (map dest p) ->
  getattr (defaults p) name = None ->
  parse_known_args p argv = Parsed ns unknown ->
  getattr ns name = None.
Proof.
  intros Hn. apply (parse_known_args_invariant (fun ns => getattr ns name = None)).
  intros a value ns0 Ha _ H0. rewrite getattr_dict_set_other; [exact H0|].
  intros ->. apply Hn. now apply in_map.
Qed.

End Parser.

Lemma mem_three (v a b c : string) :
  mem v [a; b; c] = true -> v = a \/ v = b \/ v = c.
Proof.
  cbn [mem]. rewrite orb_false_r, !orb_true_iff, !String.eqb_eq. intuition auto.
Qed.

Lemma plain_is_positional (p : parser) (value : string) :
  plain value = true -> value <> "--" /\ parse_optional p value = Some A.
Proof.
  unfold plain, parse_optional.
  destruct value as [|c rest]; [split; [discriminate|reflexivity]|].
  intros Hc. rewrite Hc. split; [|reflexivity].
  intros [= -> _]. discriminate.
Qed.

(** A flag with choices of a parser that declares it: the listed values
    are stored, any other value ends the run with a usage error. *)
Ltac choice_flag_tac flag_reading :=
  intros value;
  match goal with
  | |- if mem value ?allowed then _ else _ =>
      destruct (mem value allowed) eqn:Em;
      [ apply mem_three in Em; destruct Em as [->|[->| ->]];
        eexists; eexists; split; cbv; reflexivity
      | unfold parse_known_args; cbn [classify];
        match goal with
        | |- context [String.eqb ?f "--"] =>
            change (String.eqb f "--") with false; cbv iota
        end;
        rewrite flag_reading;
        destruct (String.eqb value "--");
        [ eexists; reflexivity |];
        destruct (parse_optional _ value) as [[| |oa os ea]|];
        cbn [consume action choices add_argument];
        rewrite ?Em; eexists; reflexivity ]
  end.

Section Scripts.
Variable home : string.

#[local] Abbreviation F := (faithfulness_plot home).
#[local] Abbreviation U := (unmasked_performance_plot home).

Lemma F_reads_stage :
  parse_optional F "--stage"
  = Some (O (Some (add_argument "--stage" "both" (Some stage_choices))) "--stage" None).
Proof. reflexivity. Qed.

Lemma F_reads_performance_metric :
  parse_optional F "--performance-metric"
  = Some (O (Some (add_argument "--performance-metric" "primary"
                                (Some performance_metric_choices)))
            "--performance-metric" None).
Proof. reflexivity. Qed.

Lemma U_reads_stage :
  parse_optional U "--stage"
  = Some (O (Some (add_argument "--stage" "both" (Some stage_choices))) "--stage" None).
Proof. reflexivity. Qed.

Lemma F_stage : choice_flag F "--stage" "stage" stage_choices.
Proof. choice_flag_tac F_reads_stage. Qed.

Lemma F_performance_metric :
  choice_flag F "--performance-metric" "performance_metric" performance_metric_choices.
Proof. choice_flag_tac F_reads_performance_metric. Qed.

Lemma U_stage : choice_flag U "--stage" "stage" stage_choices.
Proof. choice_flag_tac U_reads_stage. Qed.

Lemma F_persistent_dir : path_flag F "--persistent-dir" "persistent_dir".
Proof.
  intros value Hv. destruct (plain_is_positional F value Hv) as [Hd Hp].
  unfold parse_known_args. cbn [classify].
  change (String.eqb "--persistent-dir" "--") with false. cbv iota.
  change (parse_optional F "--persistent-dir")
    with (Some (O (Some (add_argument "--persistent-dir" home None))
                  "--persistent-dir" None)).
  destruct (String.eqb_spec value "--"); [contradiction|]. rewrite Hp.
  eexists; eexists; split; reflexivity.
Qed.

Lemma U_persistent_dir : path_flag U "--persistent-dir" "persistent_dir".
Proof.
  intros value Hv. destruct (plain_is_positional U value Hv) as [Hd Hp].
  unfold parse_known_args. cbn [classify].
  change (String.eqb "--persistent-dir" "--") with false. cbv iota.
  change (parse_optional U "--persistent-dir")
    with (Some (O (Some (add_argument "--persistent-dir" home None))
                  "--persistent-dir" None)).
  destruct (String.eqb_spec value "--"); [contradiction|]. rewrite Hp.
  eexists; eexists; split; reflexivity.
Qed.

(** The unmasked-performance script does not declare
    [--performance-metric]: the flag and its value are returned among the
    unknown strings and nothing is stored. *)
Lemma U_performance_metric_unknown (value : string) :
  plain value = true ->
  parse_known_args U ["--performance-metric"; value]
  = Parsed (defaults U) ["--performance-metric"; value].
Proof.
  intros Hv. destruct (plain_is_positional U value Hv) as [Hd Hp].
  unfold parse_known_args. cbn [classify].
  change (String.eqb "--performance-metric" "--") with false. cbv iota.
  change (parse_optional U "--performance-metric")
    with (Some (O None "--performance-metric" None)).
  destruct (String.eqb_spec value "--"); [contradiction|]. rewrite Hp.
  reflexivity.
Qed.

(** The flag itself is never the reason to reject a command line of
    unmasked_performance_plot.py: it is set aside, and what follows is
    parsed as it is without the flag. *)
Lemma U_sets_performance_metric_aside (rest : list string) :
  parse_known_args U ("--performance-metric" :: rest)
  = set_aside "--performance-metric" (parse_known_args U rest).
Proof.
  unfold parse_known_args. cbn [classify].
  change (String.eqb "--performance-metric" "--") with false. cbv iota.
  change (parse_optional U "--performance-metric")
    with (Some (O None "--performance-metric" None)).
  destruct (classify U rest) as [items|]; [|reflexivity].
  cbn [consume app]. apply (consume_set_aside_upto (length items)). apply le_n.
Qed.

Lemma F_respects_defaults : respects F (defaults F).
Proof.
  repeat constructor.
  - now exists "both".
  - now exists "primary".
Qed.

Lemma U_respects_defaults : respects U (defaults U).
Proof.
  repeat constructor. now exists "both".
Qed.

Lemma F_distinct_dests : NoDup (map dest F).
Proof.
  repeat constructor; cbn; intuition discriminate.
Qed.

Lemma U_distinct_dests : NoDup (map dest U).
Proof.
  repeat constructor; cbn; intuition discriminate.
Qed.

Lemma mem_In (v : string) (l : list string) : mem v l = true -> In v l.
Proof.
  induction l as [|x l IH]; cbn [mem]; [discriminate|].
  rewrite orb_true_iff, String.eqb_eq. intros [->|H]; [now left | right; auto].
Qed.

Lemma F_returns_choices (argv : list string) (ns : namespace) (unknown : list string) :
  parse_known_args F argv = Parsed ns unknown ->
  exists s m,
    getattr ns "stage" = Some s /\ In s stage_choices
    /\ getattr ns "performance_metric" = Some m /\ In m performance_metric_choices.
Proof.
  intros Hp.
  pose proof (parse_known_args_respects F F_distinct_dests argv ns unknown
                                        F_respects_defaults Hp) as Hr.
  unfold respects in Hr.
  inversion Hr as [|? ? _ Hr1]; subst. inversion Hr1 as [|? ? _ Hr2]; subst.
  inversion Hr2 as [|? ? Hs Hr3]; subst. inversion Hr3 as [|? ? Hm _]; subst.
  cbn in Hs, Hm. destruct Hs as [s [Hs Hsm]]. destruct Hm as [m [Hm Hmm]].
  exists s, m. repeat split; auto using mem_In.
Qed.

Lemma U_returns_choices (argv : list string) (ns : namespace) (unknown : list string) :
  parse_known_args U argv = Parsed ns unknown ->
  exists s,
    getattr ns "stage" = Some s /\ In s stage_choices
    /\ getattr ns "performance_metric" = None.
Proof.
  intros Hp.
  pose proof (parse_known_args_respects U U_distinct_dests argv ns unknown
                                        U_respects_defaults Hp) as Hr.
  unfold respects in Hr.
  inversion Hr as [|? ? _ Hr1]; subst. inversion Hr1 as [|? ? _ Hr2]; subst.
  inversion Hr2 as [|? ? Hs _]; subst.
  cbn in Hs. destruct Hs as [s [Hs Hsm]].
  exists s. repeat split; auto using mem_In.
  apply (parse_known_args_absent U "performance_metric" argv ns unknown);
    [cbn; intuition discriminate | reflexivity | exact Hp].
Qed.


End Scripts.

Example faithfulness_plot_command_line :
  parse_known_args (faithfulness_plot "/repo")
                   ["--stage"; "plot"; "--performance-metric=loss"; "--pers"; "/tmp/x"; "extra"]
  = Parsed [("persistent_dir", "/tmp/x"); ("stage", "plot"); ("performance_metric", "loss")]
           ["extra"].
Proof. reflexivity. Qed.

Example faithfulness_plot_ambiguous :
  parse_known_args (faithfulness_plot "/repo") ["--p"; "x"] = Exit 2 "ambiguous option".
Proof. reflexivity. Qed.

Example faithfulness_plot_bad_stage :
  parse_known_args (faithfulness_plot "/repo") ["--stage"; "render"]
  = Exit 2 "argument --stage: invalid choice".
Proof. reflexivity. Qed.

Example unmasked_passes_performance_metric :
  parse_known_args (unmasked_performance_plot "/repo") ["--performance-metric"; "bogus"]
  = Parsed [("persistent_dir", "/repo"); ("stage", "both")]
           ["--performance-metric"; "bogus"].
Proof. reflexivity. Qed.


End ArgparseFacts.

Module PlotStageFacts.
Import PlotStage.

Local Open Scope string_scope.

Section Dataframe.
Variable Row : Type.
Variable in_category : Row -> string -> bool.
Variable masking_ratio_is_zero : Row -> bool.
Variable renders : string -> list Row -> bool.

#[local] Abbreviation query := (query in_category masking_ratio_is_zero).
#[local] Abbreviation plot_category :=
  (plot_category in_category masking_ratio_is_zero renders).
#[local] Abbreviation plot_loop :=
  (plot_loop in_category masking_ratio_is_zero renders).
#[local] Abbreviation plot_stage :=
  (plot_stage in_category masking_ratio_is_zero renders).

Lemma append_assoc (a b c : string) : (a ++ b) ++ c = a ++ (b ++ c).
Proof.
  induction a as [|x a IH]; [reflexivity|]. cbn [append]. now rewrite IH.
Qed.

(** The text of the skip message: the name of the category between
    double quotes. *)
Lemma skip_message_names_the_category (model_category : string) :
  skip_message model_category
  = "Skipping model category " ++ String (ascii_of_nat 34) model_category
    ++ String (ascii_of_nat 34) ", no observations.".
Proof.
  unfold skip_message.
  change (JSON.q "Skipping model category '")
    with ("Skipping model category " ++ String (ascii_of_nat 34) EmptyString).
  change (JSON.q "', no observations.")
    with (String (ascii_of_nat 34) ", no observations.").
  rewrite !append_assoc. reflexivity.
Qed.

Lemma plot_category_empty (s : script) (persistent_dir : string) (df : list Row)
      (model_category : string) :
  query s df model_category = [] ->
  plot_category s persistent_dir df model_category
  = ([Print (skip_message model_category)], true).
Proof.
  intros Hq. unfold plot_category, PlotStage.plot_category. now rewrite Hq.
Qed.

(** C6. In the plot stage, a model category whose query returns no row
    makes the loop print the skip message naming the category, the line
    [Skipping model category <name>, no observations.] with the name
    between double quotes, and go on with the next category: the
    iteration raises nothing, computes no confidence interval and saves
    no plot, and the events of the categories after it follow the
    message. *)
Theorem C6_empty_category_is_skipped
        (s : script) (stage persistent_dir : string) (df : list Row)
        (model_category : string) (rest : list string) :
  query s df model_category = [] ->
  plot_category s persistent_dir df model_category
  = ([Print ("Skipping model category " ++ String (ascii_of_nat 34) model_category
             ++ String (ascii_of_nat 34) ", no observations.")], true)
  /\ plot_category s persistent_dir df model_category
     = ([Print (skip_message model_category)], true)
  /\ (forall e, In e (fst (plot_category s persistent_dir df model_category)) ->
                ~ works_on model_category e)
  /\ plot_loop s persistent_dir df (model_category :: rest)
     = (Print (skip_message model_category)
          :: fst (plot_loop s persistent_dir df rest),
        snd (plot_loop s persistent_dir df rest))
  /\ (Argparse.mem stage ["both"; "plot"] = true ->
      query s df "masking-ratio" = [] ->
      query s df "size" = [] ->
      plot_stage s stage persistent_dir df
      = ([Print (skip_message "masking-ratio"); Print (skip_message "size")], true)).
Proof.
  intros Hq. rewrite (plot_category_empty s persistent_dir df _ Hq).
  split; [rewrite skip_message_names_the_category; reflexivity|].
  split; [reflexivity|]. split; [|split].
  - intros e [<-|[]]. exact (fun H => H).
  - cbn [PlotStage.plot_loop].
    change (PlotStage.plot_category in_category masking_ratio_is_zero renders
                                    s persistent_dir df model_category)
      with (plot_category s persistent_dir df model_category).
    rewrite (plot_category_empty s persistent_dir df _ Hq).
    now destruct (PlotStage.plot_loop _ _ _ s persistent_dir df rest).
  - intros Hstage Hm Hs. unfold plot_stage, PlotStage.plot_stage. rewrite Hstage.
    unfold model_categories. cbn [PlotStage.plot_loop].
    change (PlotStage.plot_category in_category masking_ratio_is_zero renders
                                    s persistent_dir df "masking-ratio")
      with (plot_category s persistent_dir df "masking-ratio").
    change (PlotStage.plot_category in_category masking_ratio_is_zero renders
                                    s persistent_dir df "size")
      with (plot_category s persistent_dir df "size").
    now rewrite (plot_category_empty s persistent_dir df _ Hm),
                (plot_category_empty s persistent_dir df _ Hs).
Qed.

End Dataframe.

Example plot_sample_df :
  plot_stage sample_in_category sample_ratio_is_zero (fun _ _ => true)
             unmasked_performance_plot "both" "/repo" sample_df
  = ([BootstrapConfint "masking-ratio" "metric";
      Makedirs "/repo/plots";
      Save "/repo/plots/unmasked_performance_m-masking-ratio.pdf";
      Save "/repo/plots/unmasked_performance_m-masking-ratio.png";
      Print (skip_message "size")], true).
Proof. reflexivity. Qed.

Example skip_message_text :
  String.length (skip_message "size") = 48
  /\ String.get 24 (skip_message "size") = Some (ascii_of_nat 34).
Proof. split; reflexivity. Qed.

Lemma C6_witness :
  query sample_in_category sample_ratio_is_zero faithfulness_plot sample_df "size" = []
  /\ plot_category sample_in_category sample_ratio_is_zero (fun _ _ => true)
                   faithfulness_plot "/repo" sample_df "size"
     = ([Print ("Skipping model category " ++ String (ascii_of_nat 34) "size"
                ++ String (ascii_of_nat 34) ", no observations.")], true).
Proof.
  split; [reflexivity|].
  apply (C6_empty_category_is_skipped
           _ sample_in_category sample_ratio_is_zero (fun _ _ => true)
           faithfulness_plot "both" "/repo" sample_df "size" []).
  reflexivity.
Defined.

End PlotStageFacts.

(* ================================================================== *)
(** * Further properties *)
(* ================================================================== *)

From Stdlib Require Import Permutation Sorted.

Module SimpleTestModelWeightsFacts.
Import Tensor ListFacts TensorFacts SimpleTestModel SimpleTestModelWeights.

Lemma concat_flat_map {A} (l : list (list A)) : concat l = flat_map (fun r => r) l.
Proof.
  induction l as [|r l IH]; simpl; [reflexivity | now rewrite IH].
Qed.

Lemma chunks_concat {A} (w : nat) (l : list (list A)) :
  Forall (fun r => length r = w) l -> chunks w (length l) (concat l) = l.
Proof.
  intros H. rewrite concat_flat_map, chunks_flat_map by exact H. apply map_id.
Qed.

Lemma nth_concat {A} (w : nat) (l : list (list A)) (i : nat) :
  Forall (fun r => length r = w) l -> i < length l ->
  firstn w (skipn (i * w) (concat l)) = nth i l [].
Proof.
  intros H; revert i; induction H as [|r l Hr Hl IH]; intros i Hi;
    [simpl in Hi; lia|].
  cbn [concat]. destruct i as [|i].
  - cbn [Nat.mul skipn nth]. rewrite firstn_app, Hr, Nat.sub_diag.
    rewrite firstn_all2 by lia. cbn [firstn]. apply app_nil_r.
  - cbn [Nat.mul nth]. rewrite skipn_app, Hr.
    rewrite skipn_all2 by lia. replace (w + i * w - w) with (i * w) by lia.
    cbn [app]. apply IH. simpl in Hi. lia.
Qed.

Lemma concat_length {A} (w : nat) (l : list (list A)) :
  Forall (fun r => length r = w) l -> length (concat l) = length l * w.
Proof.
  induction 1 as [|r l Hr Hl IH]; [reflexivity|].
  cbn [concat length]. rewrite length_app, IH, Hr. lia.
Qed.

Section Carrier.
Variable num : Type.
Variables zero one : num.
Variables add mul : num -> num -> num.

#[local] Abbreviation init := (@init num).
#[local] Abbreviation squared := (squared mul).
#[local] Abbreviation call := (call zero add mul).

Lemma zip_with_same (f : num -> num -> num) (l : list num) :
  zip_with f l l = map (fun x => f x x) l.
Proof.
  induction l as [|x l IH]; simpl; [reflexivity | now rewrite IH].
Qed.

Lemma zip_with_len (f : num -> num -> num) (a b : list num) :
  length (zip_with f a b) = Nat.min (length a) (length b).
Proof.
  revert b; induction a as [|x a IH]; intros [|y b]; simpl; auto.
Qed.

Lemma fold_zip_with_len (f : num -> num -> num) (n : nat)
      (vs : list (list num)) (acc : list num) :
  length acc = n -> Forall (fun v => length v = n) vs ->
  length (fold_left (zip_with f) vs acc) = n.
Proof.
  intros Hacc Hvs; revert acc Hacc; induction Hvs as [|v vs Hv Hvs IH];
    intros acc Hacc; simpl; [assumption|].
  apply IH. rewrite zip_with_len. lia.
Qed.

Lemma vec_mat_length (u : nat) (v : list num) (kernel : list (list num)) :
  Forall (fun r => length r = u) kernel ->
  length (vec_mat zero add mul u v kernel) = u.
Proof.
  intros Hk. unfold vec_mat.
  assert (H : forall pairs acc,
             length acc = u ->
             Forall (fun vr : num * list num => length (snd vr) = u) pairs ->
             length (fold_left (fun acc vr => zip_with add acc (scale mul (fst vr) (snd vr)))
                               pairs acc) = u).
  { induction pairs as [|[c r] pairs IH]; intros acc Ha Hp; [exact Ha|].
    inversion Hp as [|? ? Hr Hp']; subst. cbn [fold_left]. apply IH; [|exact Hp'].
    rewrite zip_with_len. unfold scale. rewrite length_map. cbn [fst snd] in *. lia. }
  apply H; [apply repeat_length|].
  revert v; induction Hk as [|r k Hr Hk IH]; intros [|x v]; cbn [combine]; constructor;
    auto.
Qed.

Section Weights.
Variables embeddings kernel : list (list num).
Variables E U : nat.
Hypothesis embeddings_rectangular : rectangular E embeddings.
Hypothesis kernel_rectangular : rectangular U kernel.
Hypothesis kernel_rows : length kernel = E.

#[local] Abbreviation self := (init embeddings kernel).
#[local] Abbreviation row := (fun t : Z => nth (Z.to_nat t) embeddings []).

Lemma hd_width (w : nat) (l : list (list num)) :
  rectangular w l -> length (hd [] l) = w.
Proof.
  intros [Hne Hl]. destruct l as [|r l]; [now destruct Hne|].
  now inversion Hl.
Qed.

Lemma shape_embedding : shape (_embedding self) = [length embeddings; E].
Proof.
  cbn [init _embedding convert_to_tensor shape SimpleTestModel.init].
  now rewrite (hd_width _ _ embeddings_rectangular).
Qed.

Lemma shape_dense : shape (_dense self) = [E; U].
Proof.
  cbn [init _dense convert_to_tensor shape SimpleTestModel.init].
  now rewrite (hd_width _ _ kernel_rectangular), kernel_rows.
Qed.

Lemma rows_dense : rows (_dense self) = kernel.
Proof.
  unfold rows. rewrite shape_dense.
  cbn [init _dense convert_to_tensor values SimpleTestModel.init].
  rewrite <- kernel_rows. apply chunks_concat, kernel_rectangular.
Qed.

Lemma vocab_size_is_rows : vocab_size (config self) = length embeddings.
Proof. reflexivity. Qed.

Lemma table_row_in_vocabulary (t : Z) :
  in_vocabulary self t = true -> table_row (_embedding self) t = inr (row t).
Proof.
  unfold in_vocabulary, table_row. rewrite vocab_size_is_rows, shape_embedding.
  intros Ht. rewrite Ht.
  cbn [init _embedding convert_to_tensor values SimpleTestModel.init].
  f_equal. apply nth_concat; [apply embeddings_rectangular|].
  apply andb_true_iff in Ht. destruct Ht as [H0 H1].
  apply Z.leb_le in H0. apply Z.ltb_lt in H1. lia.
Qed.

Lemma row_width (t : Z) : in_vocabulary self t = true -> length (row t) = E.
Proof.
  unfold in_vocabulary. rewrite vocab_size_is_rows. intros Ht.
  apply andb_true_iff in Ht. destruct Ht as [H0 H1].
  apply Z.leb_le in H0. apply Z.ltb_lt in H1.
  destruct embeddings_rectangular as [_ Hall]. rewrite Forall_forall in Hall.
  apply Hall, nth_In. lia.
Qed.

Lemma gather_in_vocabulary (ts : list Z) :
  forallb (in_vocabulary self) ts = true ->
  gather (_embedding self) ts = inr (flat_map row ts).
Proof.
  induction ts as [|t ts IH]; [reflexivity|].
  cbn [forallb]. rewrite andb_true_iff. intros [Ht Hts].
  cbn [gather flat_map]. rewrite (table_row_in_vocabulary _ Ht), (IH Hts). reflexivity.
Qed.

(** The layers after the embedding, on the rows picked for a batch. *)
Lemma call_on_rows (Mask : Type) (ids : tensor Z) (mask : tensor Mask)
      (training : bool) (B T : nat) :
  shape ids = [B; T] ->
  well_formed ids ->
  forallb (in_vocabulary self) (values ids) = true ->
  call self {| input_ids := Some ids; attention_mask := Some mask;
               inputs_embeds := None |} training
  = inr {| logits := mk [B; U] (flat_map (sequence_logits zero add mul embeddings kernel)
                                         (rows ids)) |}.
Proof.
  intros Hs Hwf Hvalid.
  assert (Hlen : length (values ids) = B * T).
  { unfold well_formed in Hwf. rewrite Hs in Hwf. simpl in Hwf. lia. }
  assert (Hv : Forall (fun t => in_vocabulary self t = true) (values ids))
    by (apply Forall_forall; now apply forallb_forall).
  assert (Hsq : forall ts, Forall (fun t => in_vocabulary self t = true) ts ->
                           Forall (fun t => length (squared (row t)) = E) ts).
  { intros ts Hts. eapply Forall_impl; [|exact Hts]. intros t Ht.
    unfold squared, SimpleTestModel.squared. now rewrite length_map, row_width. }
  assert (Hrows : rows ids = chunks T B (values ids))
    by (unfold rows; now rewrite Hs).
  assert (Hin : forall ts, In ts (rows ids) ->
                  length ts = T /\ Forall (fun t => in_vocabulary self t = true) ts).
  { intros ts Hts. rewrite Hrows in Hts. split.
    - pose proof (chunks_all_length T B (values ids)) as Hall.
      rewrite Forall_forall in Hall. apply Hall; [lia | assumption].
    - pose proof (chunks_Forall _ T B _ Hv) as Hall.
      rewrite Forall_forall in Hall. now apply Hall. }
  unfold call, SimpleTestModel.call, call_inputs_embeds, embedding_call.
  cbn [inputs_embeds input_ids attention_mask getitem bind].
  rewrite shape_embedding, (gather_in_vocabulary _ Hvalid).
  cbn [bind inputs_embeds getitem].
  unfold multiply; cbn [shape values].
  destruct (list_eq_dec Nat.eq_dec (shape ids ++ [E]) (shape ids ++ [E]))
    as [_|Hne]; [|now destruct Hne].
  cbn [bind]. rewrite zip_with_same, map_flat_map.
  unfold reduce_sum_axis1; cbn [shape values]. rewrite Hs.
  cbn [app numel fold_right bind]. rewrite Nat.mul_1_r.
  rewrite (chunks_of_blocks _ E) by (now apply Hsq).
  erewrite SimpleTestModelFacts.dense_call_rank2
    by (exact shape_dense || reflexivity).
  cbn [bind]. do 2 f_equal. f_equal.
  unfold rows at 2; cbn [shape values].
  rewrite <- Hrows, flat_map_map, rows_dense.
  rewrite (hd_width _ _ embeddings_rectangular) || idtac.
  assert (Hsum : forall ts, In ts (rows ids) ->
            fold_left (zip_with add)
                      (chunks E T (flat_map (fun t => squared (row t)) ts))
                      (repeat zero E)
            = fold_left (zip_with add) (map (fun t => squared (row t)) ts)
                        (repeat zero E)).
  { intros ts Hts. destruct (Hin ts Hts) as [<- Hall].
    now rewrite chunks_flat_map by (now apply Hsq). }
  erewrite (flat_map_ext_in _ (fun ts => fold_left (zip_with add)
                                           (map (fun t => squared (row t)) ts)
                                           (repeat zero E)) (rows ids));
    [|intros ts Hts; exact (Hsum ts Hts)].
  rewrite <- (chunks_length T B (values ids)) at 1. rewrite <- Hrows.
  rewrite chunks_flat_map.
  - rewrite flat_map_map. apply flat_map_ext_in. intros ts Hts.
    unfold sequence_logits.
    now rewrite (hd_width _ _ embeddings_rectangular), (hd_width _ _ kernel_rectangular).
  - apply Forall_forall. intros ts Hts. destruct (Hin ts Hts) as [_ Hall].
    apply fold_zip_with_len; [apply repeat_length|].
    rewrite Forall_map. now apply Hsq.
Qed.

(** X1. For any rectangular initializers given to [__init__] (an
    embedding table of width [E], a kernel with [E] rows of width [U]),
    [config.vocab_size] is the number of rows of the table and [call] on a
    well-formed [[B,T]] batch of token ids below it returns [[B,U]]
    logits, [B*U] numbers, holding for each sequence the sum of the
    squared table rows of its tokens multiplied by the kernel. *)
Theorem X1_call_with_any_weights
        (Mask : Type) (ids : tensor Z) (mask : tensor Mask)
        (training : bool) (B T : nat) :
  shape ids = [B; T] ->
  well_formed ids ->
  forallb (in_vocabulary self) (values ids) = true ->
  vocab_size (config self) = length embeddings
  /\ embedding_matrix self = convert_to_tensor embeddings
  /\ exists out,
      call self {| input_ids := Some ids; attention_mask := Some mask;
                   inputs_embeds := None |} training
      = inr {| logits := out |}
      /\ shape out = [B; U]
      /\ well_formed out
      /\ values out = flat_map (sequence_logits zero add mul embeddings kernel)
                               (rows ids).
Proof.
  intros Hs Hwf Hvalid. split; [reflexivity|]. split; [reflexivity|].
  exists (mk [B; U] (flat_map (sequence_logits zero add mul embeddings kernel)
                              (rows ids))).
  split; [exact (call_on_rows Mask ids mask training B T Hs Hwf Hvalid)|].
  split; [reflexivity|]. split; [|reflexivity].
  unfold well_formed. cbn [values shape numel fold_right]. rewrite Nat.mul_1_r.
  assert (Hrows : length (rows ids) = B)
    by (unfold rows; rewrite Hs; apply chunks_length).
  rewrite <- Hrows. generalize (rows ids) as seqs.
  induction seqs as [|ts seqs IH]; [reflexivity|].
  cbn [flat_map length]. rewrite length_app, IH. unfold sequence_logits.
  rewrite vec_mat_length; [rewrite (hd_width _ _ kernel_rectangular); lia|].
  rewrite (hd_width _ _ kernel_rectangular). apply kernel_rectangular.
Qed.

End Weights.

#[local] Abbreviation default_model := (default_model zero one).

Lemma default_embedding_rectangular : rectangular 2 (_default_embedding zero one).
Proof. split; [discriminate | repeat constructor]. Qed.

Lemma default_kernel_rectangular : rectangular 3 (_defalt_kernel zero one).
Proof. split; [discriminate | repeat constructor]. Qed.

Lemma in_vocabulary_default (t : Z) :
  in_vocabulary default_model t = valid_id t.
Proof. reflexivity. Qed.

(** The default model on one sequence. *)
Lemma call_single (Mask : Type) (ts : list Z) (mask : tensor Mask) (training : bool) :
  forallb valid_id ts = true ->
  call default_model {| input_ids := Some (single ts); attention_mask := Some mask;
                        inputs_embeds := None |} training
  = inr {| logits := mk [1; 3]
                        (sequence_logits zero add mul (_default_embedding zero one)
                                         (_defalt_kernel zero one) ts) |}.
Proof.
  intros Hv. unfold SimpleTestModel.default_model.
  rewrite (call_on_rows (_default_embedding zero one) (_defalt_kernel zero one) 2 3
                        default_embedding_rectangular default_kernel_rectangular
                        eq_refl Mask (single ts) mask training 1 (length ts)).
  - unfold rows, single. cbn [shape values chunks flat_map].
    now rewrite firstn_all, app_nil_r.
  - reflexivity.
  - unfold well_formed, single. cbn [shape values numel fold_right]. lia.
  - exact Hv.
Qed.

(** X2. Calling the model on the dictionary [inputs_embeds] returns gives
    what calling it on the tokenized dictionary gives, errors included;
    and that dictionary carries the embedded tokens and the attention
    mask it was given, unchanged. *)
Theorem X2_call_after_inputs_embeds
        (Mask : Type) (self : model num) (ids : option (tensor Z))
        (mask : option (tensor Mask)) (training : bool) :
  let x := {| input_ids := ids; attention_mask := mask; inputs_embeds := None |} in
  call self x training
  = SimpleTestModel.bind (call_inputs_embeds self x training)
                         (fun x' => call self x' training)
  /\ (forall x', call_inputs_embeds self x training = inr x' ->
                 attention_mask x' = mask
                 /\ exists t z, ids = Some t
                                /\ embedding_call (_embedding self) t = inr z
                                /\ inputs_embeds x' = Some z).
Proof.
  cbv zeta. split.
  - unfold call, SimpleTestModel.call, call_inputs_embeds.
    cbn [inputs_embeds input_ids attention_mask].
    destruct ids as [t|]; [|reflexivity]. cbn [getitem bind].
    destruct (embedding_call (_embedding self) t) as [err|z]; [reflexivity|].
    cbn [bind]. destruct mask as [m|]; reflexivity.
  - intros x'. unfold call_inputs_embeds. cbn [inputs_embeds input_ids attention_mask].
    destruct ids as [t|]; [|discriminate]. cbn [getitem bind].
    destruct (embedding_call (_embedding self) t) as [err|z] eqn:Ez; [discriminate|].
    cbn [bind]. destruct mask as [m|]; [|discriminate]. cbn [getitem bind].
    intros [= <-]. split; [reflexivity|]. now exists t, z.
Qed.

(** X3. A tokenized input must have both keys: without [inputs_embeds],
    a missing [input_ids] raises [KeyError] whatever else is given, and a
    missing [attention_mask] raises [KeyError] once the tokens have been
    embedded, although its value is never used; with [inputs_embeds]
    given, neither key is looked up. *)
Theorem X3_call_missing_keys
        (Mask : Type) (self : model num) (ids : tensor Z) (z e : tensor num)
        (omask : option (tensor Mask)) (oids : option (tensor Z))
        (training : bool) :
  call self {| input_ids := None; attention_mask := omask;
               inputs_embeds := None |} training
  = inl (KeyError "input_ids")
  /\ (embedding_call (_embedding self) ids = inr z ->
      call self {| input_ids := Some ids; attention_mask := @None (tensor Mask);
                   inputs_embeds := None |} training
      = inl (KeyError "attention_mask"))
  /\ call self {| input_ids := oids; attention_mask := omask;
                  inputs_embeds := Some e |} training
     = call self {| input_ids := None; attention_mask := @None (tensor Mask);
                    inputs_embeds := Some e |} training.
Proof.
  split; [reflexivity|]. split; [|reflexivity].
  intros Hz. unfold call, SimpleTestModel.call, call_inputs_embeds.
  cbn [inputs_embeds input_ids attention_mask getitem bind]. now rewrite Hz.
Qed.

Lemma same_embedding_row (t t' : Z) :
  same_embedding t t' ->
  table_row (_embedding default_model) t = table_row (_embedding default_model) t'.
Proof.
  intros [->|[[->|[->| ->]] [->|[->| ->]]]]; reflexivity.
Qed.

Lemma same_embedding_gather (ts ts' : list Z) :
  Forall2 same_embedding ts ts' ->
  gather (_embedding default_model) ts = gather (_embedding default_model) ts'.
Proof.
  induction 1 as [|t t' ts ts' Ht Hts IH]; [reflexivity|].
  cbn [gather]. now rewrite (same_embedding_row _ _ Ht), IH.
Qed.

(** X4. The default model does not tell BOS, EOS and MASK apart: two
    batches of one shape whose tokens are pairwise equal or both among
    BOS, EOS and MASK get the same result, whatever the masks. *)
Theorem X4_bos_eos_mask_indistinguishable
        (Mask : Type) (ids ids' : tensor Z) (mask mask' : tensor Mask)
        (training : bool) :
  shape ids = shape ids' ->
  Forall2 same_embedding (values ids) (values ids') ->
  call default_model {| input_ids := Some ids; attention_mask := Some mask;
                        inputs_embeds := None |} training
  = call default_model {| input_ids := Some ids'; attention_mask := Some mask';
                          inputs_embeds := None |} training.
Proof.
  intros Hs Hv. unfold call, SimpleTestModel.call, call_inputs_embeds, embedding_call.
  cbn [inputs_embeds input_ids attention_mask getitem bind].
  rewrite (same_embedding_gather _ _ Hv), Hs.
  destruct (shape (_embedding default_model)) as [|? [|? [|? ?]]]; try reflexivity.
  destruct (gather (_embedding default_model) (values ids')); reflexivity.
Qed.

Section Laws.
Hypothesis add_zero_r : forall x, add x zero = x.
Hypothesis mul_zero_zero : mul zero zero = zero.

Lemma sum_without_pad (ts : list Z) (acc : list num) :
  length acc = 2 ->
  forallb valid_id ts = true ->
  fold_left (zip_with add)
            (map (fun t => squared (nth (Z.to_nat t) (_default_embedding zero one) [])) ts)
            acc
  = fold_left (zip_with add)
              (map (fun t => squared (nth (Z.to_nat t) (_default_embedding zero one) []))
                   (unpadded ts))
              acc.
Proof.
  revert acc; induction ts as [|t ts IH]; intros acc Hacc Hv; [reflexivity|].
  cbn [forallb] in Hv. apply andb_true_iff in Hv. destruct Hv as [Ht Hts].
  cbn [map fold_left unpadded filter].
  destruct (Z.eqb_spec t PAD) as [->|Hp]; cbn [negb].
  - fold (unpadded ts). rewrite <- IH by assumption. f_equal.
    destruct acc as [|a [|b [|c acc]]]; try discriminate.
    change (squared (nth (Z.to_nat PAD) (_default_embedding zero one) []))
      with [mul zero zero; mul zero zero].
    cbn [zip_with]. now rewrite mul_zero_zero, !add_zero_r.
  - cbn [map fold_left]. fold (unpadded ts). apply IH; [|exact Hts].
    rewrite zip_with_len, Hacc. unfold squared, SimpleTestModel.squared.
    rewrite length_map.
    assert (Hlen : length (nth (Z.to_nat t) (_default_embedding zero one) []) = 2).
    { unfold valid_id in Ht. apply andb_true_iff in Ht. destruct Ht as [H0 H1].
      apply Z.leb_le in H0. apply Z.ltb_lt in H1.
      assert (Hc : (t = 0 \/ t = 1 \/ t = 2 \/ t = 3 \/ t = 4)%Z) by lia.
      destruct Hc as [->|[->|[->|[->| ->]]]]; reflexivity. }
    rewrite Hlen. reflexivity.
Qed.

Lemma forallb_unpadded (ts : list Z) :
  forallb valid_id ts = true -> forallb valid_id (unpadded ts) = true.
Proof.
  induction ts as [|t ts IH]; [reflexivity|].
  cbn [forallb unpadded filter]. rewrite andb_true_iff. intros [Ht Hts].
  destruct (negb (t =? PAD)%Z); [cbn [forallb]; rewrite Ht|]; now apply IH.
Qed.

(** X5. Where zero is neutral for the addition and [0 * 0 = 0], PAD
    tokens add nothing: with the default weights a sequence and the same
    sequence without its PAD tokens get the same logits. *)
Theorem X5_pad_tokens_add_nothing
        (Mask : Type) (ts : list Z) (mask mask' : tensor Mask) (training : bool) :
  forallb valid_id ts = true ->
  call default_model {| input_ids := Some (single ts); attention_mask := Some mask;
                        inputs_embeds := None |} training
  = call default_model {| input_ids := Some (single (unpadded ts));
                          attention_mask := Some mask';
                          inputs_embeds := None |} training.
Proof.
  intros Hv. rewrite (call_single Mask ts mask training Hv).
  rewrite (call_single Mask (unpadded ts) mask' training (forallb_unpadded ts Hv)).
  do 3 f_equal. unfold sequence_logits. f_equal.
  now apply sum_without_pad.
Qed.

End Laws.

End Carrier.

Lemma X1_witness :
  rectangular 2 [[1; 2]; [0; 3]; [2; 2]]%Z
  /\ rectangular 1 [[1]; [2]]%Z
  /\ call 0%Z Z.add Z.mul (init [[1; 2]; [0; 3]; [2; 2]]%Z [[1]; [2]]%Z)
          {| input_ids := Some (mk [2; 2] [0; 2; 1; 1]%Z);
             attention_mask := Some sample_mask;
             inputs_embeds := None |} false
     = inr {| logits := mk [2; 1] [21; 36]%Z |}.
Proof.
  assert (He : rectangular 2 [[1; 2]; [0; 3]; [2; 2]]%Z)
    by (split; [discriminate | repeat constructor]).
  assert (Hk : rectangular 1 [[1]; [2]]%Z)
    by (split; [discriminate | repeat constructor]).
  split; [exact He|]. split; [exact Hk|].
  destruct (X1_call_with_any_weights
              Z 0%Z Z.add Z.mul [[1; 2]; [0; 3]; [2; 2]]%Z [[1]; [2]]%Z 2 1
              He Hk eq_refl bool (mk [2; 2] [0; 2; 1; 1]%Z) sample_mask false 2 2
              eq_refl eq_refl eq_refl)
    as [_ [_ [out [Hcall [Hshape [_ Hvalues]]]]]].
  rewrite Hcall. destruct out as [s v]. cbn [shape values] in Hshape, Hvalues.
  now rewrite Hshape, Hvalues.
Defined.

Lemma X3_witness :
  embedding_call (_embedding (default_model 0%Z 1%Z)) sample_ids
  = inr (mk [2; 3; 2] [1; 0; 1; 0; 0; 1; 0; 0; 0; 1; 0; 1]%Z)
  /\ call 0%Z Z.add Z.mul (default_model 0%Z 1%Z)
          {| input_ids := Some sample_ids; attention_mask := @None (tensor bool);
             inputs_embeds := None |} false
     = inl (KeyError "attention_mask").
Proof.
  split; [reflexivity|].
  apply (X3_call_missing_keys
           Z 0%Z Z.add Z.mul bool (default_model 0%Z 1%Z) sample_ids
           (mk [2; 3; 2] [1; 0; 1; 0; 0; 1; 0; 0; 0; 1; 0; 1]%Z)
           (mk [] []) None None false).
  reflexivity.
Defined.

Lemma X4_witness :
  shape sample_ids = shape (mk [2; 3] [3; 3; 4; 2; 1; 0]%Z)
  /\ Forall2 same_embedding (values sample_ids) [3; 3; 4; 2; 1; 0]%Z
  /\ call 0%Z Z.add Z.mul (default_model 0%Z 1%Z)
          {| input_ids := Some sample_ids; attention_mask := Some sample_mask;
             inputs_embeds := None |} true
     = call 0%Z Z.add Z.mul (default_model 0%Z 1%Z)
            {| input_ids := Some (mk [2; 3] [3; 3; 4; 2; 1; 0]%Z);
               attention_mask := Some sample_mask;
               inputs_embeds := None |} true.
Proof.
  assert (Hv : Forall2 same_embedding (values sample_ids) [3; 3; 4; 2; 1; 0]%Z).
  { repeat constructor; unfold same_embedding; lia. }
  split; [reflexivity|]. split; [exact Hv|].
  apply (X4_bos_eos_mask_indistinguishable
           Z 0%Z 1%Z Z.add Z.mul bool sample_ids (mk [2; 3] [3; 3; 4; 2; 1; 0]%Z)
           sample_mask sample_mask true eq_refl Hv).
Defined.

Lemma X5_witness :
  (forall x : Z, x + 0 = x)%Z
  /\ (0 * 0 = 0)%Z
  /\ forallb valid_id [0; 3; 2; 3; 2; 1]%Z = true
  /\ call 0%Z Z.add Z.mul (default_model 0%Z 1%Z)
          {| input_ids := Some (single [0; 3; 2; 3; 2; 1]%Z);
             attention_mask := Some sample_mask; inputs_embeds := None |} false
     = call 0%Z Z.add Z.mul (default_model 0%Z 1%Z)
            {| input_ids := Some (single (unpadded [0; 3; 2; 3; 2; 1]%Z));
               attention_mask := Some sample_mask; inputs_embeds := None |} false.
Proof.
  split; [exact Z.add_0_r|]. split; [reflexivity|]. split; [reflexivity|].
  apply (X5_pad_tokens_add_nothing
           Z 0%Z 1%Z Z.add Z.mul Z.add_0_r eq_refl bool
           [0; 3; 2; 3; 2; 1]%Z sample_mask sample_mask false).
  reflexivity.
Defined.

End SimpleTestModelWeightsFacts.

Module AUROCMoreFacts.
Import Tensor ListFacts TensorFacts AUROC AUROCFacts.

Lemma flat_map_singletons {A B} (f : A -> list B) (g : A -> B) (l : list A) :
  (forall a, In a l -> f a = [g a]) -> flat_map f l = map g l.
Proof.
  induction l as [|a l IH]; intros H; [reflexivity|].
  cbn [flat_map map]. rewrite (H a) by now left. cbn [app]. f_equal.
  apply IH. intros b Hb. apply H. now right.
Qed.

Section Wrapper.
Variables (L P W St E : Type).
Variable AUC_update_state :
  tensor L -> tensor P -> option (tensor W) -> M St E unit.

(** X6. From a well-formed [[N,2]] prediction tensor the parent's
    accumulator receives a well-formed rank-1 tensor of exactly [N]
    predictions, the [i]-th being the second entry of row [i]; the
    first column never reaches it. *)
Theorem X6_parent_receives_N_predictions
        (y_true : tensor L) (y_pred : tensor P)
        (sample_weight : option (tensor W)) (n : nat) :
  shape y_pred = [n; 2] ->
  well_formed y_pred ->
  exists col,
    update_state AUC_update_state y_true y_pred sample_weight
    = super (AUC_update_state y_true col sample_weight)
    /\ shape col = [n]
    /\ well_formed col
    /\ forall i, i < n ->
         exists p, nth_error (values y_pred) (2 * i + 1) = Some p
                   /\ nth_error (values col) i = Some p.
Proof.
  intros Hs Hwf.
  assert (Hlen : length (values y_pred) = 2 * n).
  { unfold well_formed in Hwf. rewrite Hs in Hwf. simpl in Hwf. lia. }
  exists (positive_class_column y_pred).
  split; [exact (update_state_on_None_2 _ _ _ _ _ AUC_update_state
                                         y_true y_pred sample_weight n Hs)|].
  unfold positive_class_column. rewrite Hs. cbn [hd shape values].
  split; [reflexivity|].
  assert (Hsome : forall i, i < n ->
             exists p, nth_error (values y_pred) (2 * i + 1) = Some p).
  { intros i Hi.
    destruct (nth_error (values y_pred) (2 * i + 1)) as [p|] eqn:Ep; [now exists p|].
    apply nth_error_None in Ep. lia. }
  assert (Hvals : forall k, k <= n ->
             forall i, i < k ->
             nth_error
               (flat_map (fun i => match nth_error (values y_pred) (2 * i + 1) with
                                   | Some p => [p]
                                   | None => []
                                   end) (seq 0 k)) i
             = nth_error (values y_pred) (2 * i + 1)
             /\ length
                  (flat_map (fun i => match nth_error (values y_pred) (2 * i + 1) with
                                      | Some p => [p]
                                      | None => []
                                      end) (seq 0 k)) = k).
  { induction k as [|k IH]; intros Hk i Hi; [lia|].
    rewrite seq_S, flat_map_app. change (0 + k) with k. cbn [flat_map].
    destruct (Hsome k ltac:(lia)) as [p Hp]. rewrite Hp. cbn [app].
    assert (Hk' : length
                    (flat_map (fun i => match nth_error (values y_pred) (2 * i + 1) with
                                        | Some p => [p]
                                        | None => []
                                        end) (seq 0 k)) = k).
    { destruct k as [|k']; [reflexivity|]. apply (IH ltac:(lia) 0). lia. }
    split; [|rewrite length_app, Hk'; simpl; lia].
    destruct (Nat.eq_dec i k) as [->|Hne].
    - rewrite nth_error_app2 by lia. rewrite Hk', Nat.sub_diag, Hp. reflexivity.
    - rewrite nth_error_app1 by lia. apply IH; lia. }
  split.
  - unfold well_formed. cbn [values shape numel fold_right]. rewrite Nat.mul_1_r.
    destruct n as [|n']; [reflexivity|]. apply (Hvals (S n') (le_n _) 0). lia.
  - intros i Hi. destruct (Hsome i Hi) as [p Hp]. exists p. split; [exact Hp|].
    rewrite <- Hp. apply (Hvals n (le_n _) i Hi).
Qed.

End Wrapper.

Lemma X6_witness :
  shape y_pred3 = [3; 2]
  /\ well_formed y_pred3
  /\ exists col,
      update_state counting_update y_true3 y_pred3 None
      = super (counting_update y_true3 col None)
      /\ shape col = [3].
Proof.
  split; [reflexivity|]. split; [reflexivity|].
  destruct (X6_parent_receives_N_predictions
              bool Z Z counting_state counting_error counting_update
              y_true3 y_pred3 None 3 eq_refl eq_refl) as [col [Hu [Hs _]]].
  exists col. now split.
Defined.

End AUROCMoreFacts.

Module SplitSizeFacts.
Import Split Dataset SplitFacts.

Local Open Scope string_scope.

(** The 80% boundary in closed form. *)
Lemma boundary_closed_form (n : nat) : boundary n = (8 * n + 5) / 10.
Proof.
  unfold boundary, pct_to_abs_closest.
  pose proof (Z.div_mod (80 * Z.of_nat n) 100 ltac:(lia)) as Hdm.
  pose proof (Z.mod_pos_bound (80 * Z.of_nat n) 100 ltac:(lia)) as Hr.
  pose proof (Nat.div_mod_eq (8 * n + 5) 10) as Hn.
  pose proof (Nat.mod_upper_bound (8 * n + 5) 10 ltac:(lia)) as Hm.
  destruct (Z.ltb_spec (2 * ((80 * Z.of_nat n) mod 100)) 100);
    [|destruct (Z.ltb_spec 100 (2 * ((80 * Z.of_nat n) mod 100)));
      [|destruct (Z.even ((80 * Z.of_nat n) / 100))]]; lia.
Qed.

(** X7. For a raw train split of [n] examples, [80 n] at most [2^53]
    (the sizes for which the library's rounding in double precision is
    the exact one), the train split of an adapter has [(8n+5)/10]
    examples (80% of [n], rounded to the closest integer) and the
    validation split the remaining ones; the validation split is empty
    exactly when [n <= 2], the train split exactly when [n = 0]. *)
Theorem X7_sizes_of_train_and_valid
        (d : descriptor) (sizes : name2len) (n : nat) :
  In d adapters ->
  lookup "train" sizes = Some n ->
  (80 * Z.of_nat n <= 2 ^ 53)%Z ->
  exists train valid,
    examples (_split_train d) sizes = Some train
    /\ examples (_split_valid d) sizes = Some valid
    /\ length train = (8 * n + 5) / 10
    /\ length valid = n - (8 * n + 5) / 10
    /\ (valid = [] <-> n <= 2)
    /\ (train = [] <-> n = 0).
Proof.
  intros Hd Hn _.
  assert (Hsplits : _split_train d = "train[:80%]" /\ _split_valid d = "train[80%:]")
    by (destruct Hd as [<-|[<-|[]]]; split; reflexivity).
  destruct Hsplits as [-> ->].
  rewrite (examples_train sizes n Hn), (examples_valid sizes n Hn).
  eexists; eexists. split; [reflexivity|]. split; [reflexivity|].
  rewrite !length_map, !length_seq, boundary_closed_form.
  pose proof (Nat.div_mod_eq (8 * n + 5) 10) as Hdm.
  pose proof (Nat.mod_upper_bound (8 * n + 5) 10 ltac:(lia)) as Hm.
  split; [reflexivity|]. split; [reflexivity|]. split; split; intros H.
  - apply (f_equal (@length _)) in H. rewrite length_map, length_seq in H.
    cbn [length] in H. lia.
  - replace (n - (8 * n + 5) / 10) with 0 by lia. reflexivity.
  - apply (f_equal (@length _)) in H. rewrite length_map, length_seq in H.
    cbn [length] in H. lia.
  - subst n. reflexivity.
Qed.

Lemma X7_witness :
  In MRPCDataset adapters
  /\ lookup "train" small_sizes = Some 13
  /\ (80 * Z.of_nat 13 <= 2 ^ 53)%Z
  /\ exists train valid,
      examples (_split_train MRPCDataset) small_sizes = Some train
      /\ examples (_split_valid MRPCDataset) small_sizes = Some valid
      /\ length train = (8 * 13 + 5) / 10.
Proof.
  assert (Hd : In MRPCDataset adapters) by (right; now left).
  assert (Hb : (80 * Z.of_nat 13 <= 2 ^ 53)%Z) by (vm_compute; discriminate).
  split; [exact Hd|]. split; [reflexivity|]. split; [exact Hb|].
  destruct (X7_sizes_of_train_and_valid MRPCDataset small_sizes 13 Hd eq_refl Hb)
    as [train [valid [Ht [Hv [Hl _]]]]].
  exists train, valid. now repeat split.
Defined.

End SplitSizeFacts.

Module SupervisedFacts.
Import Supervised.

Local Open Scope string_scope.

Section Items.
Variable V : Type.

#[local] Abbreviation getitem := (@getitem V).

(** [_as_supervised] reads the sentence fields and the label and
    nothing else: two records that agree on those keys map to the same
    pair (or raise the same [KeyError]); when it returns, the label is
    the record's own and the features are its one sentence (CoLA) or its
    two sentences in order (MRPC). *)
Lemma as_supervised_reads_sentences_and_label (it it' : item V) :
  ((getitem it "sentence" = getitem it' "sentence" ->
    getitem it "label" = getitem it' "label" ->
    CoLA_as_supervised it = CoLA_as_supervised it')
   /\ forall x label,
       CoLA_as_supervised it = inr (x, label) ->
       getitem it "label" = inr label
       /\ exists s, x = [s] /\ getitem it "sentence" = inr s)
  /\ ((getitem it "sentence1" = getitem it' "sentence1" ->
       getitem it "sentence2" = getitem it' "sentence2" ->
       getitem it "label" = getitem it' "label" ->
       MRPC_as_supervised it = MRPC_as_supervised it')
      /\ forall x label,
          MRPC_as_supervised it = inr (x, label) ->
          getitem it "label" = inr label
          /\ exists s1 s2, x = [s1; s2]
                           /\ getitem it "sentence1" = inr s1
                           /\ getitem it "sentence2" = inr s2).
Proof.
  split; split.
  - intros Hs Hl. unfold CoLA_as_supervised. now rewrite Hs, Hl.
  - intros x label. unfold CoLA_as_supervised.
    destruct (getitem it "sentence") as [e|s]; [discriminate|]. cbn [bind].
    destruct (getitem it "label") as [e|l]; [discriminate|]. cbn [bind].
    intros [= <- <-]. split; [reflexivity|]. now exists s.
  - intros H1 H2 Hl. unfold MRPC_as_supervised. now rewrite H1, H2, Hl.
  - intros x label. unfold MRPC_as_supervised.
    destruct (getitem it "sentence1") as [e|s1]; [discriminate|]. cbn [bind].
    destruct (getitem it "sentence2") as [e|s2]; [discriminate|]. cbn [bind].
    destruct (getitem it "label") as [e|l]; [discriminate|]. cbn [bind].
    intros [= <- <-]. split; [reflexivity|]. now exists s1, s2.
Qed.

End Items.

End SupervisedFacts.

Module PipelineFacts.
Import JSON Reader Frame ListFacts ReaderFacts.

Lemma traverse_length {A B} (f : A -> option B) (l : list A) (l' : list B) :
  traverse f l = Some l' -> length l' = length l.
Proof.
  revert l'; induction l as [|a l IH]; intros l'; cbn [traverse].
  - intros [= <-]. reflexivity.
  - destruct (f a) as [b|]; [|discriminate].
    destruct (traverse f l) as [bs|]; [|discriminate].
    intros [= <-]. cbn [length]. now rewrite (IH bs eq_refl).
Qed.

Lemma concat_axis1_length (a b : frame) :
  length a = length b -> length (concat_axis1 a b) = length a.
Proof.
  revert b; induction a as [|r a IH]; intros [|r' b]; cbn [concat_axis1 length];
    try discriminate; [reflexivity|].
  intros [= H]. now rewrite IH.
Qed.

Lemma explode_row_nonempty (column : string) (r : row) :
  1 <= length (explode_row column r).
Proof.
  unfold explode_row. destruct (get r column) as [[| | | | |[|x xs]|]|]; simpl; lia.
Qed.

Lemma flat_map_explode_length (column : string) (df : frame) :
  length df <= length (flat_map (explode_row column) df).
Proof.
  induction df as [|r df IH]; [simpl; lia|].
  cbn [flat_map length]. rewrite length_app.
  pose proof (explode_row_nonempty column r). lia.
Qed.

(** X9. Normalizing and exploding never drops a record: whenever the
    three lines return a dataframe, it has at least as many rows as
    records were loaded. *)
Theorem X9_no_record_is_dropped (records : list json) (df : frame) :
  normalize_and_explode records = Some df ->
  length records <= length df.
Proof.
  unfold normalize_and_explode, json_normalize.
  destruct (traverse _ (map Some records)) as [df0|] eqn:E0; [|discriminate].
  apply traverse_length in E0. rewrite length_map in E0.
  unfold explode. destruct (has_column df0 "results"); [|discriminate].
  unfold pop.
  destruct (traverse _ (map _ (flat_map (explode_row "results") df0))) as [res|] eqn:E1;
    [|discriminate].
  apply traverse_length in E1. rewrite length_map in E1.
  intros [= <-]. rewrite concat_axis1_length.
  - rewrite length_map, <- E0. apply flat_map_explode_length.
  - unfold add_prefix. now rewrite !length_map.
Qed.

Lemma X9_witness :
  normalize_and_explode [to_json two_readings; to_json no_reading]
  = Some (flat_map record_rows [two_readings; no_reading])
  /\ length [to_json two_readings; to_json no_reading]
     <= length (flat_map record_rows [two_readings; no_reading]).
Proof.
  split; [reflexivity|].
  apply (X9_no_record_is_dropped [to_json two_readings; to_json no_reading]).
  reflexivity.
Defined.



End PipelineFacts.

Module TableFacts.
Import JSON Frame Table ListFacts.

Local Open Scope string_scope.

Lemma mem_true_iff (c : string) (l : list string) : mem c l = true <-> In c l.
Proof.
  induction l as [|x l IH]; cbn [mem In]; [split; [discriminate | intros []]|].
  rewrite orb_true_iff, String.eqb_eq, IH. reflexivity.
Qed.

Lemma get_dict_set_same (r : row) (c : string) (x : json) :
  get (dict_set c x r) c = Some x.
Proof.
  induction r as [|[k v] r IH]; cbn [dict_set get].
  - now rewrite String.eqb_refl.
  - destruct (String.eqb_spec k c) as [->|Hk]; cbn [get].
    + now rewrite String.eqb_refl.
    + destruct (String.eqb_spec k c); [contradiction | exact IH].
Qed.

Lemma get_dict_set_other (r : row) (c c' : string) (x : json) :
  c' <> c -> get (dict_set c x r) c' = get r c'.
Proof.
  intros Hc. induction r as [|[k v] r IH]; cbn [dict_set get].
  - destruct (String.eqb_spec c c'); [now subst | reflexivity].
  - destruct (String.eqb_spec k c) as [->|Hk]; cbn [get].
    + destruct (String.eqb_spec c c'); [now subst | reflexivity].
    + destruct (String.eqb_spec k c'); [reflexivity | exact IH].
Qed.

Lemma get_remove_same (r : row) (c : string) : get (remove c r) c = None.
Proof.
  induction r as [|[k v] r IH]; [reflexivity|].
  cbn [remove filter fst]. destruct (String.eqb_spec k c) as [->|Hk]; cbn [negb].
  - exact IH.
  - cbn [get]. destruct (String.eqb_spec k c); [contradiction | exact IH].
Qed.

Lemma get_remove_other (r : row) (c c' : string) :
  c' <> c -> get (remove c r) c' = get r c'.
Proof.
  intros Hc. induction r as [|[k v] r IH]; [reflexivity|].
  cbn [remove filter fst get]. destruct (String.eqb_spec k c) as [->|Hk]; cbn [negb].
  - destruct (String.eqb_spec c c'); [now subst | exact IH].
  - cbn [get]. destruct (String.eqb_spec k c'); [reflexivity | exact IH].
Qed.

(** Reading back a cell that was written, and any other cell. *)
Lemma get_set_cell_same (r : row) (c : string) (v : option json) :
  get (set_cell r c v) c = v.
Proof.
  destruct v as [x|]; [apply get_dict_set_same | apply get_remove_same].
Qed.

Lemma get_set_cell_other (r : row) (c c' : string) (v : option json) :
  c' <> c -> get (set_cell r c v) c' = get r c'.
Proof.
  destruct v as [x|]; [apply get_dict_set_other | apply get_remove_other].
Qed.

Lemma index_of_nth (x : string) (l : list string) (i : nat) :
  index_of x l = Some i -> nth_error l i = Some x.
Proof.
  revert i; induction l as [|y l IH]; intros i; cbn [index_of]; [discriminate|].
  destruct (String.eqb_spec y x) as [->|Hy]; [intros [= <-]; reflexivity|].
  destruct (index_of x l) as [j|]; [|discriminate].
  intros [= <-]. cbn [nth_error]. now apply IH.
Qed.

(** The codes of [factorize] point at the values they stand for. *)
Lemma factorize_from_spec (values uniques : list string)
      (codes : list nat) (u : list string) :
  factorize_from uniques values = (codes, u) ->
  (exists ext, u = uniques ++ ext)%list
  /\ Forall2 (fun v i => nth_error u i = Some v) values codes.
Proof.
  revert uniques codes u; induction values as [|v values IH];
    intros uniques codes u; cbn [factorize_from].
  - intros [= <- <-]. split; [exists []; now rewrite app_nil_r | constructor].
  - destruct (index_of v uniques) as [i|] eqn:Ei.
    + destruct (factorize_from uniques values) as [codes' u'] eqn:Ef.
      intros [= <- <-]. destruct (IH _ _ _ Ef) as [[ext ->] Hall].
      split; [now exists ext|]. constructor; [|exact Hall].
      apply index_of_nth in Ei. rewrite nth_error_app1; [exact Ei|].
      apply nth_error_Some. now rewrite Ei.
    + destruct (factorize_from (uniques ++ [v]) values) as [codes' u'] eqn:Ef.
      intros [= <- <-]. destruct (IH _ _ _ Ef) as [[ext ->] Hall].
      split; [exists (v :: ext); now rewrite <- app_assoc|].
      constructor; [|exact Hall].
      rewrite <- app_assoc. rewrite nth_error_app2 by lia.
      now rewrite Nat.sub_diag.
Qed.

Lemma traverse_Forall2 {A B} (f : A -> option B) (l : list A) (l' : list B) :
  traverse f l = Some l' -> Forall2 (fun a b => f a = Some b) l l'.
Proof.
  revert l'; induction l as [|a l IH]; intros l'; cbn [traverse].
  - intros [= <-]. constructor.
  - destruct (f a) as [b|] eqn:Ea; [|discriminate].
    destruct (traverse f l) as [bs|]; [|discriminate].
    intros [= <-]. constructor; [exact Ea | now apply IH].
Qed.

Lemma traverse_total {A B} (f : A -> option B) (l : list A) :
  (forall a, In a l -> exists b, f a = Some b) -> exists l', traverse f l = Some l'.
Proof.
  induction l as [|a l IH]; intros H; [now exists []|].
  cbn [traverse]. destruct (H a (or_introl eq_refl)) as [b ->].
  destruct IH as [bs ->]; [intros x Hx; apply H; now right|]. now exists (b :: bs).
Qed.

Lemma nth_map_some {A B} (f : A -> B) (l : list A) (i : nat) (x : A) (d : B) :
  nth_error l i = Some x -> nth i (map f l) d = f x.
Proof.
  revert i; induction l as [|a l IH]; intros [|i]; cbn; try discriminate.
  - now intros [= ->].
  - apply IH.
Qed.

Lemma select_rows (df : table) (rs : list row) (names : list string)
      (idx : list nat) (cols : list string) :
  Forall2 (fun r n => target_metric r = Some n) rs names ->
  Forall2 (fun v i => nth_error cols i = Some v) (map (String.append "results.") names) idx ->
  Forall2 (selected df) rs
          (zip_with (fun r v => set_cell r "metric" v) rs
                    (zip_with (fun line i => nth i line None)
                              (map (fun r => map (cell df r) cols) rs) idx)).
Proof.
  intros Hn; revert idx; induction Hn as [|r n rs names Hr Hrs IH]; intros idx Hi.
  - constructor.
  - cbn [map] in Hi. inversion Hi as [|? i ? idx' Hc Hi']; subst.
    cbn [map zip_with]. constructor; [|now apply IH].
    exists n. split; [exact Hr|]. f_equal.
    now apply nth_map_some.
Qed.

(** The frame [select_target_metric] returns. *)
Lemma select_target_metric_returns (df : table) :
  mem "target_metric" (columns df) = true ->
  distinct (columns df) = true ->
  (forall r, In r (rows df) -> exists tm, target_metric r = Some tm) ->
  exists df',
    select_target_metric df = Return df'
    /\ columns df' = (if mem "metric" (columns df) then columns df
                      else columns df ++ ["metric"])%list
    /\ Forall2 (selected df) (rows df) (rows df').
Proof.
  intros Hc Hd Hall. unfold select_target_metric. rewrite Hc, Hd. cbn [negb].
  destruct (traverse_total target_metric (rows df) Hall) as [names Hn].
  rewrite Hn. apply traverse_Forall2 in Hn.
  destruct (factorize (map (String.append "results.") names)) as [idx cols] eqn:Ef.
  apply factorize_from_spec in Ef. destruct Ef as [_ Hidx].
  eexists. split; [reflexivity|]. split; [reflexivity|].
  cbn [rows assign]. now apply select_rows with (names := names).
Qed.

(** X11. [select_target_metric] of faithfulness_plot.py, on a table
    whose rows all name a target metric: it keeps the rows in number and
    order, adds the column [metric] (or replaces it) and changes no other
    cell; the [metric] of a row is the row's own value under
    [results.<its target metric>], NaN when the table has no such
    column. *)
Theorem X11_select_target_metric_per_row (df : table) :
  mem "target_metric" (columns df) = true ->
  distinct (columns df) = true ->
  (forall r, In r (rows df) -> exists tm, target_metric r = Some tm) ->
  exists df',
    select_target_metric df = Return df'
    /\ In "metric" (columns df')
    /\ (forall c, In c (columns df) -> In c (columns df'))
    /\ length (rows df') = length (rows df)
    /\ forall i r r',
        nth_error (rows df) i = Some r ->
        nth_error (rows df') i = Some r' ->
        (forall c, c <> "metric" -> get r' c = get r c)
        /\ exists tm,
            target_metric r = Some tm
            /\ get r' "metric"
               = (if mem ("results." ++ tm) (columns df)
                  then get r ("results." ++ tm) else None).
Proof.
  intros Hc Hd Hall.
  destruct (select_target_metric_returns df Hc Hd Hall) as [df' [Hs [Hcols Hrows]]].
  exists df'. split; [exact Hs|]. rewrite Hcols.
  split; [|split; [|split]].
  - destruct (mem "metric" (columns df)) eqn:Em; [now apply mem_true_iff|].
    apply in_or_app. right. now left.
  - intros c Hin. destruct (mem "metric" (columns df)); [exact Hin|].
    apply in_or_app. now left.
  - symmetry. eapply Forall2_length. exact Hrows.
  - intros i r r' Hr Hr'.
    assert (Hsel : selected df r r').
    { clear -Hrows Hr Hr'. revert i Hr Hr'.
      induction Hrows as [|a b l l' Hab Hl IH]; intros [|i]; cbn [nth_error];
        try discriminate.
      - now intros [= <-] [= <-].
      - apply IH. }
    destruct Hsel as [tm [Htm ->]]. split.
    + intros c Hne. now apply get_set_cell_other.
    + exists tm. split; [exact Htm|]. now rewrite get_set_cell_same.
Qed.

Lemma X11_witness :
  mem "target_metric" (columns sample_table) = true
  /\ distinct (columns sample_table) = true
  /\ (forall r, In r (rows sample_table) -> exists tm, target_metric r = Some tm)
  /\ exists df', select_target_metric sample_table = Return df'
                 /\ In "metric" (columns df').
Proof.
  assert (H : forall r, In r (rows sample_table) -> exists tm, target_metric r = Some tm).
  { intros r [<-|[<-|[<-|[]]]]; eexists; reflexivity. }
  split; [reflexivity|]. split; [reflexivity|]. split; [exact H|].
  destruct (X11_select_target_metric_per_row sample_table eq_refl eq_refl H)
    as [df' [Hs [Hm _]]].
  exists df'. now split.
Defined.

(** X12. [select_target_metric] of unmasked_performance_plot.py, on one
    group: it returns the first row's value under
    [results.<its target metric>] when the table has that column, which
    is the [metric] the other script's function gives that row; when the
    table lacks the column it raises [KeyError], where the other script's
    function gives NaN; an empty group raises [IndexError]. *)
Theorem X12_select_target_metric_of_group
        (partial_df : table) (r : row) (rest : list row) (tm : string) :
  mem "target_metric" (columns partial_df) = true ->
  distinct (columns partial_df) = true ->
  rows partial_df = r :: rest ->
  target_metric r = Some tm ->
  (forall r', In r' rest -> exists tm', target_metric r' = Some tm') ->
  (if mem ("results." ++ tm) (columns partial_df)
   then select_target_metric_of_group partial_df
        = Return (set_cell [] "metric" (get r ("results." ++ tm)))
   else select_target_metric_of_group partial_df
        = Raise (KeyError ("results." ++ tm)))
  /\ (exists df' r' rest',
        select_target_metric partial_df = Return df'
        /\ rows df' = r' :: rest'
        /\ get r' "metric"
           = (if mem ("results." ++ tm) (columns partial_df)
              then get r ("results." ++ tm) else None))
  /\ select_target_metric_of_group
       {| columns := columns partial_df; rows := [] |}
     = Raise IndexError.
Proof.
  intros Hc Hd Hrows Htm Hrest. split; [|split].
  - unfold select_target_metric_of_group. rewrite Hc, Hd, Hrows, Htm. cbn [negb].
    destruct (mem ("results." ++ tm) (columns partial_df)); reflexivity.
  - assert (Hall : forall x, In x (rows partial_df) -> exists t, target_metric x = Some t).
    { rewrite Hrows. intros x [<-|Hx]; [now exists tm | now apply Hrest]. }
    destruct (select_target_metric_returns partial_df Hc Hd Hall)
      as [df' [Hs [_ Hsel]]].
    rewrite Hrows in Hsel. inversion Hsel as [|? r' ? rest' Hr _ Heq1 Heq2]; subst.
    exists df', r', rest'. split; [exact Hs|]. split; [now symmetry|].
    destruct Hr as [tm' [Htm' ->]]. rewrite Htm in Htm'. injection Htm' as <-.
    now rewrite get_set_cell_same.
  - unfold select_target_metric_of_group. cbn [columns rows]. now rewrite Hc, Hd.
Qed.

Lemma X12_witness :
  mem "target_metric" (columns sample_table) = true
  /\ distinct (columns sample_table) = true
  /\ select_target_metric_of_group sample_table
     = Return [("metric", JFloat "0.75")].
Proof.
  split; [reflexivity|]. split; [reflexivity|].
  assert (H : forall r', In r' (skipn 1 (rows sample_table)) ->
                         exists tm', target_metric r' = Some tm').
  { intros r [<-|[<-|[]]]; eexists; reflexivity. }
  apply (X12_select_target_metric_of_group
           sample_table (hd [] (rows sample_table)) (skipn 1 (rows sample_table))
           "accuracy" eq_refl eq_refl eq_refl eq_refl H).
Defined.

Lemma get_app (a b : row) (c : string) :
  get (a ++ b)%list c = match get a c with Some v => Some v | None => get b c end.
Proof.
  induction a as [|[k v] a IH]; [reflexivity|].
  cbn [app get]. destruct (String.eqb k c); [reflexivity | exact IH].
Qed.

Lemma string_key_get (on : string) (r : row) (m : string) :
  string_key on r = Some m -> get r on = Some (JString m).
Proof.
  unfold string_key. destruct (get r on) as [[| | | |s| |]|]; try discriminate.
  now intros [= ->].
Qed.

(** The rows of [model_mapping] that match a model. *)
Lemma model_mapping_matches (l : row) (m : string) :
  flat_map (fun kr : string * row =>
              if key_is (fst kr) (Some (JString m))
              then [(l ++ remove "args.model" (snd kr))%list]
              else [])
           (combine ["roberta-m15"; "roberta-m20"; "roberta-m30"; "roberta-m40";
                     "roberta-m50"; "roberta-sb"; "roberta-sl"]
                    (rows model_mapping))
  = match category_of m with
    | Some c => [(l ++ [("model_category", JString c)])%list]
    | None => []
    end.
Proof.
  unfold category_of. cbn [rows model_mapping combine flat_map fst snd key_is mem].
  repeat match goal with
         | |- context [String.eqb m ?k] =>
             destruct (String.eqb_spec m k) as [->|?];
             [reflexivity
             | rewrite (proj2 (String.eqb_neq k m)) by congruence; cbn [app orb]]
         end.
  reflexivity.
Qed.

Lemma category_of_cases (m c : string) :
  category_of m = Some c -> c = "masking-ratio" \/ c = "size".
Proof.
  unfold category_of.
  destruct (mem m _); [intros [= <-]; now left|].
  destruct (mem m _); [intros [= <-]; now right | discriminate].
Qed.

Lemma filter_split_length {A} (p q : A -> bool) (l : list A) :
  (forall x, In x l -> p x = negb (q x)) ->
  length (filter p l) + length (filter q l) = length l.
Proof.
  induction l as [|x l IH]; intros H; [reflexivity|].
  cbn [filter]. rewrite (H x (or_introl eq_refl)).
  specialize (IH (fun y Hy => H y (or_intror Hy))).
  destruct (q x); cbn [negb length]; lia.
Qed.

Lemma with_category_length (ls : list row) :
  length (flat_map with_category ls) <= length ls.
Proof.
  induction ls as [|l ls IH]; [simpl; lia|].
  cbn [flat_map length]. rewrite length_app.
  assert (length (with_category l) <= 1).
  { unfold with_category. destruct (string_key _ l) as [m|]; [|simpl; lia].
    destruct (category_of m); simpl; lia. }
  lia.
Qed.

Lemma merge_model_mapping (df : table) :
  mem "args.model" (columns df) = true ->
  distinct (columns df) = true ->
  mem "model_category" (columns df) = false ->
  (forall r, In r (rows df) -> exists m, string_key "args.model" r = Some m) ->
  merge df model_mapping "args.model"
  = Return {| columns := (columns df ++ ["model_category"])%list;
              rows := flat_map with_category (rows df) |}.
Proof.
  intros Hc Hd Hm Hall. unfold merge. rewrite Hc, Hd.
  cbn [columns model_mapping mem String.eqb Ascii.eqb Bool.eqb orb andb negb distinct
       others filter existsb].
  rewrite Hm. cbn [orb].
  destruct (traverse_total (string_key "args.model") (rows df) Hall) as [keys ->].
  change (traverse (string_key "args.model") (rows model_mapping))
    with (Some ["roberta-m15"; "roberta-m20"; "roberta-m30"; "roberta-m40";
                "roberta-m50"; "roberta-sb"; "roberta-sl"]).
  cbv iota beta. do 2 f_equal. apply flat_map_ext_in. intros l Hl.
  destruct (Hall l Hl) as [m Hkey]. unfold with_category. rewrite Hkey.
  rewrite (string_key_get _ _ _ Hkey). apply model_mapping_matches.
Qed.

(** X13. Merging with [model_mapping] on [args.model] keeps exactly the
    rows whose model is one of the seven listed, each once and otherwise
    unchanged, and gives them the category of their model; rows of any
    other model are dropped: the merged rows are, up to their order, the
    rows of the table each replaced by itself with its category, or by
    nothing.  Every row kept is in exactly one of the two categories the
    plot stage loops over, so the two queries of faithfulness_plot.py
    split the merged rows between them. *)
Theorem X13_merge_with_model_mapping (df : table) :
  mem "args.model" (columns df) = true ->
  distinct (columns df) = true ->
  mem "model_category" (columns df) = false ->
  (forall r, In r (rows df) ->
             (exists m, string_key "args.model" r = Some m)
             /\ get r "model_category" = None) ->
  exists merged,
    merge df model_mapping "args.model" = Return merged
    /\ columns merged = (columns df ++ ["model_category"])%list
    /\ Permutation (rows merged) (flat_map with_category (rows df))
    /\ length (rows merged) <= length (rows df)
    /\ (forall r', In r' (rows merged) <->
          exists l m c,
            In l (rows df) /\ string_key "args.model" l = Some m
            /\ category_of m = Some c
            /\ r' = (l ++ [("model_category", JString c)])%list)
    /\ (forall r', In r' (rows merged) ->
          (in_category r' "masking-ratio" = true /\ in_category r' "size" = false)
          \/ (in_category r' "masking-ratio" = false /\ in_category r' "size" = true))
    /\ length (PlotStage.query in_category (fun _ => true) PlotStage.faithfulness_plot
                               (rows merged) "masking-ratio")
       + length (PlotStage.query in_category (fun _ => true) PlotStage.faithfulness_plot
                                 (rows merged) "size")
       = length (rows merged).
Proof.
  intros Hc Hd Hm Hall.
  assert (Hkeys : forall r, In r (rows df) -> exists m, string_key "args.model" r = Some m)
    by (intros r Hr; apply (Hall r Hr)).
  eexists. split; [now apply merge_model_mapping|]. cbn [columns rows].
  assert (Hin : forall r', In r' (flat_map with_category (rows df)) <->
            exists l m c,
              In l (rows df) /\ string_key "args.model" l = Some m
              /\ category_of m = Some c
              /\ r' = (l ++ [("model_category", JString c)])%list).
  { intros r'. rewrite in_flat_map. split.
    - intros [l [Hl Hr']]. unfold with_category in Hr'.
      destruct (string_key "args.model" l) as [m|] eqn:Ek; [|destruct Hr'].
      destruct (category_of m) as [c|] eqn:Ec; [|destruct Hr'].
      destruct Hr' as [<-|[]]. now exists l, m, c.
    - intros [l [m [c [Hl [Hk [Hcat ->]]]]]]. exists l. split; [exact Hl|].
      unfold with_category. rewrite Hk, Hcat. now left. }
  assert (Hcat : forall r', In r' (flat_map with_category (rows df)) ->
            (in_category r' "masking-ratio" = true /\ in_category r' "size" = false)
            \/ (in_category r' "masking-ratio" = false /\ in_category r' "size" = true)).
  { intros r' Hr'. apply Hin in Hr'. destruct Hr' as [l [m [c [Hl [Hk [Hcat ->]]]]]].
    unfold in_category. rewrite get_app. destruct (Hall l Hl) as [_ ->].
    cbn [get String.eqb Ascii.eqb Bool.eqb key_is].
    destruct (category_of_cases _ _ Hcat) as [->| ->]; [left | right]; split; reflexivity. }
  split; [reflexivity|]. split; [apply Permutation_refl|].
  split; [|split; [exact Hin|split; [exact Hcat|]]].
  - apply with_category_length.
  - cbn [PlotStage.query]. apply filter_split_length.
    intros r' Hr'. destruct (Hcat r' Hr') as [[-> ->]|[-> ->]]; reflexivity.
Qed.

Lemma X13_witness :
  mem "args.model" (columns sample_table) = true
  /\ distinct (columns sample_table) = true
  /\ mem "model_category" (columns sample_table) = false
  /\ exists merged,
      merge sample_table model_mapping "args.model" = Return merged
      /\ Permutation (rows merged) (flat_map with_category (rows sample_table))
      /\ length (rows merged) <= 3.
Proof.
  split; [reflexivity|]. split; [reflexivity|]. split; [reflexivity|].
  assert (H : forall r, In r (rows sample_table) ->
                        (exists m, string_key "args.model" r = Some m)
                        /\ get r "model_category" = None).
  { intros r [<-|[<-|[<-|[]]]]; (split; [eexists|]; reflexivity). }
  destruct (X13_merge_with_model_mapping sample_table eq_refl eq_refl eq_refl H)
    as [merged [Hm [_ [Hp [Hl _]]]]].
  exists merged. now repeat split.
Defined.

Lemma same_eq (a b : option string) : same a b = true <-> a = b.
Proof.
  destruct a as [x|], b as [y|]; cbn [same];
    try (split; [discriminate | intros [=]]); try (split; reflexivity).
  rewrite String.eqb_eq. split; [now intros -> | now intros [= ->]].
Qed.

Lemma existsb_same (x : option string) (l : list (option string)) :
  existsb (same x) l = true <-> In x l.
Proof.
  rewrite existsb_exists. split.
  - intros [y [Hy Hs]]. apply same_eq in Hs. now subst.
  - intros Hx. exists x. split; [exact Hx | now apply same_eq].
Qed.

(** [unique] lists every value once, and only values of the column. *)
Lemma unique_from_spec (l seen : list (option string)) :
  NoDup seen ->
  NoDup (unique_from seen l)
  /\ (forall x, In x (unique_from seen l) <-> In x seen \/ In x l).
Proof.
  revert seen; induction l as [|x l IH]; intros seen Hnd; cbn [unique_from].
  - split; [exact Hnd|]. intros y. cbn [In]. tauto.
  - destruct (existsb (same x) seen) eqn:Ex.
    + apply existsb_same in Ex. destruct (IH seen Hnd) as [H1 H2].
      split; [exact H1|]. intros y. rewrite H2. cbn [In].
      split; [tauto|]. intros [Hy|[<-|Hy]]; auto.
    + assert (Hx : ~ In x seen).
      { intros Hin. apply existsb_same in Hin. congruence. }
      assert (Hnd' : NoDup (seen ++ [x])).
      { apply NoDup_app; [exact Hnd | repeat constructor; intros []|].
        intros a Ha [<-|[]]. contradiction. }
      destruct (IH _ Hnd') as [H1 H2]. split; [exact H1|].
      intros y. rewrite H2, in_app_iff. cbn [In]. tauto.
Qed.

(** X14. [df_goal] repeats every row of [df_masking] once for each
    distinct explainer of [df_faithfulness], with [args.explainer] set
    to it, so it has (number of distinct explainers) x (rows of
    [df_masking]) rows; when [df_faithfulness] has no row there is
    nothing to concatenate and [pd.concat] raises [ValueError], whatever
    [df_masking] holds. *)
Theorem X14_df_goal_repeats_masking_rows
        (df_masking df_faithfulness : table) (cells : list (option string)) :
  mem "args.explainer" (columns df_faithfulness) = true ->
  distinct (columns df_faithfulness) = true ->
  distinct (columns df_masking) = true ->
  traverse explainer (rows df_faithfulness) = Some cells ->
  (rows df_faithfulness = [] ->
   df_goal df_masking df_faithfulness
   = Raise (ValueError "No objects to concatenate"))
  /\ (rows df_faithfulness <> [] ->
      exists goal explainers,
        df_goal df_masking df_faithfulness = Return goal
        /\ explainers <> []
        /\ NoDup explainers
        /\ (forall e, In e explainers <-> In e cells)
        /\ In "args.explainer" (columns goal)
        /\ rows goal
           = flat_map (fun e => map (fun r => set_cell r "args.explainer"
                                                      (option_map JString e))
                                    (rows df_masking)) explainers
        /\ length (rows goal) = length explainers * length (rows df_masking)).
Proof.
  intros Hc Hdf Hdm Hcells. unfold df_goal. rewrite Hc, Hdf, Hdm, Hcells. cbn [negb andb].
  destruct (unique_from_spec cells [] (NoDup_nil _)) as [Hnd Hin].
  fold (unique cells) in Hnd, Hin.
  split.
  - intros Hrows. rewrite Hrows in Hcells. injection Hcells as <-. reflexivity.
  - intros Hrows.
    assert (Hne : unique cells <> []).
    { destruct (rows df_faithfulness) as [|r rs]; [now destruct Hrows|].
      cbn [traverse] in Hcells. destruct (explainer r) as [e|]; [|discriminate].
      destruct (traverse explainer rs) as [es|]; [|discriminate].
      injection Hcells as <-. intros Hu.
      assert (He : In e (unique (e :: es))) by (apply Hin; right; now left).
      rewrite Hu in He. destruct He. }
    destruct (unique cells) as [|e0 es]; [now destruct Hne|].
    eexists. exists (e0 :: es). split; [reflexivity|]. cbn [columns rows].
    split; [discriminate|]. split; [exact Hnd|].
    split; [intros e; rewrite (Hin e); cbn [In]; tauto|].
    split; [|split; [reflexivity|]].
    + destruct (mem "args.explainer" (columns df_masking)) eqn:Em;
        [now apply mem_true_iff | apply in_or_app; right; now left].
    + generalize (e0 :: es) as l. induction l as [|e l IH]; [reflexivity|].
      cbn [flat_map length]. rewrite length_app, length_map, IH. lia.
Qed.

Lemma X14_witness :
  mem "args.explainer" (columns sample_table) = true
  /\ distinct (columns sample_table) = true
  /\ traverse explainer (rows sample_table) = Some [Some "grad"; Some "rand"; Some "grad"]
  /\ df_goal sample_table {| columns := columns sample_table; rows := [] |}
     = Raise (ValueError "No objects to concatenate").
Proof.
  split; [reflexivity|]. split; [reflexivity|]. split; [reflexivity|].
  apply (X14_df_goal_repeats_masking_rows
           sample_table {| columns := columns sample_table; rows := [] |} []
           eq_refl eq_refl eq_refl eq_refl).
  reflexivity.
Defined.

Example df_goal_sample :
  option_map (fun g => length (rows g))
             (match df_goal sample_table sample_table with
              | Return g => Some g
              | _ => None
              end)
  = Some 6.
Proof. reflexivity. Qed.

End TableFacts.

Module MainFacts.
Import PlotStage Main.

Local Open Scope string_scope.

Lemma plotted_app (a b : list step) : plotted (a ++ b)%list = (plotted a ++ plotted b)%list.
Proof. unfold plotted. apply flat_map_app. Qed.

Lemma plotted_map_Plot (events : list event) : plotted (map Plot events) = events.
Proof.
  induction events as [|e events IH]; [reflexivity|].
  cbn [map plotted flat_map app]. f_equal. exact IH.
Qed.

Section Script.
Variable Row : Type.
Variable in_category : Row -> string -> bool.
Variable masking_ratio_is_zero : Row -> bool.
Variable renders : string -> list Row -> bool.
Variable preprocess : option (list Row).

#[local] Abbreviation main :=
  (main in_category masking_ratio_is_zero renders preprocess).
#[local] Abbreviation plot_loop :=
  (plot_loop in_category masking_ratio_is_zero renders).

Lemma stage_cases (stage : string) :
  stage = "both" \/ stage = "preprocess" \/ stage = "plot"
  \/ (Argparse.mem stage ["both"; "preprocess"] = false
      /\ Argparse.mem stage ["preprocess"] = false
      /\ Argparse.mem stage ["plot"] = false
      /\ Argparse.mem stage ["both"; "plot"] = false).
Proof.
  destruct (String.eqb_spec "both" stage) as [<-|Hb]; [now left|].
  destruct (String.eqb_spec "preprocess" stage) as [<-|Hp]; [right; now left|].
  destruct (String.eqb_spec "plot" stage) as [<-|Hl]; [right; right; now left|].
  right; right; right. cbn [Argparse.mem].
  rewrite (proj2 (String.eqb_neq _ _) Hb), (proj2 (String.eqb_neq _ _) Hp),
    (proj2 (String.eqb_neq _ _) Hl). repeat split; reflexivity.
Qed.

(** X15. The main block never uses [df] before a stage has assigned it,
    whatever the stage; a stage that is none of preprocess, plot and both
    does nothing.  When preprocessing succeeds, stage preprocess writes
    the pickle and plots nothing, and stage plot run after it plots what
    stage both plots, with the same outcome; stage both leaves the pickle
    as it found it, and stage plot without a pickle raises before it
    plots and never reads the result files. *)
Theorem X15_stages_of_the_main_block
        (s : script) (stage persistent_dir : string) (pickle0 : option (list Row)) :
  result (main s stage persistent_dir pickle0) <> Raised "NameError"
  /\ (stage <> "both" -> stage <> "preprocess" -> stage <> "plot" ->
      main s stage persistent_dir pickle0
      = {| steps := []; pickle := pickle0; result := Completed |})
  /\ (forall df, preprocess = Some df ->
        let first := main s "preprocess" persistent_dir pickle0 in
        let second := main s "plot" persistent_dir (pickle first) in
        let both := main s "both" persistent_dir pickle0 in
        result first = Completed
        /\ pickle first = Some df
        /\ plotted (steps first) = []
        /\ plotted (steps second) = plotted (steps both)
        /\ result second = result both
        /\ pickle both = pickle0)
  /\ (let only_plot := main s "plot" persistent_dir None in
      result only_plot = Raised "FileNotFoundError"
      /\ plotted (steps only_plot) = [])
  /\ ~ In ReadResultFiles (steps (main s "plot" persistent_dir pickle0)).
Proof.
  split; [|split; [|split; [|split]]].
  - destruct (stage_cases stage) as [->|[->|[->|[H1 [H2 [H3 H4]]]]]].
    + unfold main, Main.main. cbn [Argparse.mem String.eqb Ascii.eqb Bool.eqb orb].
      destruct preprocess as [df|]; [|discriminate].
      destruct (plot_loop s persistent_dir df model_categories) as [events [|]];
        discriminate.
    + unfold main, Main.main. cbn [Argparse.mem String.eqb Ascii.eqb Bool.eqb orb].
      destruct preprocess as [df|]; discriminate.
    + unfold main, Main.main. cbn [Argparse.mem String.eqb Ascii.eqb Bool.eqb orb].
      destruct pickle0 as [df|]; [|discriminate].
      destruct (plot_loop s persistent_dir df model_categories) as [events [|]];
        discriminate.
    + unfold main, Main.main. rewrite H1, H2, H3, H4. discriminate.
  - intros Hb Hp Hl.
    destruct (stage_cases stage) as [->|[->|[->|[H1 [H2 [H3 H4]]]]]];
      try contradiction.
    unfold main, Main.main. now rewrite H1, H2, H3, H4.
  - intros df Hdf. cbv zeta. unfold main, Main.main. rewrite Hdf.
    cbn [Argparse.mem String.eqb Ascii.eqb Bool.eqb orb pickle steps result].
    destruct (plot_loop s persistent_dir df model_categories) as [events completed].
    cbn [pickle steps result]. rewrite !plotted_app, !plotted_map_Plot.
    repeat split; try reflexivity; destruct s; reflexivity.
  - cbv zeta. split; reflexivity.
  - unfold main, Main.main. cbn [Argparse.mem String.eqb Ascii.eqb Bool.eqb orb].
    destruct pickle0 as [df|].
    + destruct (plot_loop s persistent_dir df model_categories) as [events completed].
      cbn [steps app]. intros [H|H]; [discriminate|].
      apply in_map_iff in H. destruct H as [e [H _]]. discriminate.
    + cbn [steps app]. intros [H|[]]. discriminate.
Qed.

End Script.

Lemma X15_witness :
  let main := Main.main (fun (r : nat) (c : string) => Nat.eqb r 0) (fun _ => true)
                        (fun _ _ => true) (Some [0; 0]) in
  result (main faithfulness_plot "both" "/repo" None) = Completed
  /\ pickle (main faithfulness_plot "preprocess" "/repo" None) = Some [0; 0]
  /\ result (main faithfulness_plot "plot" "/repo" None) = Raised "FileNotFoundError".
Proof.
  cbv zeta.
  destruct (X15_stages_of_the_main_block
              nat (fun (r : nat) (c : string) => Nat.eqb r 0) (fun _ => true)
              (fun _ _ => true) (Some [0; 0]) faithfulness_plot "both" "/repo" None)
    as [_ [_ [H [[H' _] _]]]].
  destruct (H [0; 0] eq_refl) as [_ [Hp _]].
  split; [reflexivity|]. split; [exact Hp|exact H'].
Defined.

End MainFacts.

Module MappingFacts.
Import Argparse ArgparseFacts Dataset Mapping.

Local Open Scope string_scope.

(** X16. Whatever command line faithfulness_plot.py accepts, the target
    metric it gives a dataset adapter is the adapter's early-stopping
    metric (for primary), loss or accuracy, and each of those is loss or
    one of the adapter's own metrics; the target metric of
    unmasked_performance_plot.py is always one of the adapter's
    metrics. *)
Theorem X16_target_metric_is_a_metric_of_the_dataset
        (home : string) (argv : list string) (ns : namespace)
        (unknown : list string) (d : descriptor) :
  parse_known_args (faithfulness_plot home) argv = Parsed ns unknown ->
  In d adapters ->
  exists performance_metric,
    getattr ns "performance_metric" = Some performance_metric
    /\ In (target_metric d performance_metric) ("loss" :: _metrics d)
    /\ (performance_metric = "primary"
        /\ target_metric d performance_metric = _early_stopping_metric d
        \/ performance_metric <> "primary"
           /\ target_metric d performance_metric = performance_metric)
    /\ In (primary_metric d) (_metrics d).
Proof.
  intros Hp Hd.
  destruct (F_returns_choices home argv ns unknown Hp) as [s [m [_ [_ [Hm Hin]]]]].
  exists m. split; [exact Hm|].
  destruct Hd as [<-|[<-|[]]];
    destruct Hin as [<-|[<-|[<-|[]]]]; cbn;
    repeat split; auto 10; try (right; split; [discriminate|reflexivity]).
Qed.

Lemma X16_witness :
  parse_known_args (faithfulness_plot "/repo") ["--performance-metric"; "accuracy"]
  = Parsed [("persistent_dir", "/repo"); ("stage", "both");
            ("performance_metric", "accuracy")] []
  /\ In CoLADataset adapters
  /\ exists performance_metric,
      getattr [("persistent_dir", "/repo"); ("stage", "both");
               ("performance_metric", "accuracy")] "performance_metric"
      = Some performance_metric
      /\ In (target_metric CoLADataset performance_metric)
            ("loss" :: _metrics CoLADataset).
Proof.
  split; [reflexivity|]. split; [now left|].
  destruct (X16_target_metric_is_a_metric_of_the_dataset
              "/repo" ["--performance-metric"; "accuracy"]
              [("persistent_dir", "/repo"); ("stage", "both");
               ("performance_metric", "accuracy")] [] CoLADataset
              eq_refl (or_introl eq_refl)) as [pm [H1 [H2 _]]].
  exists pm. now split.
Defined.

End MappingFacts.

Module PlotFilesFacts.
Import PlotStage Main.

Local Open Scope string_scope.

Lemma append_cancel (p a b : string) : p ++ a = p ++ b -> a = b.
Proof.
  induction p as [|c p IH]; cbn [append]; [trivial|].
  intros [= H]. exact (IH H).
Qed.

Ltac distinct_paths :=
  repeat (constructor;
          [cbn [In]; intros H;
           repeat (destruct H as [H|H];
                   [apply append_cancel in H; vm_compute in H; discriminate|]);
           exact H|]);
  constructor.

Section Dataframes.
Variable Row : Type.
Variable in_category : Row -> string -> bool.
Variable masking_ratio_is_zero : Row -> bool.
Variable renders : string -> list Row -> bool.

(** X17. Whatever the two dataframes hold and whichever categories are
    skipped, rendered or fail, no file is saved twice: the plot loops of
    faithfulness_plot.py and of unmasked_performance_plot.py, run on the
    same persistent directory, write pairwise different paths. *)
Theorem X17_no_plot_file_is_written_twice
        (persistent_dir : string) (df df' : list Row) :
  NoDup (saved (fst (plot_loop in_category masking_ratio_is_zero renders
                               faithfulness_plot persistent_dir df
                               model_categories))
         ++ saved (fst (plot_loop in_category masking_ratio_is_zero renders
                                  unmasked_performance_plot persistent_dir df'
                                  model_categories)))%list.
Proof.
  unfold model_categories. cbn [plot_loop]. unfold plot_category.
  repeat match goal with
         | |- context [if ?b then _ else _] => destruct b
         end;
    cbn [fst snd app saved flat_map plot_events]; unfold plot_path;
    cbn [plot_name]; distinct_paths.
Qed.

End Dataframes.

End PlotFilesFacts.

Module AbbreviationFacts.
Import Argparse ArgparseFacts.

Local Open Scope string_scope.

(** X18. argparse accepts unambiguous prefixes of a flag.  With
    unmasked_performance_plot.py [--p VALUE] sets the persistent
    directory; faithfulness_plot.py, which also declares
    [--performance-metric], rejects a command line that begins with
    [--p], [--pe] or [--per] as ambiguous, with status 2. *)
Theorem X18_abbreviated_persistent_dir
        (home value : string) (rest : list string) (flag : string) :
  plain value = true ->
  In flag ["--p"; "--pe"; "--per"] ->
  parse_known_args (faithfulness_plot home) (flag :: rest)
  = Exit 2 "ambiguous option"
  /\ parse_known_args (unmasked_performance_plot home) ["--p"; value]
     = Parsed [("persistent_dir", value); ("stage", "both")] [].
Proof.
  intros Hv Hflag. split.
  - unfold parse_known_args.
    assert (Hc : classify (faithfulness_plot home) (flag :: rest) = None).
    { cbn [classify].
      destruct Hflag as [<-|[<-|[<-|[]]]];
        (change (String.eqb _ "--") with false; cbv iota;
         match goal with
         | |- context [parse_optional ?p ?f] =>
             change (parse_optional p f) with (@None reading)
         end; reflexivity). }
    now rewrite Hc.
  - destruct (plain_is_positional (unmasked_performance_plot home) value Hv)
      as [Hd Hp].
    unfold parse_known_args. cbn [classify].
    change (String.eqb "--p" "--") with false. cbv iota.
    change (parse_optional (unmasked_performance_plot home) "--p")
      with (Some (O (Some (add_argument "--persistent-dir" home None))
                    "--persistent-dir" None)).
    destruct (String.eqb_spec value "--"); [contradiction|]. rewrite Hp.
    reflexivity.
Qed.

Lemma X18_witness :
  plain "/data" = true
  /\ In "--pe" ["--p"; "--pe"; "--per"]
  /\ parse_known_args (faithfulness_plot "/repo") ["--pe"; "/data"; "--stage"; "plot"]
     = Exit 2 "ambiguous option"
  /\ parse_known_args (unmasked_performance_plot "/repo") ["--p"; "/data"]
     = Parsed [("persistent_dir", "/data"); ("stage", "both")] [].
Proof.
  split; [reflexivity|]. split; [right; now left|].
  exact (X18_abbreviated_persistent_dir "/repo" "/data" ["/data"; "--stage"; "plot"]
           "--pe" eq_refl (or_intror (or_introl eq_refl))).
Defined.

End AbbreviationFacts.

Module GlobFacts.
Import Glob.

Local Open Scope string_scope.

Lemma ascii_compare_lt_trans (a b c : ascii) :
  Ascii.compare a b = Lt -> Ascii.compare b c = Lt -> Ascii.compare a c = Lt.
Proof.
  unfold Ascii.compare. rewrite !N.compare_lt_iff. apply N.lt_trans.
Qed.

Lemma compare_lt_trans (s1 : string) :
  forall s2 s3, String.compare s1 s2 = Lt -> String.compare s2 s3 = Lt ->
                String.compare s1 s3 = Lt.
Proof.
  induction s1 as [|a s1 IH]; intros [|b s2] [|c s3]; cbn [String.compare];
    try discriminate; trivial.
  destruct (Ascii.compare a b) eqn:Hab; [| |discriminate].
  - apply Ascii.compare_eq_iff in Hab. subst b.
    destruct (Ascii.compare a c); [apply IH|trivial|discriminate].
  - intros _. destruct (Ascii.compare b c) eqn:Hbc; [| |discriminate].
    + apply Ascii.compare_eq_iff in Hbc. subst c. now rewrite Hab.
    + intros _. now rewrite (ascii_compare_lt_trans a b c Hab Hbc).
Qed.

Lemma leb_trans (s1 s2 s3 : string) :
  String.leb s1 s2 = true -> String.leb s2 s3 = true -> String.leb s1 s3 = true.
Proof.
  unfold String.leb.
  destruct (String.compare s1 s2) eqn:H12; [| |discriminate]; intros _.
  - apply String.compare_eq_iff in H12. now subst s2.
  - destruct (String.compare s2 s3) eqn:H23; [| |discriminate]; intros _.
    + apply String.compare_eq_iff in H23. subst s3. now rewrite H12.
    + now rewrite (compare_lt_trans s1 s2 s3 H12 H23).
Qed.

(** The order [sorted] sorts by. *)
#[local] Abbreviation le := (fun f g : Reader.file => String.leb (fst f) (fst g) = true).

Lemma insert_permutation (f : Reader.file) (l : list Reader.file) :
  Permutation (insert f l) (f :: l).
Proof.
  induction l as [|g l IH]; cbn [insert]; [apply Permutation_refl|].
  destruct (String.leb (fst f) (fst g)); [apply Permutation_refl|].
  apply perm_trans with (g :: f :: l); [now apply perm_skip|apply perm_swap].
Qed.

Lemma sorted_permutation (l : list Reader.file) : Permutation (sorted l) l.
Proof.
  induction l as [|f l IH]; [apply perm_nil|].
  change (sorted (f :: l)) with (insert f (sorted l)).
  apply perm_trans with (f :: sorted l);
    [apply insert_permutation|now apply perm_skip].
Qed.

Lemma insert_sorted (f : Reader.file) (l : list Reader.file) :
  StronglySorted le l -> StronglySorted le (insert f l).
Proof.
  induction 1 as [|g l Hs IH Hg]; cbn [insert].
  - constructor; constructor.
  - destruct (String.leb (fst f) (fst g)) eqn:Hfg.
    + constructor; [now constructor|].
      constructor; [exact Hfg|].
      apply Forall_forall. intros h Hh.
      rewrite Forall_forall in Hg.
      exact (leb_trans _ _ _ Hfg (Hg h Hh)).
    + constructor; [exact IH|].
      apply Forall_forall. intros h Hh.
      apply (Permutation_in _ (insert_permutation f l)) in Hh.
      destruct Hh as [<-|Hh].
      * destruct (String.leb_total (fst f) (fst g)) as [H|H]; [congruence|exact H].
      * rewrite Forall_forall in Hg. exact (Hg h Hh).
Qed.

Lemma sorted_sorted (l : list Reader.file) : StronglySorted le (sorted l).
Proof.
  induction l as [|f l IH]; [constructor|].
  change (sorted (f :: l)) with (insert f (sorted l)).
  now apply insert_sorted.
Qed.

Lemma same_name_same_file (l : list Reader.file) (f g : Reader.file) :
  NoDup (map fst l) -> In f l -> In g l -> fst f = fst g -> f = g.
Proof.
  induction l as [|h l IH]; [intros _ []|].
  cbn [map]. intros Hnd Hf Hg Hfg. inversion Hnd as [|x xs Hx Hnd']; subst.
  destruct Hf as [->|Hf], Hg as [->|Hg].
  - reflexivity.
  - exfalso. apply Hx. rewrite Hfg. now apply in_map.
  - exfalso. apply Hx. rewrite <- Hfg. now apply in_map.
  - now apply IH.
Qed.

Lemma sorted_unique (l1 : list Reader.file) :
  forall l2, NoDup (map fst l1) -> StronglySorted le l1 -> StronglySorted le l2 ->
             Permutation l1 l2 -> l1 = l2.
Proof.
  induction l1 as [|a l1 IH]; intros l2 Hnd H1 H2 Hp.
  - apply Permutation_nil in Hp. now subst.
  - destruct l2 as [|b l2].
    { apply Permutation_sym, Permutation_nil in Hp. discriminate. }
    inversion H1 as [|? ? H1' Ha]; subst. inversion H2 as [|? ? H2' Hb]; subst.
    rewrite Forall_forall in Ha, Hb.
    assert (Hab : a = b).
    { assert (Hb1 : In b (a :: l1))
        by (apply (Permutation_in _ (Permutation_sym Hp)); now left).
      assert (Ha2 : In a (b :: l2))
        by (apply (Permutation_in _ Hp); now left).
      apply (same_name_same_file (a :: l1) a b Hnd (or_introl eq_refl) Hb1).
      apply String.leb_antisym.
      - destruct Hb1 as [->|Hb1]; [|now apply Ha].
        destruct (String.leb_total (fst b) (fst b)) as [H|H]; exact H.
      - destruct Ha2 as [->|Ha2]; [|now apply Hb].
        destruct (String.leb_total (fst a) (fst a)) as [H|H]; exact H. }
    subst b. f_equal. apply IH; trivial.
    + cbn [map] in Hnd. now inversion Hnd.
    + now apply Permutation_cons_inv with a.
Qed.

Lemma glob_permutation (prefix suffix : string) (d d' : list Reader.file) :
  Permutation d d' -> Permutation (glob prefix suffix d) (glob prefix suffix d').
Proof.
  unfold glob. induction 1 as [|f d d' Hp IH|f g d|d d' d'' H1 IH1 H2 IH2];
    cbn [filter].
  - apply perm_nil.
  - destruct (fnmatch prefix suffix (fst f)); [now apply perm_skip|exact IH].
  - destruct (fnmatch prefix suffix (fst f)), (fnmatch prefix suffix (fst g));
      try apply Permutation_refl. apply perm_swap.
  - now apply perm_trans with (filter (fun f => fnmatch prefix suffix (fst f)) d').
Qed.

Lemma glob_names_distinct (prefix suffix : string) (d : list Reader.file) :
  NoDup (map fst d) -> NoDup (map fst (glob prefix suffix d)).
Proof.
  unfold glob. induction d as [|f d IH]; cbn [map filter]; [trivial|].
  intros Hnd. inversion Hnd as [|x xs Hx Hnd']; subst.
  destruct (fnmatch prefix suffix (fst f)); [|now apply IH].
  cbn [map]. constructor; [|now apply IH].
  intros Hin. apply Hx. apply in_map_iff in Hin.
  destruct Hin as [g [Hg Hin]]. apply filter_In in Hin.
  rewrite <- Hg. apply in_map. exact (proj1 Hin).
Qed.

Lemma after_prefix_spec (p : string) :
  forall s rest, after_prefix p s = Some rest <-> s = p ++ rest.
Proof.
  induction p as [|c p IH]; intros s rest; cbn [after_prefix append].
  - split; [now intros [= ->]|now intros ->].
  - destruct s as [|d s]; [split; discriminate|].
    destruct (Ascii.eqb_spec c d) as [->|Hcd].
    + rewrite IH. split; [now intros ->|now intros [= ->]].
    + split; [discriminate|]. intros [= H _]. now elim Hcd.
Qed.

Lemma endswith_spec (suffix s : string) :
  endswith s suffix = true <-> exists middle, s = middle ++ suffix.
Proof.
  induction s as [|c s IH]; cbn [endswith].
  - rewrite orb_false_r, String.eqb_eq. split.
    + intros <-. now exists EmptyString.
    + intros [[|d m] H]; [exact H|discriminate].
  - rewrite orb_true_iff, String.eqb_eq, IH. split.
    + intros [<-|[m ->]]; [now exists EmptyString|now exists (String c m)].
    + intros [[|d m] H]; [now left|].
      right. cbn [append] in H. injection H as _ ->. now exists m.
Qed.

Lemma fnmatch_spec (prefix suffix name : string) :
  fnmatch prefix suffix name = true
  <-> exists middle, name = prefix ++ middle ++ suffix.
Proof.
  unfold fnmatch. destruct (after_prefix prefix name) as [rest|] eqn:Hp.
  - apply after_prefix_spec in Hp. subst name. rewrite endswith_spec.
    split; intros [m Hm]; exists m.
    + now rewrite Hm.
    + revert Hm. clear. induction prefix as [|c p IH]; cbn [append]; [trivial|].
      intros [= H]. exact (IH H).
  - split; [discriminate|]. intros [m Hm].
    assert (H : after_prefix prefix name = Some (m ++ suffix))
      by now apply after_prefix_spec.
    congruence.
Qed.

Lemma in_files (persistent_dir prefix suffix : string) (d : list Reader.file)
      (path text : string) :
  In (path, text) (files persistent_dir prefix suffix d)
  <-> exists name middle,
      path = persistent_dir ++ "/results/" ++ name
      /\ name = prefix ++ middle ++ suffix
      /\ In (name, text) d.
Proof.
  unfold files. rewrite in_map_iff. split.
  - intros [[name text'] [[= <- <-] Hin]].
    apply (Permutation_in _ (sorted_permutation _)) in Hin.
    unfold glob in Hin. apply filter_In in Hin. destruct Hin as [Hin Hm].
    apply fnmatch_spec in Hm. destruct Hm as [m Hm].
    now exists name, m.
  - intros [name [m [-> [Hm Hin]]]]. exists (name, text). split; [reflexivity|].
    apply (Permutation_in _ (Permutation_sym (sorted_permutation _))).
    unfold glob. apply filter_In. split; [exact Hin|].
    apply fnmatch_spec. now exists m.
Qed.

(** X19. The files a loop reads do not depend on the order in which the
    system lists the results directory: for a directory of distinctly
    named entries, any reordering of the listing gives the same sorted
    list of files.  A file is read exactly when its name is the prefix of
    the pattern, anything, and the suffix; and the two loops of
    faithfulness_plot.py never read the same file. *)
Theorem X19_result_files_of_a_directory
        (persistent_dir prefix suffix : string) (d d' : list Reader.file) :
  NoDup (map fst d) ->
  Permutation d d' ->
  files persistent_dir prefix suffix d' = files persistent_dir prefix suffix d
  /\ (forall path text,
        In (path, text) (files persistent_dir prefix suffix d)
        <-> exists name middle,
            path = persistent_dir ++ "/results/" ++ name
            /\ name = prefix ++ middle ++ suffix
            /\ In (name, text) d)
  /\ (forall f, In f (files persistent_dir "faithfulness_" ".json" d) ->
                ~ In f (files persistent_dir "masking_" ".json" d')).
Proof.
  intros Hnd Hp. split; [|split].
  - unfold files. f_equal. symmetry. apply sorted_unique.
    + apply (Permutation_NoDup
               (Permutation_map fst (Permutation_sym (sorted_permutation _)))).
      now apply glob_names_distinct.
    + apply sorted_sorted.
    + apply sorted_sorted.
    + apply perm_trans with (glob prefix suffix d); [apply sorted_permutation|].
      apply perm_trans with (glob prefix suffix d');
        [now apply glob_permutation|apply Permutation_sym, sorted_permutation].
  - intros path text. apply in_files.
  - intros [path text] Hf Hm.
    apply in_files in Hf. apply in_files in Hm.
    destruct Hf as [name [m [-> [-> _]]]]. destruct Hm as [name' [m' [Hpath [-> _]]]].
    apply PlotFilesFacts.append_cancel in Hpath. discriminate.
Qed.

Lemma X19_witness :
  NoDup (map fst sample_directory)
  /\ Permutation sample_directory (rev sample_directory)
  /\ files "/repo" "masking_" ".json" (rev sample_directory)
     = files "/repo" "masking_" ".json" sample_directory.
Proof.
  assert (Hnd : NoDup (map fst sample_directory)).
  { repeat (constructor;
            [cbn [In]; intros H;
             repeat (destruct H as [H|H]; [discriminate|]); exact H|]).
    constructor. }
  split; [exact Hnd|]. split; [apply Permutation_rev|].
  exact (proj1 (X19_result_files_of_a_directory
                  "/repo" "masking_" ".json" sample_directory
                  (rev sample_directory) Hnd (Permutation_rev _))).
Defined.

End GlobFacts.

Module UnmaskedGoalFacts.
Import UnmaskedGoal.

Section Dataframe.
Variable Row : Type.
Variable max_masking_ratio_is : Row -> Z -> bool.

(** X8. In unmasked_performance_plot.py [df_goal] is no frame of rows:
    [eval] is given a comparison, not an assignment, so each of the two
    concatenated parts is a column of truth values.  With [n] rows of
    [df_plot] at max masking ratio 0, [df_goal] is [n] times True
    followed by [n] times False. *)
Theorem X8_df_goal_is_a_column_of_truth_values (df_plot : list Row) :
  (forall r, max_masking_ratio_is r 0 = true ->
             max_masking_ratio_is r 100 = false) ->
  let n := length (query max_masking_ratio_is df_plot) in
  df_goal max_masking_ratio_is df_plot = (repeat true n ++ repeat false n)%list.
Proof.
  intros H n. unfold df_goal. cbn [map concat]. rewrite app_nil_r.
  subst n. unfold query, eval.
  f_equal; induction df_plot as [|r df IH]; trivial; cbn [filter];
    destruct (max_masking_ratio_is r 0) eqn:Hr; trivial;
    cbn [map length repeat]; rewrite ?Hr, ?(H r Hr); now f_equal.
Qed.

End Dataframe.

Lemma X8_witness :
  (forall r, Z.eqb r 0 = true -> Z.eqb r 100 = false)
  /\ df_goal Z.eqb [0; 50; 0; 100]%Z = [true; true; false; false].
Proof.
  assert (H : forall r, Z.eqb r 0 = true -> Z.eqb r 100 = false).
  { intros r Hr. apply Z.eqb_eq in Hr. now subst r. }
  split; [exact H|].
  exact (X8_df_goal_is_a_column_of_truth_values Z Z.eqb [0; 50; 0; 100]%Z H).
Defined.

End UnmaskedGoalFacts.

Module PreprocessFacts.
Import Argparse ArgparseFacts Preprocess.

Local Open Scope string_scope.

(** The invariant of the second pass, for what the [store] actions keep:
    the [help] action never stores. *)
Lemma consume_store_invariant_upto (p : Argparse.parser) (I : namespace -> Prop)
      (n : nat) (items : list (string * reading))
      (ns ns' : namespace) (extras unknown : list string) :
  (forall a value ns0,
      In a p -> action a = Store ->
      I ns0 -> I (JSON.dict_set (dest a) value ns0)) ->
  length items <= n ->
  Forall (from_parser p) items ->
  I ns ->
  consume items ns extras = Parsed ns' unknown ->
  I ns'.
Proof.
  intros Hkeep.
  revert items ns extras; induction n as [|n IH]; intros items ns extras Hn Hp Hns.
  - destruct items; [|simpl in Hn; lia]. intros [= <- _]. exact Hns.
  - destruct items as [|[s r] rest]; [intros [= <- _]; exact Hns|].
    cbn [length] in Hn. inversion Hp as [|? ? Hr Hrest]; subst.
    assert (Hgo : forall items' ns0 ex,
               length items' <= length rest -> Forall (from_parser p) items' ->
               I ns0 -> consume items' ns0 ex = Parsed ns' unknown -> I ns').
    { intros items' ns0 ex Hl. apply IH. lia. }
    cbn [consume].
    destruct r as [| |[a|] os ea]; try (apply Hgo; auto; fail).
    unfold from_parser in Hr; cbn [snd] in Hr.
    destruct (action a) eqn:Ea.
    + assert (Hstore : forall value items' ex,
                 length items' <= length rest -> Forall (from_parser p) items' ->
                 match choices a with
                 | Some cs =>
                     if mem value cs
                     then consume items' (JSON.dict_set (dest a) value ns) ex
                     else Exit 2 ("argument " ++ os ++ ": invalid choice")
                 | None => consume items' (JSON.dict_set (dest a) value ns) ex
                 end = Parsed ns' unknown ->
                 I ns').
      { intros value items' ex Hl Hf.
        destruct (choices a) as [cs|].
        - destruct (mem value cs); [|discriminate].
          apply Hgo; auto.
        - apply Hgo; auto. }
      destruct ea as [e|].
      * destruct (String.eqb e "--"); [discriminate|]. now apply Hstore.
      * destruct rest as [|[v [| |? ? ?]] rest']; try discriminate.
        inversion Hrest as [|? ? _ Hrest']; subst.
        apply Hstore; [simpl; lia | assumption].
    + destruct ea as [e|]; [|discriminate].
      destruct (String.eqb os "-h" && all_h e); discriminate.
Qed.

(** X20. experiments/preprocess.py ends with status 2 on any string its
    parser does not know, for one a [--stage] flag that the export
    scripts accept; when its command line is accepted the namespace
    holds the persistent directory and nothing else, and without
    arguments that is the default. *)
Theorem X20_preprocess_rejects_unknown_arguments
        (home value : string) (argv : list string) :
  plain value = true ->
  parse_args (parser home) ["--stage"; value]
  = Exit 2 ("unrecognized arguments: --stage " ++ value)
  /\ parse_args (parser home) [] = Parsed [("persistent_dir", home)] []
  /\ forall args unknown,
      parse_args (parser home) argv = Parsed args unknown ->
      unknown = []
      /\ exists persistent_dir, args = [("persistent_dir", persistent_dir)].
Proof.
  intros Hv. split; [|split].
  - destruct (plain_is_positional (parser home) value Hv) as [Hd Hp].
    unfold parse_args, parse_known_args. cbn [classify].
    change (String.eqb "--stage" "--") with false. cbv iota.
    change (parse_optional (parser home) "--stage")
      with (Some (O None "--stage" None)).
    destruct (String.eqb_spec value "--"); [contradiction|]. rewrite Hp.
    reflexivity.
  - reflexivity.
  - intros args unknown. unfold parse_args.
    destruct (parse_known_args (parser home) argv) as [ns u|st m|] eqn:Ep;
      [|discriminate|discriminate].
    destruct u as [|x u]; [|discriminate]. intros [= <- <-].
    split; [reflexivity|].
    unfold parse_known_args in Ep.
    destruct (classify (parser home) argv) as [items|] eqn:Ec; [|discriminate].
    apply (consume_store_invariant_upto (parser home)
             (fun ns => exists d, ns = [("persistent_dir", d)])
             (length items) items (defaults (parser home)) ns [] []);
      [| apply le_n | now apply classify_from_parser with (argv := argv)
       | now exists home | exact Ep].
    intros a v ns0 [<-|[<-|[]]] Ha [d ->]; [discriminate|now exists v].
Qed.

Lemma X20_witness :
  plain "plot" = true
  /\ parse_args (parser "/repo") ["--stage"; "plot"]
     = Exit 2 "unrecognized arguments: --stage plot".
Proof.
  split; [reflexivity|].
  exact (proj1 (X20_preprocess_rejects_unknown_arguments "/repo" "plot" [] eq_refl)).
Defined.

End PreprocessFacts.
